(** * AIApiOrchestrator: the resolution-and-execution engine

    A shallow embedding of the parts of the TypeScript sources that the
    specification talks about, followed by the theorems about them:

    - [Js]: the JavaScript values the engine manipulates (parsed JSON,
      [undefined], the built-in objects that the data inherit from),
      property access along the prototype chain, [typeof], [String(...)].
    - [Strings]: the string primitives used by the engine ([trim],
      [split], literal and pattern matching).
    - [SchemaValidation]: [utils/SchemaValidation.ts].
    - [ConnectionBuilder]: the type check of [models/ConnectionBuilder.ts].
    - [Engine]: [execution/ApiExecutionEngine.ts] (type matrix, dependency
      ordering, field extraction, connection resolution, sanitation of
      model output, merge of AI values, per-endpoint execution).
    - [Transforms], [ConnectionBuilding], [TransformedProperty]: the
      predefined transformations and the builder of typed connections.
    - [Endpoint]: the connections of [models/ApiEndpoint.ts] and the
      validation that its properties carry.
    - [ParameterBuilder]: [utils/ParameterBuilder.ts].
    - [HttpResponseUtils]: the previews of response data.

    Modelling conventions.
    - A JavaScript string is a [string] (a sequence of code units below 256).
    - A JavaScript object is the association list of its own enumerable
      properties, in insertion order; an array is the list of its elements.
    - The members that data inherit are built-in objects of the runtime.
      Those of [Object.prototype] ([constructor], [toString],
      [hasOwnProperty], ...) are the same in every runtime and are part of
      the model; those of the other prototypes, and what a call of a
      built-in function returns, are parameters ([Js.Builtins]). The
      prototypes are the ones that the runtime starts with: no program has
      added members to them.
    - A number is [NaN], an infinity, or a finite number whose value is an
      integer; numbers with a fractional part are not part of the model.
    - A thrown exception is the [Throw] outcome of a computation; state that
      was written before the throw is kept.
    - The recursive closure of the dependency resolver is run with fuel;
      the fuel it is given is proved to suffice.
    - The runtime's built-ins ([JSON.parse], regular expressions, ...) and
      the engine's collaborators (templates, completion client,
      authentication handlers, transport) are parameters.
    - The clock ([Date.now()]) is an argument of the functions that read
      it.
    - The validation object that the parameter builder shares with the
      definitions it builds lives in a store, and the definitions hold its
      address.
    - The lengths and depths that bound a preview are natural numbers. *)

From Stdlib Require Import Ascii.
From stdpp Require Import gmap strings list pretty.

Local Open Scope string_scope.
Local Open Scope list_scope.
Set Warnings "-register-all".

(** ** Outcomes of computations that may throw *)

Inductive JsError : Type :=
| Error (message : string)
| SyntaxError (message : string)
| TypeError (message : string).

Definition error_message (e : JsError) : string :=
  match e with
  | Error m | SyntaxError m | TypeError m => m
  end.

Inductive outcome (A : Type) : Type :=
| Ok (a : A)
| Throw (e : JsError).
Arguments Ok {A} a.
Arguments Throw {A} e.

#[global] Instance outcome_ret : MRet outcome := λ A a, Ok a.
#[global] Instance outcome_bind : MBind outcome := λ A B k m,
  match m with
  | Ok a => k a
  | Throw e => Throw e
  end.

(** [for (const x of l) body(x)] over a threaded state, leaving the loop at
    the first throw. *)
Section ForEach.
Context {S A : Type} (body : S → A → outcome S).

Fixpoint for_each (l : list A) (st : S) : outcome S :=
  match l with
  | [] => Ok st
  | x :: rest => st' ← body st x; for_each rest st'
  end.
End ForEach.

(** ** String primitives *)
Module Strings.

(** White space as [String.prototype.trim] sees it (code units below 256). *)
Definition is_space (c : ascii) : bool :=
  let n := nat_of_ascii c in
  (n =? 9)%nat || (n =? 10)%nat || (n =? 11)%nat || (n =? 12)%nat
  || (n =? 13)%nat || (n =? 32)%nat || (n =? 160)%nat.

Fixpoint trim_start (s : string) : string :=
  match s with
  | String c rest => if is_space c then trim_start rest else s
  | EmptyString => EmptyString
  end.

(** Drops trailing white space: a suffix is kept unless it is all spaces. *)
Fixpoint trim_end (s : string) : string :=
  match s with
  | String c rest =>
      match trim_end rest with
      | EmptyString => if is_space c then EmptyString else String c EmptyString
      | kept => String c kept
      end
  | EmptyString => EmptyString
  end.

Definition trim (s : string) : string := trim_end (trim_start s).

(** [drop_prefix p s] is [Some rest] when [s = p ++ rest]. *)
Fixpoint drop_prefix (p s : string) : option string :=
  match p, s with
  | EmptyString, _ => Some s
  | String a p', String b s' => if Ascii.eqb a b then drop_prefix p' s' else None
  | String _ _, EmptyString => None
  end.

(** [s.includes(needle)] *)
Fixpoint includes (needle s : string) : bool :=
  match drop_prefix needle s with
  | Some _ => true
  | None => match s with
            | String _ rest => includes needle rest
            | EmptyString => false
            end
  end.

(** [s.split(sep)] for a one-character separator. *)
Fixpoint split (sep : ascii) (s : string) : list string :=
  match s with
  | EmptyString => [EmptyString]
  | String c rest =>
      if Ascii.eqb c sep then EmptyString :: split sep rest
      else match split sep rest with
           | part :: parts => String c part :: parts
           | [] => [String c EmptyString]
           end
  end.

(** [l.join(sep)] on strings. *)
Fixpoint join (sep : string) (l : list string) : string :=
  match l with
  | [] => ""
  | [x] => x
  | x :: rest => x +:+ sep +:+ join sep rest
  end.

(** [s.replace(/<lit>\n?/g, '')]: every occurrence of the literal [lit]
    (non-empty), with one following line feed if there is one, is
    removed, scanning from the left. [skip] counts the characters of the
    current occurrence that are still to be dropped. *)
Fixpoint remove_all_from (lit : string) (skip : nat) (s : string) : string :=
  match s with
  | EmptyString => EmptyString
  | String c rest =>
      match skip with
      | S k => remove_all_from lit k rest
      | O =>
          match drop_prefix lit s with
          | Some (String "010"%char _) => remove_all_from lit (String.length lit) rest
          | Some _ => remove_all_from lit (String.length lit - 1) rest
          | None => String c (remove_all_from lit 0 rest)
          end
      end
  end.

Definition remove_all (lit s : string) : string := remove_all_from lit 0 s.

(** [s.replace(lit, new)] for a literal [lit]: the first occurrence only. *)
Fixpoint replace_first (lit new s : string) : string :=
  match drop_prefix lit s with
  | Some rest => new +:+ rest
  | None => match s with
            | String c rest => String c (replace_first lit new rest)
            | EmptyString => EmptyString
            end
  end.

(** The line feed. *)
Definition LF : string := String "010"%char EmptyString.

(** The double quote. *)
Definition quote : string := String "034"%char EmptyString.

End Strings.

(** ** The two regular expressions of the engine

    Both have the shape [^ a1 a2 ... an $] where every [ai] is a character
    class or a starred character class. [exec] is the backtracking matcher
    of the runtime on that fragment: a star is greedy and gives characters
    back one at a time until the rest matches. It returns the text that
    each [ai] matched. *)
Module Pattern.

Inductive atom : Type :=
| One (class : ascii → bool)
| Many (class : ascii → bool).

Fixpoint exec (atoms : list atom) (s : string) : option (list string) :=
  match atoms with
  | [] => match s with EmptyString => Some [] | _ => None end
  | One class :: rest =>
      match s with
      | String c s' =>
          if class c then cons (String c EmptyString) <$> exec rest s' else None
      | EmptyString => None
      end
  | Many class :: rest =>
      (fix many (s : string) : option (list string) :=
         let stop := cons EmptyString <$> exec rest s in
         match s with
         | String c s' =>
             if class c then
               match many s' with
               | Some (m :: ms) => Some (String c m :: ms)
               | _ => stop
               end
             else stop
         | EmptyString => stop
         end) s
  end.

Definition any (c : ascii) : bool := true.
Definition only (x c : ascii) : bool := Ascii.eqb c x.
Definition except (x c : ascii) : bool := negb (Ascii.eqb c x).

(** [/^[^{]*({.*})[^}]*$/s] *)
Definition object_pattern : list atom :=
  [Many (except "{"); One (only "{"); Many any; One (only "}"); Many (except "}")].

(** [/^[^[]*(\[.*\])[^]]*$/s]. In a JavaScript pattern [[^]] is a complete
    class, the one that matches any character, so that the tail [[^]]*]
    reads: one character, then any number of closing brackets. *)
Definition array_pattern : list atom :=
  [Many (except "["); One (only "["); Many any; One (only "]"); One any; Many (only "]")].

(** Capture group 1 of both patterns: the text of the second, third and
    fourth atoms. *)
Definition group1 (texts : list string) : string :=
  match texts with
  | _ :: a :: b :: c :: _ => a +:+ b +:+ c
  | _ => ""
  end.

End Pattern.

(** ** JavaScript values *)
Module Js.

Inductive JsNumber : Type :=
| NaN
| Infinity (negative : bool)
| Num (z : Z).

(** A built-in object of the runtime is a function, an array (the
    prototype of the arrays) or another object (the other prototypes). *)
Inductive NativeKind : Type := function_kind | array_kind | object_kind.

(** The values: data (what [JSON.parse] gives, and [undefined]), where an
    object is the list of its own enumerable properties, and the built-in
    objects of the runtime, which are met as inherited members of the
    data. A built-in object is given by its kind, by its name, which tells
    it from the other built-in objects, and by the text that [String]
    gives for it; it has no enumerable property of its own. *)
Inductive JsValue : Type :=
| JUndefined
| JNull
| JBool (b : bool)
| JNumber (n : JsNumber)
| JString (s : string)
| JArray (elements : list JsValue)
| JObject (properties : list (string * JsValue))
| JNative (kind : NativeKind) (name : string) (text : string).

Definition isNaN (n : JsNumber) : bool :=
  match n with NaN => true | _ => false end.

Definition isFinite (n : JsNumber) : bool :=
  match n with Num _ => true | _ => false end.

(** [a < b] on numbers: false as soon as one side is [NaN]. *)
Definition num_lt (a b : JsNumber) : bool :=
  match a, b with
  | NaN, _ | _, NaN => false
  | Infinity true, Infinity true => false
  | Infinity true, _ => true
  | _, Infinity true => false
  | Infinity false, _ => false
  | Num _, Infinity false => true
  | Num x, Num y => bool_decide (x < y)%Z
  end.

Definition num_to_string (n : JsNumber) : string :=
  match n with
  | NaN => "NaN"
  | Infinity false => "Infinity"
  | Infinity true => "-Infinity"
  | Num z => pretty z
  end.

Definition typeof (v : JsValue) : string :=
  match v with
  | JUndefined => "undefined"
  | JNull | JArray _ | JObject _ => "object"
  | JBool _ => "boolean"
  | JNumber _ => "number"
  | JString _ => "string"
  | JNative function_kind _ _ => "function"
  | JNative _ _ _ => "object"
  end.

Definition isArray (v : JsValue) : bool :=
  match v with JArray _ | JNative array_kind _ _ => true | _ => false end.

(** [v === null] and [v === undefined] *)
Definition is_null (v : JsValue) : bool :=
  match v with JNull => true | _ => false end.

Definition is_undefined (v : JsValue) : bool :=
  match v with JUndefined => true | _ => false end.

(** Truthiness, as in [if (v)] and [v && ...]. *)
Definition truthy (v : JsValue) : bool :=
  match v with
  | JUndefined | JNull => false
  | JBool b => b
  | JNumber NaN => false
  | JNumber (Num z) => negb (bool_decide (z = 0%Z))
  | JNumber (Infinity _) => true
  | JString s => negb (String.eqb s "")
  | JArray _ | JObject _ | JNative _ _ _ => true
  end.

(** [String(v)], also the conversion a template literal applies. *)
Fixpoint to_String (v : JsValue) : string :=
  match v with
  | JUndefined => "undefined"
  | JNull => "null"
  | JBool true => "true"
  | JBool false => "false"
  | JNumber n => num_to_string n
  | JString s => s
  | JArray elements =>
      Strings.join ","
        (map (fun e => match e with
                       | JUndefined | JNull => ""
                       | _ => to_String e
                       end) elements)
  | JObject _ => "[object Object]"
  | JNative _ _ text => text
  end.

(** Own properties of an object, [obj[key]] and [obj[key] = v]. *)
Fixpoint obj_get {A} (props : list (string * A)) (key : string) : option A :=
  match props with
  | [] => None
  | (k, v) :: rest => if String.eqb k key then Some v else obj_get rest key
  end.

Fixpoint obj_set {A} (props : list (string * A)) (key : string) (v : A) : list (string * A) :=
  match props with
  | [] => [(key, v)]
  | (k, w) :: rest =>
      if String.eqb k key then (k, v) :: rest else (k, w) :: obj_set rest key v
  end.

Definition obj_keys {A} (props : list (string * A)) : list string := map fst props.

(** Array indices are the canonical decimal numerals: ["0"], ["1"], ...;
    ["01"] is not one. *)
Fixpoint parse_digits (acc : N) (s : string) : option N :=
  match s with
  | EmptyString => Some acc
  | String c rest =>
      let n := N_of_ascii c in
      if (48 <=? n)%N && (n <=? 57)%N then parse_digits (acc * 10 + (n - 48))%N rest
      else None
  end.

Definition array_index (key : string) : option nat :=
  match key with
  | EmptyString => None
  | _ => match parse_digits 0%N key with
         | Some n => if String.eqb (pretty n) key then Some (N.to_nat n) else None
         | None => None
         end
  end.

(** Own property lookup on data: [None] means that the value has no own
    property of that name. The members of a built-in object are all left
    to the runtime (see [inherited]). *)
Definition own_property (v : JsValue) (key : string) : option JsValue :=
  match v with
  | JObject props => obj_get props key
  | JArray elements =>
      if String.eqb key "length" then Some (JNumber (Num (Z.of_nat (length elements))))
      else match array_index key with
           | Some i => elements !! i
           | None => None
           end
  | JString s =>
      if String.eqb key "length" then Some (JNumber (Num (Z.of_nat (String.length s))))
      else match array_index key with
           | Some i => match String.get i s with
                       | Some c => Some (JString (String c EmptyString))
                       | None => None
                       end
           | None => None
           end
  | _ => None
  end.

(** The built-in objects that every runtime has under the same names: the
    function [Object], [Object.prototype] and its methods. The text that
    [String] gives for a built-in function is the one of V8. *)
Definition native_function (name short : string) : JsValue :=
  JNative function_kind name ("function " +:+ short +:+ "() { [native code] }").

Definition Object_function : JsValue := native_function "Object" "Object".

Definition Object_prototype : JsValue :=
  JNative object_kind "Object.prototype" "[object Object]".

Definition object_methods : list string :=
  ["__defineGetter__"; "__defineSetter__"; "hasOwnProperty"; "__lookupGetter__";
   "__lookupSetter__"; "isPrototypeOf"; "propertyIsEnumerable"; "toString"; "valueOf";
   "toLocaleString"].

(** The members of [Object.prototype], but for [__proto__]. *)
Definition of_Object_prototype (key : string) : option JsValue :=
  if String.eqb key "constructor" then Some Object_function
  else if bool_decide (key ∈ object_methods)
  then Some (native_function ("Object.prototype." +:+ key) key)
  else None.

(** The other built-in objects of the runtime.
    - [builtin_member v key] is the member [key] that the runtime provides
      for a value other than a plain object: for an array, a string, a
      number or a boolean, a member of its prototype ([Array.prototype],
      ...), which come before the members of [Object.prototype]; for a
      built-in object other than [Object.prototype], a member of its own
      or of its prototype chain.
    - [call name this args] is the call of the built-in function [name]
      on the receiver [this]. *)
Class Builtins : Type := {
  builtin_member : JsValue → string → option JsValue;
  call : string → JsValue → list JsValue → outcome JsValue
}.

Section WithBuiltins.
Context `{Builtins}.

(** The member [key] that a value finds on its prototype chain. The
    prototypes of arrays, strings, numbers and booleans have no member
    whose name is an array index. *)
Definition inherited (v : JsValue) (key : string) : option JsValue :=
  match v with
  | JUndefined | JNull => None
  | JObject _ =>
      if String.eqb key "__proto__" then Some Object_prototype else of_Object_prototype key
  | JNative object_kind "Object.prototype" _ =>
      if String.eqb key "__proto__" then Some JNull else of_Object_prototype key
  | JNative _ _ _ => builtin_member v key
  | _ =>
      match array_index key with
      | Some _ => None
      | None =>
          match builtin_member v key with
          | Some m => Some m
          | None => of_Object_prototype key
          end
      end
  end.

(** Property lookup, as [key in v] and [v[key]] do it: the own property
    first, then the prototype chain. *)
Definition member (v : JsValue) (key : string) : option JsValue :=
  match own_property v key with
  | Some x => Some x
  | None => inherited v key
  end.

(** [key in v]: a [TypeError] unless [v] is an object. *)
Definition js_in (key : string) (v : JsValue) : outcome bool :=
  match v with
  | JObject _ | JArray _ | JNative _ _ _ => Ok (bool_decide (is_Some (member v key)))
  | _ => Throw (TypeError ("Cannot use 'in' operator to search for '" +:+ key +:+ "' in "
                           +:+ to_String v))
  end.

(** [v[key]]: a [TypeError] on [null] and [undefined], [undefined] for an
    absent property. *)
Definition get (v : JsValue) (key : string) : outcome JsValue :=
  match v with
  | JUndefined | JNull =>
      Throw (TypeError ("Cannot read properties of " +:+ to_String v
                        +:+ " (reading '" +:+ key +:+ "')"))
  | _ => Ok (default JUndefined (member v key))
  end.

Definition is_native (v : JsValue) : bool :=
  match v with JNative _ _ _ => true | _ => false end.

(** [receiver.hasOwnProperty(key)], where [receiver] is the text of the
    expression that denotes [v]: the member [hasOwnProperty] of the value
    is looked up and called. Data that own no property of that name find
    the method of [Object.prototype], which tells whether [key] is an own
    property; a member that is no function cannot be called. *)
Definition hasOwnProperty (receiver : string) (v : JsValue) (key : string) : outcome bool :=
  match v with
  | JUndefined | JNull =>
      Throw (TypeError ("Cannot read properties of " +:+ to_String v
                        +:+ " (reading 'hasOwnProperty')"))
  | _ =>
      match member v "hasOwnProperty" with
      | Some (JNative function_kind name _) =>
          if String.eqb name "Object.prototype.hasOwnProperty" && negb (is_native v)
          then Ok (bool_decide (is_Some (own_property v key)))
          else result ← call name v [JString key]; Ok (truthy result)
      | _ => Throw (TypeError (receiver +:+ ".hasOwnProperty is not a function"))
      end
  end.

End WithBuiltins.

(** [Object.keys(v)] *)
Definition keys (v : JsValue) : outcome (list string) :=
  match v with
  | JUndefined | JNull => Throw (TypeError "Cannot convert undefined or null to object")
  | JObject props => Ok (obj_keys props)
  | JArray elements => Ok (map (fun i => pretty i) (seq 0 (length elements)))
  | JString s => Ok (map (fun i => pretty i) (seq 0 (String.length s)))
  | _ => Ok []
  end.

(** [a === b] on primitives and SameValueZero ([includes]): two distinct
    objects or arrays are never equal, a built-in object is equal to
    itself, [NaN] is found by [includes]. *)
Definition strict_equal (a b : JsValue) : bool :=
  match a, b with
  | JUndefined, JUndefined | JNull, JNull => true
  | JBool x, JBool y => bool_decide (x = y)
  | JNumber (Num x), JNumber (Num y) => bool_decide (x = y)
  | JNumber (Infinity x), JNumber (Infinity y) => bool_decide (x = y)
  | JString x, JString y => String.eqb x y
  | JNative _ x _, JNative _ y _ => String.eqb x y
  | _, _ => false
  end.

(** [v === Object]: the function [Object] is the built-in function of
    that name. *)
Definition is_Object (v : JsValue) : bool :=
  match v with
  | JNative function_kind name _ => String.eqb name "Object"
  | _ => false
  end.

Definition same_value_zero (a b : JsValue) : bool :=
  match a, b with
  | JNumber NaN, JNumber NaN => true
  | _, _ => strict_equal a b
  end.

Definition array_includes (l : list JsValue) (v : JsValue) : bool :=
  existsb (same_value_zero v) l.

End Js.

(** ** Data model ([models/]) *)

(** [models/ParameterType.ts] *)
Inductive ParameterType : Type :=
| string_t | number_t | boolean_t | object_t | array_t.

#[global] Instance ParameterType_eq_dec : EqDecision ParameterType.
Proof. solve_decision. Defined.

Definition ParameterType_name (t : ParameterType) : string :=
  match t with
  | string_t => "string"
  | number_t => "number"
  | boolean_t => "boolean"
  | object_t => "object"
  | array_t => "array"
  end.

(** The [validation] member of a [ParameterDefinition]. *)
Module Validation.
Record t : Type := mk {
  min : option Js.JsNumber;
  max : option Js.JsNumber;
  pattern : option string;
  enum : option (list Js.JsValue)
}.
End Validation.

(** [models/ParameterDefinition.ts]; an absent optional member is [None]. *)
Module ParameterDefinition.
Inductive t : Type := mk {
  name : string;
  type : ParameterType;
  required : bool;
  defaultValue : option Js.JsValue;
  items : option t;
  properties : option (list (string * t));
  validation : option Validation.t
}.
End ParameterDefinition.

(** [ValidationResult] of [models/SchemaProperty.ts] *)
Module ValidationResult.
Record t : Type := mk {
  isValid : bool;
  errors : list string;
  warnings : list string
}.
End ValidationResult.

(** The runtime's regular expressions: [new RegExp(pattern).test(s)]. The
    constructor throws a [SyntaxError] when [pattern] is ill-formed. *)
Class RegExpEngine : Type := regexp_test : string → string → outcome bool.

(** ** [utils/SchemaValidation.ts] *)
Module SchemaValidation.
Import Js.
Module PD := ParameterDefinition.
Module VR := ValidationResult.

Section WithRuntime.
Context `{RegExpEngine} `{Builtins}.

Definition isEmpty (value : JsValue) : bool :=
  match value with
  | JNull | JUndefined => true
  | JString s => String.eqb s ""
  | _ => false
  end.

Definition validateType (value : JsValue) (expectedType : ParameterType) : bool :=
  match expectedType with
  | string_t => String.eqb (typeof value) "string"
  | number_t =>
      match value with
      | JNumber n => negb (isNaN n) && isFinite n
      | _ => false
      end
  | boolean_t => String.eqb (typeof value) "boolean"
  | array_t => isArray value
  | object_t =>
      String.eqb (typeof value) "object"
      && negb (is_null value) && negb (isArray value)
  end.

(** [{...definition, name}] *)
Definition with_name (name : string) (d : PD.t) : PD.t :=
  PD.mk name (PD.type d) (PD.required d) (PD.defaultValue d) (PD.items d)
    (PD.properties d) (PD.validation d).

(** [enum.join(', ')] *)
Definition join_values (l : list JsValue) : string :=
  Strings.join ", "
    (map (fun e => match e with
                   | JUndefined | JNull => ""
                   | _ => to_String e
                   end) l).

(** The arrays [errors] and [warnings] that the helpers append to are
    threaded as a pair. *)
Definition validateConstraints (value : JsValue) (definition : PD.t)
    (acc : list string * list string) : outcome (list string * list string) :=
  let '(errors, warnings) := acc in
  match PD.validation definition with
  | None => Ok (errors, warnings)
  | Some validation =>
      (* Numeric constraints *)
      let errors :=
        match value with
        | JNumber n =>
            let errors :=
              match Validation.min validation with
              | Some m =>
                  if num_lt n m
                  then errors ++ ["Parameter '" +:+ PD.name definition +:+ "' value "
                                  +:+ to_String value +:+ " is below minimum "
                                  +:+ num_to_string m]
                  else errors
              | None => errors
              end in
            match Validation.max validation with
            | Some m =>
                if num_lt m n
                then errors ++ ["Parameter '" +:+ PD.name definition +:+ "' value "
                                +:+ to_String value +:+ " is above maximum "
                                +:+ num_to_string m]
                else errors
            | None => errors
            end
        | _ => errors
        end in
      (* String constraints *)
      errors ←
        match value, Validation.pattern validation with
        | JString s, Some pattern =>
            if String.eqb pattern "" then Ok errors
            else
              matched ← regexp_test pattern s;
              Ok (if matched : bool then errors
                  else errors ++ ["Parameter '" +:+ PD.name definition
                                  +:+ "' value does not match required pattern"])
        | _, _ => Ok errors
        end;
      (* Enum validation *)
      Ok (match Validation.enum validation with
          | Some allowed =>
              if array_includes allowed value then errors
              else errors ++ ["Parameter '" +:+ PD.name definition +:+ "' value '"
                              +:+ to_String value +:+ "' is not in allowed values: "
                              +:+ join_values allowed]
          | None => errors
          end, warnings)
  end.

(** [validateParameter(value, {...definition, name})], with
    [validateObject] and [validateArray] in place: they call back into
    [validateParameter] on the nested definitions. The array case calls
    it on [{...itemDefinition, name: `${itemDefinition.name}[${i}]`}],
    which is why the name is an argument of its own. *)
Fixpoint validateParameterNamed (name : string) (value : JsValue)
    (definition : PD.t) {struct definition} : outcome VR.t :=
  match definition with
  | PD.mk _ type required _ items properties _ =>
      (* Required validation *)
      if required && isEmpty value then
        Ok (VR.mk false
              ["Required parameter '" +:+ name +:+ "' is missing or empty"] [])
      (* Skip further validation if value is empty and not required *)
      else if isEmpty value && negb required then
        Ok (VR.mk true [] [])
      else
        (* Type validation *)
        let errors :=
          if validateType value type then []
          else ["Parameter '" +:+ name +:+ "' expected type '"
                +:+ ParameterType_name type +:+ "' but got '"
                +:+ typeof value +:+ "'"] in
        (* Additional validations *)
        acc ← validateConstraints value (with_name name definition) (errors, []);
        (* Nested validation for objects and arrays *)
        '(errors, warnings) ←
          match type, properties, items with
          | object_t, Some properties, _ =>
              (* validateObject *)
              if negb (String.eqb (typeof value) "object") || is_null value
              then Ok (acc.1 ++ ["Expected object type for nested validation"], acc.2)
              else
                for_each
                  (fun '(errors, warnings) '(propName, propDef) =>
                     v ← get value propName;
                     result ← validateParameterNamed (PD.name propDef) v propDef;
                     Ok (errors ++ VR.errors result, warnings ++ VR.warnings result))
                  properties acc
          | array_t, _, Some itemDefinition =>
              (* validateArray *)
              match value with
              | JArray elements =>
                  for_each
                    (fun '(errors, warnings) '(i, element) =>
                       result ← validateParameterNamed
                                  (PD.name itemDefinition +:+ "[" +:+ pretty (i : nat) +:+ "]")
                                  element itemDefinition;
                       Ok (errors ++ VR.errors result, warnings ++ VR.warnings result))
                    (imap pair elements) acc
              (* the prototype of the arrays is an array without elements *)
              | JNative array_kind _ _ => Ok acc
              | _ => Ok (acc.1 ++ ["Expected array type for array validation"], acc.2)
              end
          | _, _, _ => Ok acc
          end;
        Ok (VR.mk (bool_decide (length errors = 0)) errors warnings)
  end.

Definition validateParameter (value : JsValue) (definition : PD.t) : outcome VR.t :=
  validateParameterNamed (PD.name definition) value definition.

(** [!definitions[name]]: [definitions] is a plain object whose own
    properties are definitions, which are truthy; it inherits what the
    empty object inherits. *)
Definition undeclared (definitions : list (string * PD.t)) (name : string) : bool :=
  match obj_get definitions name with
  | Some _ => false
  | None => negb (truthy (default JUndefined (inherited (JObject []) name)))
  end.

Definition validateParameters (values : JsValue) (definitions : list (string * PD.t))
    : outcome VR.t :=
  (* Validate each defined parameter *)
  '(allErrors, allWarnings) ←
    for_each
      (fun '(allErrors, allWarnings) '(name, definition) =>
         v ← get values name;
         result ← validateParameter v definition;
         Ok (allErrors ++ VR.errors result, allWarnings ++ VR.warnings result))
      definitions ([], []);
  (* Check for unexpected parameters *)
  names ← keys values;
  let allWarnings :=
    foldl (fun allWarnings name =>
             if undeclared definitions name
             then allWarnings ++ ["Unexpected parameter '" +:+ name +:+ "' provided"]
             else allWarnings) allWarnings names in
  Ok (VR.mk (bool_decide (length allErrors = 0)) allErrors allWarnings).

End WithRuntime.
End SchemaValidation.

(** [models/HttpMethod.ts] *)
Inductive HttpMethod : Type := GET | POST | PUT | PATCH | DELETE | HEAD | OPTIONS.

#[global] Instance HttpMethod_eq_dec : EqDecision HttpMethod.
Proof. solve_decision. Defined.

Inductive TargetLocation : Type := query_loc | body_loc | header_loc | path_loc.

(** [models/EndpointConnection.ts]. The [validated] mark is written by the
    engine and read nowhere; [aiResolvedPath] and [createdAt] are unused:
    the three are left out. *)
Module EndpointConnection.
Record t : Type := mk {
  id : string;
  sourceNodeId : string;
  targetNodeId : string;
  sourceField : string;
  targetField : string;
  targetLocation : TargetLocation;
  naturalLanguageMapping : string;
  transform : option string;
  sourceType : option ParameterType;
  targetType : option ParameterType
}.
End EndpointConnection.

(** [models/BodySchema.ts] *)
Inductive BodyType : Type := json_body | form_body | text_body | binary_body.

Module BodySchema.
Record t : Type := mk {
  type : BodyType;
  schema : option (list (string * ParameterDefinition.t));
  content : option Js.JsValue
}.
End BodySchema.

(** [models/ResponseSchema.ts]: only the status code is read. *)
Module ResponseSchema.
Record t : Type := mk {
  statusCode : Z;
  body : option (list (string * ParameterDefinition.t))
}.
End ResponseSchema.

(** [models/NaturalLanguageMapping.ts] *)
Module NaturalLanguageMapping.
Record t : Type := mk {
  input : string;
  resolvedParams : option (list (string * Js.JsValue));
  resolvedBody : option Js.JsValue
}.
End NaturalLanguageMapping.

Inductive AuthType : Type := apiKey | bearerToken | basic | oauth2 | custom | none.

#[global] Instance AuthType_eq_dec : EqDecision AuthType.
Proof. solve_decision. Defined.

(** [models/RequestData.ts], [models/ResponseData.ts],
    [models/ExecutionResult.ts], [models/ExecutionContext.ts],
    [models/ExecutionOptions.ts]. [responseTime] and [timestamp], which are
    read off the clock, are left out. An absent [body] is [JUndefined]. *)
Module RequestData.
Record t : Type := mk {
  url : string;
  method : HttpMethod;
  headers : list (string * string);
  queryParams : list (string * Js.JsValue);
  body : Js.JsValue
}.
End RequestData.

Module ResponseData.
Record t : Type := mk {
  headers : list (string * string);
  body : Js.JsValue;
  size : nat
}.
End ResponseData.

Module ExecutionResult.
Record t : Type := mk {
  endpointId : string;
  success : bool;
  statusCode : Z;
  requestData : RequestData.t;
  responseData : ResponseData.t;
  error : option string
}.
End ExecutionResult.

Module ExecutionContext.
Record t : Type := mk {
  results : gmap string ExecutionResult.t;
  variables : gmap string Js.JsValue
}.
End ExecutionContext.

Module ExecutionOptions.
Record t : Type := mk {
  timeout : option Z;
  retries : option nat;
  validateResponse : option bool;
  continueOnError : option bool
}.
End ExecutionOptions.

(** What [fetch] hands back to [performHttpRequest]. *)
Module HttpResponse.
Record t : Type := mk {
  status : Z;
  headers : list (string * string);
  data : Js.JsValue
}.
End HttpResponse.

(** [models/AuthConfig.ts]: the type tag and the custom handler; the
    credentials are read by the handlers only. *)
Module AuthConfig.
Record t : Type := mk {
  type : AuthType;
  customHandler : option (ExecutionContext.t → outcome RequestData.t)
}.
End AuthConfig.

(** [models/ApiEndpoint.ts], the fields the engine reads. *)
Module ApiEndpoint.
Record t : Type := mk {
  id : string;
  name : string;
  method : HttpMethod;
  baseUrl : string;
  path : string;
  queryParams : list (string * ParameterDefinition.t);
  pathParams : list (string * ParameterDefinition.t);
  headers : list (string * string);
  body : option BodySchema.t;
  auth : option AuthConfig.t;
  expectedResponse : list ResponseSchema.t;
  naturalLanguageInput : option string;
  aiMapping : option NaturalLanguageMapping.t;
  connections : list EndpointConnection.t
}.
End ApiEndpoint.

(** ** The type check of [models/ConnectionBuilder.ts] *)
Module ConnectionBuilder.

Definition areTypesCompatible (sourceType targetType : ParameterType) : bool :=
  (* Exact match *)
  if bool_decide (sourceType = targetType) then true
  (* String can accept any type (will be converted) *)
  else if bool_decide (targetType = string_t) then true
  (* Number can accept string if it's convertible *)
  else if bool_decide (targetType = number_t) && bool_decide (sourceType = string_t) then true
  (* Boolean can accept string for 'true'/'false' values *)
  else if bool_decide (targetType = boolean_t) && bool_decide (sourceType = string_t) then true
  else false.

End ConnectionBuilder.

(** ** Collaborators *)

(** Built-ins of the JavaScript runtime that the engine calls. *)
Class Runtime : Type := {
  regexp_engine :: RegExpEngine;
  builtins :: Js.Builtins;
  JSON_parse : string → outcome Js.JsValue;
  JSON_stringify : Js.JsValue → option string;
  StringToNumber : string → Js.JsNumber;
  toUpperCase : string → string;
  toLowerCase : string → string;
  btoa : string → outcome string;
  encodeURIComponent : string → outcome string
}.

(** The collaborators of the engine: the templating engine with the prompt
    templates (it is given the endpoint and the results gathered so far),
    the completion client, the registry of authentication handlers and
    the transport ([attempt] counts the calls of [performHttpRequest]
    within one [executeHttpRequest]). *)
Class Collaborators : Type := {
  render_prompt : string → ApiEndpoint.t → gmap string ExecutionResult.t → outcome string;
  chat : string → string → outcome string;
  getHandler : AuthType →
    option (RequestData.t → AuthConfig.t → ExecutionContext.t → outcome RequestData.t);
  performHttpRequest : nat → RequestData.t → Z → outcome HttpResponse.t
}.

(** A computation that is run with a bound on its recursion depth. *)
Inductive fuelled (A : Type) : Type :=
| Finished (r : outcome A)
| OutOfFuel.
Arguments Finished {A} r.
Arguments OutOfFuel {A}.

#[global] Instance fuelled_ret : MRet fuelled := λ A a, Finished (Ok a).
#[global] Instance fuelled_bind : MBind fuelled := λ A B k m,
  match m with
  | Finished (Ok a) => k a
  | Finished (Throw e) => Finished (Throw e)
  | OutOfFuel => OutOfFuel
  end.

(** ** [execution/ApiExecutionEngine.ts]: type matrix and dependency order *)
Module Engine.
Import Js.
Module E := ApiEndpoint.
Module C := EndpointConnection.

Definition areTypesCompatibleEnhanced (sourceType targetType : ParameterType) : bool :=
  (* Exact match *)
  if bool_decide (sourceType = targetType) then true
  (* String can accept any type (will be converted) *)
  else if bool_decide (targetType = string_t) then true
  (* Number can accept string if it's convertible *)
  else if bool_decide (targetType = number_t) && bool_decide (sourceType = string_t) then true
  (* Boolean can accept string for 'true'/'false' values *)
  else if bool_decide (targetType = boolean_t) && bool_decide (sourceType = string_t) then true
  (* Object can accept any complex type *)
  else if bool_decide (targetType = object_t)
          && (bool_decide (sourceType = array_t) || bool_decide (sourceType = object_t))
  then true
  else false.

(** The table [validTransformations]: allowed source and target types. *)
Definition validTransformations : list (string * (list ParameterType * list ParameterType)) :=
  [ ("string", ([string_t; number_t; boolean_t; array_t; object_t], [string_t]));
    ("number", ([string_t; number_t], [number_t]));
    ("boolean", ([string_t; boolean_t], [boolean_t]));
    ("bearer-prefix", ([string_t], [string_t]));
    ("array-wrap", ([string_t; number_t; boolean_t; object_t], [array_t]));
    ("array-first", ([array_t], [string_t; number_t; boolean_t; object_t]));
    ("upper", ([string_t], [string_t]));
    ("lower", ([string_t], [string_t]));
    ("trim", ([string_t], [string_t])) ].

Definition isValidTransformation (transformName : string)
    (sourceType targetType : ParameterType) : bool :=
  match obj_get validTransformations transformName with
  | None => false
  | Some (from, to) =>
      bool_decide (sourceType ∈ from) && bool_decide (targetType ∈ to)
  end.

(** *** sortEndpointsByDependencies *)

Record SortState : Type := mkSortState {
  sorted : list E.t;
  visited : gset string;
  visiting : gset string
}.

Definition circular (id : string) : JsError :=
  Error ("Circular dependency detected involving endpoint: " +:+ id).

(** [endpoints.find(ep => ep.id === id)] *)
Definition find_endpoint (endpoints : list E.t) (id : string) : option E.t :=
  List.find (fun ep => String.eqb (E.id ep) id) endpoints.

Section Loop.
Context {S A : Type} (body : S → A → fuelled S).

Fixpoint for_each_fuelled (l : list A) (st : S) : fuelled S :=
  match l with
  | [] => mret st
  | x :: rest => st' ← body st x; for_each_fuelled rest st'
  end.
End Loop.

(** The closure [visit]; [fuel] bounds the depth of the recursion. *)
Fixpoint visit (fuel : nat) (endpoints : list E.t) (st : SortState) (endpoint : E.t)
    : fuelled SortState :=
  match fuel with
  | O => OutOfFuel
  | S fuel =>
      if bool_decide (E.id endpoint ∈ visiting st) then
        Finished (Throw (circular (E.id endpoint)))
      else if bool_decide (E.id endpoint ∈ visited st) then
        mret st
      else
        let st := mkSortState (sorted st) (visited st) ({[E.id endpoint]} ∪ visiting st) in
        (* Visit dependencies first *)
        st ← for_each_fuelled
               (fun st connection =>
                  match find_endpoint endpoints (C.sourceNodeId connection) with
                  | Some dependency => visit fuel endpoints st dependency
                  | None => mret st
                  end)
               (E.connections endpoint) st;
        mret (mkSortState (sorted st ++ [endpoint])
                          ({[E.id endpoint]} ∪ visited st)
                          (visiting st ∖ {[E.id endpoint]}))
  end.

(** No chain of nested visits is longer than the number of endpoints: each
    one holds an id of its own in [visiting]. *)
Definition sortEndpointsByDependencies (endpoints : list E.t) : fuelled (list E.t) :=
  st ← for_each_fuelled (visit (S (length endpoints)) endpoints) endpoints
         (mkSortState [] ∅ ∅);
  mret (sorted st).

(** *** Connection resolution *)

(** The object [resolvedData] that [resolveEndpointData] builds and the
    AI stage updates. *)
Record ResolvedData : Type := mkResolvedData {
  rd_queryParams : list (string * JsValue);
  rd_pathParams : list (string * JsValue);
  rd_body : JsValue;
  rd_headers : list (string * string)
}.

(** The loop of [extractValueFromResult] from a given position. *)
Fixpoint walk `{Builtins} (parts : list string) (current : JsValue) : outcome JsValue :=
  match parts with
  | [] => Ok current
  | part :: rest =>
      if String.eqb part "" then walk rest current (* Skip empty parts from leading dots *)
      else if truthy current && String.eqb (typeof current) "object" then
        present ← js_in part current;
        if present : bool then next ← get current part; walk rest next
        else Ok JUndefined
      else Ok JUndefined
  end.

Definition extractValueFromResult `{Builtins} (result : ExecutionResult.t) (path : string)
    : outcome JsValue :=
  let data := ResponseData.body (ExecutionResult.responseData result) in
  if String.eqb path "" || String.eqb path "." then Ok data
  else walk (Strings.split "." path) data.

(** [{...v}]: the own enumerable properties of a value. *)
Definition spread (v : JsValue) : list (string * JsValue) :=
  match v with
  | JObject props => props
  | JArray elements => imap (fun i e => (pretty i, e)) elements
  | JString s =>
      imap (fun i c => (pretty i, JString (String c EmptyString))) (String.list_ascii_of_string s)
  | _ => []
  end.

(** [{...a, ...b}] *)
Definition assign {A} (a b : list (string * A)) : list (string * A) :=
  foldl (fun acc kv => obj_set acc kv.1 kv.2) a b.

(** [body[key] = v] on the body that [getResolvedBody] returns: an object. *)
Definition set_property (target : JsValue) (key : string) (v : JsValue) : JsValue :=
  match target with
  | JObject props => JObject (obj_set props key v)
  | _ => target
  end.

(** The static default values of a parameter map. *)
Definition defaults (params : list (string * ParameterDefinition.t))
    : list (string * JsValue) :=
  foldl (fun acc kv =>
           match ParameterDefinition.defaultValue kv.2 with
           | Some v => if is_undefined v then acc else obj_set acc kv.1 v
           | None => acc
           end) [] params.

(** [ApiEndpoint.getResolvedParams] *)
Definition getResolvedParams (endpoint : E.t) : list (string * JsValue) :=
  assign (defaults (E.queryParams endpoint))
    (default [] (E.aiMapping endpoint ≫= NaturalLanguageMapping.resolvedParams)).

(** [ApiEndpoint.getResolvedBody] *)
Definition getResolvedBody (endpoint : E.t) : JsValue :=
  match E.body endpoint with
  | None => JNull
  | Some body =>
      let content := match BodySchema.content body with
                     | Some c => if truthy c then spread c else []
                     | None => []
                     end in
      let resolved := match E.aiMapping endpoint ≫= NaturalLanguageMapping.resolvedBody with
                      | Some b => if truthy b then spread b else []
                      | None => []
                      end in
      JObject (assign content resolved)
  end.

(** [ApiEndpoint.getFullUrl()] without path values. *)
Definition getFullUrl0 (endpoint : E.t) : string :=
  E.baseUrl endpoint +:+ E.path endpoint.

(** [ApiEndpoint.validate]; [resolvedParams?.[key]] finds the inherited
    members of the object too. *)
Definition validate `{Builtins} (endpoint : E.t) : list string :=
  let errors := if String.eqb (E.baseUrl endpoint) "" then ["Base URL is required"] else [] in
  let errors := if String.eqb (E.path endpoint) "" then errors ++ ["Path is required"]
                else errors in
  foldl (fun errors kv =>
           let '(key, param) := kv in
           let has_default := match ParameterDefinition.defaultValue param with
                              | Some v => truthy v
                              | None => false
                              end in
           let has_mapping :=
             match E.aiMapping endpoint ≫= NaturalLanguageMapping.resolvedParams with
             | Some resolved => match member (JObject resolved) key with
                                | Some v => truthy v
                                | None => false
                                end
             | None => false
             end in
           if ParameterDefinition.required param && negb has_default && negb has_mapping
           then errors ++ ["Required query parameter '" +:+ key
                           +:+ "' has no default value or AI mapping"]
           else errors)
    errors (E.queryParams endpoint).

Definition validateTypedConnections (endpoint : E.t) : outcome unit :=
  for_each
    (fun _ connection =>
       match C.sourceType connection, C.targetType connection with
       | Some sourceType, Some targetType =>
           if negb (areTypesCompatibleEnhanced sourceType targetType) then
             Throw (Error ("Type incompatible connection in " +:+ E.id endpoint +:+ ": "
                           +:+ ParameterType_name sourceType +:+ " -> "
                           +:+ ParameterType_name targetType +:+ " ("
                           +:+ C.sourceField connection +:+ " -> "
                           +:+ C.targetField connection +:+ ")"))
           else
             match C.transform connection with
             | Some transform =>
                 if negb (String.eqb transform "")
                    && negb (isValidTransformation transform sourceType targetType)
                 then Throw (Error ("Invalid transformation '" +:+ transform
                                    +:+ "' for types " +:+ ParameterType_name sourceType
                                    +:+ " -> " +:+ ParameterType_name targetType
                                    +:+ " in " +:+ E.id endpoint))
                 else Ok ()
             | None => Ok ()
             end
       | _, _ => Ok ()
       end)
    (E.connections endpoint) ().

(** [validateResponse] *)
Definition validateResponse (endpoint : E.t) (result : ExecutionResult.t) : outcome unit :=
  match List.find (fun resp => bool_decide (ResponseSchema.statusCode resp
                                            = ExecutionResult.statusCode result))
          (E.expectedResponse endpoint) with
  | Some _ => Ok ()
  | None => Throw (Error ("Unexpected status code: "
                          +:+ pretty (ExecutionResult.statusCode result)))
  end.

(** [cleanAiJsonResponse] *)
Definition cleanAiJsonResponse (response : string) : outcome string :=
  let cleaned :=
    Strings.trim
      (Strings.remove_all "```" (Strings.remove_all "```json" (Strings.trim response))) in
  (* Try to extract JSON object first (most common case) *)
  match Pattern.exec Pattern.object_pattern cleaned with
  | Some objectMatch =>
      if String.eqb (Pattern.group1 objectMatch) "" then
        Throw (Error ("AI body response is not valid JSON: " +:+ response))
      else Ok (Pattern.group1 objectMatch)
  | None =>
      (* If no object found, try to extract JSON array *)
      match Pattern.exec Pattern.array_pattern cleaned with
      | Some arrayMatch =>
          if String.eqb (Pattern.group1 arrayMatch) "" then
            Throw (Error ("AI body response is not valid JSON: " +:+ response))
          else Ok (Pattern.group1 arrayMatch)
      | None =>
          (* Return as-is if no JSON structure found *)
          Ok cleaned
      end
  end.

Section WithCollaborators.
Context `{Runtime} `{Collaborators} (globalAuth : option AuthConfig.t).

(** [Number(v)]; on a built-in object it is left to the runtime. *)
Definition to_Number (v : JsValue) : JsNumber :=
  match v with
  | JUndefined => NaN
  | JNull => Num 0
  | JBool b => Num (if b then 1 else 0)
  | JNumber n => n
  | JString s => StringToNumber s
  | JArray _ => StringToNumber (to_String v)
  | JObject _ => NaN
  | JNative _ _ _ =>
      match call "Number" JUndefined [v] with
      | Ok (JNumber n) => n
      | _ => NaN
      end
  end.

Definition applyTransformation (value : JsValue) (transform : string) : outcome JsValue :=
  if String.eqb transform "string" then Ok (JString (to_String value))
  else if String.eqb transform "number" then Ok (JNumber (to_Number value))
  else if String.eqb transform "boolean" then Ok (JBool (truthy value))
  else if String.eqb transform "upper" then Ok (JString (toUpperCase (to_String value)))
  else if String.eqb transform "lower" then Ok (JString (toLowerCase (to_String value)))
  else if String.eqb transform "trim" then Ok (JString (Strings.trim (to_String value)))
  else if String.eqb transform "bearer-prefix" then
    Ok (JString ("Bearer " +:+ to_String value))
  else if String.eqb transform "basic-auth" then
    encoded ← btoa (to_String value); Ok (JString ("Basic " +:+ encoded))
  else if String.eqb transform "json-stringify" then
    Ok (match JSON_stringify value with Some s => JString s | None => JUndefined end)
  else if String.eqb transform "url-encode" then
    encoded ← encodeURIComponent (to_String value); Ok (JString encoded)
  else if String.eqb transform "array-wrap" then
    Ok (if isArray value then value else JArray [value])
  else if String.eqb transform "array-first" then
    match value with
    | JArray elements => Ok (default JUndefined (elements !! 0%nat))
    | JNative array_kind _ _ => get value "0"
    | _ => Ok value
    end
  else Ok value.

(** One turn of the loop over [endpoint.connections] in
    [resolveEndpointData]. *)
Definition resolveConnection (results : gmap string ExecutionResult.t)
    (data : ResolvedData) (connection : C.t) : outcome ResolvedData :=
  match results !! C.sourceNodeId connection with
  | Some sourceResult =>
      if ExecutionResult.success sourceResult then
        value ← extractValueFromResult sourceResult (C.sourceField connection);
        if negb (is_undefined value) then
          (* Apply transformation if specified *)
          finalValue ←
            match C.transform connection with
            | Some transform =>
                if String.eqb transform "" then Ok value
                else applyTransformation value transform
            | None => Ok value
            end;
          (* Set value in appropriate location *)
          Ok match C.targetLocation connection with
             | query_loc =>
                 mkResolvedData
                   (obj_set (rd_queryParams data) (C.targetField connection) finalValue)
                   (rd_pathParams data) (rd_body data) (rd_headers data)
             | body_loc =>
                 let body := if truthy (rd_body data) then rd_body data else JObject [] in
                 mkResolvedData (rd_queryParams data) (rd_pathParams data)
                   (set_property body (C.targetField connection) finalValue)
                   (rd_headers data)
             | header_loc =>
                 mkResolvedData (rd_queryParams data) (rd_pathParams data) (rd_body data)
                   (obj_set (rd_headers data) (C.targetField connection)
                      (to_String finalValue))
             | path_loc =>
                 mkResolvedData (rd_queryParams data)
                   (obj_set (rd_pathParams data) (C.targetField connection) finalValue)
                   (rd_body data) (rd_headers data)
             end
        else Ok data
      else Ok data
  | None => Ok data
  end.

Definition resolveEndpointData (results : gmap string ExecutionResult.t)
    (endpoint : E.t) : outcome ResolvedData :=
  (* Start with resolved parameters from endpoint *)
  let data :=
    mkResolvedData (getResolvedParams endpoint)
      (defaults (E.pathParams endpoint)) (* Extract path parameter values *)
      (getResolvedBody endpoint)
      (E.headers endpoint) in
  (* Resolve data from connections *)
  for_each (resolveConnection results) (E.connections endpoint) data.

(** *** AI parameter resolution *)

(** [try { body } catch (error) { throw handler(error) }] *)
Definition try_rethrow {A} (body : outcome A) (handler : JsError → JsError) : outcome A :=
  match body with
  | Ok a => Ok a
  | Throw e => Throw (handler e)
  end.

Definition validateParameterSchema (aiResponse : JsValue)
    (schema : list (string * ParameterDefinition.t)) (contextType : string)
    : outcome unit :=
  result ← SchemaValidation.validateParameters aiResponse schema;
  if negb (ValidationResult.isValid result) then
    Throw (Error
      ("AI " +:+ contextType +:+ " response validation failed:" +:+ Strings.LF
       +:+ Strings.join Strings.LF
             (map (fun e => "  - " +:+ e) (ValidationResult.errors result))
       +:+ (if bool_decide (0 < length (ValidationResult.warnings result))
            then Strings.LF +:+ "Warnings:" +:+ Strings.LF
                 +:+ Strings.join Strings.LF
                       (map (fun w => "  - " +:+ w) (ValidationResult.warnings result))
            else "")))
  else Ok ().

Definition validateBodySchema (aiResponse : JsValue) (bodySchema : BodySchema.t)
    : outcome unit :=
  match BodySchema.schema bodySchema with
  | None =>
      (* If no schema defined, allow any valid JSON *)
      if negb (String.eqb (typeof aiResponse) "object") || is_null aiResponse
      then Throw (Error "AI body response must be a valid JSON object")
      else Ok ()
  | Some schema =>
      _ ← validateParameterSchema aiResponse schema "body";
      match JSON_stringify aiResponse with
      | Some text =>
          if bool_decide (10000 < Z.of_nat (String.length text))%Z then
            Throw (Error ("AI body response too large ("
                          +:+ pretty (String.length text) +:+ " bytes, max 10KB)"))
          else Ok ()
      | None => Throw (TypeError "Cannot read properties of undefined (reading 'length')")
      end
  end.

(** The [catch] clause shared by the three slot resolvers. *)
Definition aiFailure (slot what : string) (error : JsError) : JsError :=
  match error with
  | SyntaxError message => Error ("AI " +:+ what +:+ " is not valid JSON: " +:+ message)
  | _ =>
      if Strings.includes ("AI " +:+ slot +:+ " response") (error_message error)
      then error (* Re-throw validation errors *)
      else Error ("AI " +:+ slot +:+ " parameter resolution failed: "
                  +:+ error_message error)
  end.

(** The first three statements of the [try] blocks: the completion call,
    [cleanAiJsonResponse] and [JSON.parse]. *)
Definition askModel (prompt : string) : outcome JsValue :=
  response ← chat prompt "gpt-4.1";
  cleanResponse ← cleanAiJsonResponse response;
  JSON_parse cleanResponse.

(** [keys.forEach(key => { if (aiResolvedParams.hasOwnProperty(key))
    target[key] = aiResolvedParams[key]; })] *)
Definition overwrite (keys : list string) (ai : JsValue)
    (target : list (string * JsValue)) : outcome (list (string * JsValue)) :=
  for_each
    (fun target key =>
       owned ← hasOwnProperty "aiResolvedParams" ai key;
       if owned : bool then v ← get ai key; Ok (obj_set target key v) else Ok target)
    keys target.

Definition resolvePathParameters (results : gmap string ExecutionResult.t)
    (endpoint : E.t) (resolvedData : ResolvedData) : outcome ResolvedData :=
  prompt ← render_prompt "path-parameters-prompt.hbs" endpoint results;
  try_rethrow
    (aiResolvedParams ← askModel prompt;
     (* Validate against schema before using *)
     _ ← validateParameterSchema aiResolvedParams (E.pathParams endpoint) "path";
     (* Only update existing path parameters that passed validation *)
     pathParams ← overwrite (obj_keys (rd_pathParams resolvedData)) aiResolvedParams
                    (rd_pathParams resolvedData);
     Ok (mkResolvedData (rd_queryParams resolvedData) pathParams
           (rd_body resolvedData) (rd_headers resolvedData)))
    (aiFailure "path" "path parameter response").

Definition resolveQueryParameters (results : gmap string ExecutionResult.t)
    (endpoint : E.t) (resolvedData : ResolvedData) : outcome ResolvedData :=
  prompt ← render_prompt "query-parameters-prompt.hbs" endpoint results;
  try_rethrow
    (aiResolvedParams ← askModel prompt;
     (* Validate against schema before using *)
     _ ← validateParameterSchema aiResolvedParams (E.queryParams endpoint) "query";
     (* Merge validated AI-resolved params with existing query params *)
     queryParams ← overwrite (obj_keys (E.queryParams endpoint)) aiResolvedParams
                     (rd_queryParams resolvedData);
     Ok (mkResolvedData queryParams (rd_pathParams resolvedData)
           (rd_body resolvedData) (rd_headers resolvedData)))
    (aiFailure "query" "query parameter response").

Definition resolveBodyParameters (results : gmap string ExecutionResult.t)
    (endpoint : E.t) (resolvedData : ResolvedData) : outcome ResolvedData :=
  match E.body endpoint with
  | None => Ok resolvedData
  | Some bodySchema =>
      if bool_decide (E.method endpoint = GET) then Ok resolvedData
      else
        prompt ← render_prompt "body-parameters-prompt.hbs" endpoint results;
        try_rethrow
          (aiResolvedBody ← askModel prompt;
           (* Validate against body schema before using *)
           _ ← validateBodySchema aiResolvedBody bodySchema;
           (* Merge validated AI-resolved body with existing body data *)
           Ok (mkResolvedData (rd_queryParams resolvedData) (rd_pathParams resolvedData)
                 (if truthy (rd_body resolvedData)
                  then JObject (assign (spread (rd_body resolvedData))
                                  (spread aiResolvedBody))
                  else aiResolvedBody)
                 (rd_headers resolvedData)))
          (aiFailure "body" "body response")
  end.

(** [processAiResolution]; the connection status it prints is left out. *)
Definition processAiResolution (results : gmap string ExecutionResult.t)
    (endpoint : E.t) (resolvedData : ResolvedData) : outcome ResolvedData :=
  let hasPathParams := bool_decide (0 < length (E.pathParams endpoint)) in
  let hasQueryParams := bool_decide (0 < length (E.queryParams endpoint)) in
  let hasBody := bool_decide (is_Some (E.body endpoint))
                 && negb (bool_decide (E.method endpoint = GET)) in
  resolvedData ← (if hasPathParams then resolvePathParameters results endpoint resolvedData
                  else Ok resolvedData);
  resolvedData ← (if hasQueryParams then resolveQueryParameters results endpoint resolvedData
                  else Ok resolvedData);
  if hasBody then resolveBodyParameters results endpoint resolvedData
  else Ok resolvedData.

(** *** Building and sending the request *)

(** [ApiEndpoint.getFullUrl(pathValues)] *)
Definition getFullUrl (endpoint : E.t) (pathValues : list (string * JsValue))
    : outcome string :=
  resolvedPath ←
    for_each
      (fun resolvedPath kv =>
         encoded ← encodeURIComponent (to_String kv.2);
         Ok (Strings.replace_first ("{" +:+ kv.1 +:+ "}") encoded resolvedPath))
      pathValues (E.path endpoint);
  Ok (E.baseUrl endpoint +:+ resolvedPath).

(** [buildRequestConfig]; it returns the request together with the
    [resolvedData] object that the AI stage updated in place. *)
Definition buildRequestConfig (results : gmap string ExecutionResult.t)
    (endpoint : E.t) (resolvedData : ResolvedData)
    : outcome (RequestData.t * ResolvedData) :=
  (* Only process AI resolution if natural language input exists *)
  resolvedData ←
    match E.naturalLanguageInput endpoint with
    | Some input =>
        if String.eqb input "" then Ok resolvedData
        else processAiResolution results endpoint resolvedData
    | None => Ok resolvedData
    end;
  (* Build full URL with path parameters *)
  url ← getFullUrl endpoint (rd_pathParams resolvedData);
  (* Add content type for body requests (skip for GET) *)
  let headers :=
    if truthy (rd_body resolvedData)
       && negb (bool_decide (0 < String.length
                                   (default "" (obj_get (rd_headers resolvedData)
                                                  "Content-Type"))))
       && negb (bool_decide (E.method endpoint = GET))
    then obj_set (rd_headers resolvedData) "Content-Type"
           (match BodySchema.type <$> E.body endpoint with
            | Some form_body => "application/x-www-form-urlencoded"
            | _ => "application/json"
            end)
    else rd_headers resolvedData in
  Ok (RequestData.mk url (E.method endpoint) headers (rd_queryParams resolvedData)
        (if bool_decide (E.method endpoint = GET) then JUndefined
         else rd_body resolvedData),
      resolvedData).

(** The retry loop of [executeHttpRequest]; the waits between the
    attempts are left out. *)
Fixpoint attempts (remaining attempt : nat) (config : RequestData.t) (timeout : Z)
    : outcome HttpResponse.t :=
  match performHttpRequest attempt config timeout with
  | Ok response => Ok response
  | Throw error =>
      match remaining with
      | O => Throw error
      | S remaining => attempts remaining (S attempt) config timeout
      end
  end.

Definition executeHttpRequest (config : RequestData.t) (options : ExecutionOptions.t)
    : outcome HttpResponse.t :=
  let maxRetries := default 0%nat (ExecutionOptions.retries options) in
  let timeout := default 30000%Z (ExecutionOptions.timeout options) in
  attempts maxRetries 0 config timeout.

(** Authentication, as [executeEndpoint] dispatches it. *)
Definition authenticate (endpoint : E.t) (ctx : ExecutionContext.t)
    (requestConfig : RequestData.t) : outcome RequestData.t :=
  (* Determine auth config (endpoint or global) *)
  match (match E.auth endpoint with Some a => Some a | None => globalAuth end) with
  | Some authConfig =>
      if bool_decide (AuthConfig.type authConfig = none) then Ok requestConfig
      else
        match getHandler (AuthConfig.type authConfig) with
        | Some applyAuth => applyAuth requestConfig authConfig ctx
        | None =>
            match AuthConfig.customHandler authConfig with
            | Some customHandler =>
                if bool_decide (AuthConfig.type authConfig = custom)
                then customHandler ctx
                else Ok requestConfig
            | None => Ok requestConfig
            end
        end
  | None => Ok requestConfig
  end.

(** [this.context.results.set(id, result)] *)
Definition record (ctx : ExecutionContext.t) (result : ExecutionResult.t)
    : ExecutionContext.t :=
  ExecutionContext.mk
    (<[ExecutionResult.endpointId result := result]> (ExecutionContext.results ctx))
    (ExecutionContext.variables ctx).

(** The statements of the [try] block of [executeEndpoint] up to the
    creation of the result: they read the context and write nothing. The
    lines written to the console are left out, here and elsewhere. *)
Definition perform (ctx : ExecutionContext.t) (endpoint : E.t)
    (options : ExecutionOptions.t) : outcome ExecutionResult.t :=
  (* Validate endpoint configuration *)
  let validationErrors := validate endpoint in
  _ ← (if bool_decide (0 < length validationErrors)
       then Throw (Error ("Endpoint validation failed: "
                          +:+ Strings.join ", " validationErrors))
       else Ok ());
  _ ← validateTypedConnections endpoint;
  (* Resolve all parameters and data dependencies *)
  resolvedData ← resolveEndpointData (ExecutionContext.results ctx) endpoint;
  (* Build request configuration *)
  '(requestConfig, resolvedData) ←
    buildRequestConfig (ExecutionContext.results ctx) endpoint resolvedData;
  requestConfig ← authenticate endpoint ctx requestConfig;
  (* Execute HTTP request with retries *)
  response ← executeHttpRequest requestConfig options;
  size ← match JSON_stringify (HttpResponse.data response) with
          | Some text => Ok (String.length text)
          | None => Throw (TypeError "Cannot read properties of undefined (reading 'length')")
          end;
  (* Create execution result *)
  Ok (ExecutionResult.mk (E.id endpoint) true (HttpResponse.status response)
        (RequestData.mk (RequestData.url requestConfig) (RequestData.method requestConfig)
           (RequestData.headers requestConfig) (rd_queryParams resolvedData)
           (rd_body resolvedData))
        (ResponseData.mk (HttpResponse.headers response) (HttpResponse.data response) size)
        None).

(** The whole [try] block: the context as it leaves it, and how it ends. *)
Definition attempt (ctx : ExecutionContext.t) (endpoint : E.t)
    (options : ExecutionOptions.t) : ExecutionContext.t * outcome ExecutionResult.t :=
  match perform ctx endpoint options with
  | Throw error => (ctx, Throw error)
  | Ok result =>
      (* Store result in context for downstream endpoints *)
      let ctx := record ctx result in
      (* Validate response if requested *)
      if default false (ExecutionOptions.validateResponse options) then
        match validateResponse endpoint result with
        | Ok _ => (ctx, Ok result)
        | Throw error => (ctx, Throw error)
        end
      else (ctx, Ok result)
  end.

(** The result that the [catch] clause of [executeEndpoint] builds. *)
Definition failure (endpoint : E.t) (error : JsError) : ExecutionResult.t :=
  ExecutionResult.mk (E.id endpoint) false 0
    (RequestData.mk (getFullUrl0 endpoint) (E.method endpoint) [] [] JUndefined)
    (ResponseData.mk [] JNull 0)
    (Some (error_message error)).

Definition executeEndpoint (ctx : ExecutionContext.t) (endpoint : E.t)
    (options : ExecutionOptions.t) : ExecutionContext.t * ExecutionResult.t :=
  match attempt ctx endpoint options with
  | (ctx, Ok result) => (ctx, result)
  | (ctx, Throw error) =>
      let result := failure endpoint error in
      (record ctx result, result)
  end.

(** The loop of [executeFlow] over the sorted endpoints. *)
Fixpoint runFlow (ctx : ExecutionContext.t) (sortedEndpoints : list E.t)
    (options : ExecutionOptions.t) (results : list ExecutionResult.t)
    : ExecutionContext.t * list ExecutionResult.t :=
  match sortedEndpoints with
  | [] => (ctx, results)
  | endpoint :: rest =>
      let '(ctx, result) := executeEndpoint ctx endpoint options in
      let results := results ++ [result] in
      (* Stop execution on error if continueOnError is false *)
      if negb (ExecutionResult.success result)
         && negb (default false (ExecutionOptions.continueOnError options))
      then (ctx, results)
      else runFlow ctx rest options results
  end.

Definition executeFlow (ctx : ExecutionContext.t) (endpoints : list E.t)
    (options : ExecutionOptions.t)
    : fuelled (ExecutionContext.t * list ExecutionResult.t) :=
  (* Sort endpoints by dependencies *)
  sortedEndpoints ← sortEndpointsByDependencies endpoints;
  mret (runFlow ctx sortedEndpoints options []).

End WithCollaborators.

(** Test data: an endpoint with the given id whose connections name the
    given source endpoints. *)
Definition connection_from (source target : string) : C.t :=
  C.mk (source +:+ "_" +:+ target) source target "id" "id" query_loc "" None None None.

Definition endpoint_on (id : string) (sources : list string) : E.t :=
  E.mk id id GET "https://api.example.com" "/" [] [] [] None None [] None None
    (map (fun s => connection_from s id) sources).

End Engine.


(** * Notions used in the statements *)

(** The compatibility rule in the specification's words: identical types;
    any type to string; string to number; string to boolean; array or
    object to object. *)
Inductive compatible : ParameterType → ParameterType → Prop :=
| compatible_identical t : compatible t t
| compatible_to_string s : compatible s string_t
| compatible_string_number : compatible string_t number_t
| compatible_string_boolean : compatible string_t boolean_t
| compatible_array_object : compatible array_t object_t
| compatible_object_object : compatible object_t object_t.

(** The field [part] of a JSON container: an own property of an object, an
    element or the length of an array; [None] when there is none. *)
Definition field (current : Js.JsValue) (part : string) : option Js.JsValue :=
  match current with
  | Js.JObject _ | Js.JArray _ => Js.own_property current part
  | _ => None
  end.

(** Following a list of field names from a value; [None] as soon as a
    field is missing. *)
Fixpoint lookup_path (parts : list string) (current : Js.JsValue) : option Js.JsValue :=
  match parts with
  | [] => Some current
  | part :: rest => field current part ≫= lookup_path rest
  end.

(** The member [part] of a value that has members: an own property, or
    else a member that the value inherits. *)
Definition member_field `{Js.Builtins} (current : Js.JsValue) (part : string)
    : option Js.JsValue :=
  match current with
  | Js.JObject _ | Js.JArray _ | Js.JNative Js.array_kind _ _
  | Js.JNative Js.object_kind _ _ => Js.member current part
  | _ => None
  end.

(** Following a list of member names from a value; [None] as soon as a
    member is missing. *)
Fixpoint follow `{Js.Builtins} (parts : list string) (current : Js.JsValue)
    : option Js.JsValue :=
  match parts with
  | [] => Some current
  | part :: rest => member_field current part ≫= follow rest
  end.


(** The field names of a dot-separated path. *)
Definition path_fields (path : string) : list string :=
  filter (fun part => part ≠ "") (Strings.split "." path).

(** [e] depends on [d]: a connection of [e] names the id that [d] stands
    for in the input; a source id that stands for no endpoint of the input
    gives no dependency. *)
Definition depends_on (endpoints : list ApiEndpoint.t) (e d : ApiEndpoint.t) : Prop :=
  ∃ c, c ∈ ApiEndpoint.connections e
       ∧ Engine.find_endpoint endpoints (EndpointConnection.sourceNodeId c) = Some d.

(** [e] lies on a dependency cycle. *)
Definition on_cycle (endpoints : list ApiEndpoint.t) (e : ApiEndpoint.t) : Prop :=
  tc (depends_on endpoints) e e.

(** [x] occurs in [l] before an occurrence of [y]. *)
Definition before {A} (l : list A) (x y : A) : Prop :=
  ∃ l1 l2, l = l1 ++ y :: l2 ∧ x ∈ l1.

(** ** The traversal of the dependency resolver: its invariant *)

(** [e] is the endpoint that its own id stands for: the first endpoint of
    the input with that id. *)
Definition is_first (endpoints : list ApiEndpoint.t) (e : ApiEndpoint.t) : Prop :=
  Engine.find_endpoint endpoints (ApiEndpoint.id e) = Some e.

Definition id_set (endpoints : list ApiEndpoint.t) : gset string :=
  list_to_set (ApiEndpoint.id <$> endpoints).

(** The invariant of the traversal: the visited ids are the ids of the
    sorted endpoints, each of which stands for its id, occurs once and
    comes after its dependencies; no visited id is being visited. *)
Record traversal_inv (endpoints : list ApiEndpoint.t) (st : Engine.SortState) : Prop := {
  inv_visited : ∀ x, x ∈ Engine.visited st
                     ↔ ∃ e, e ∈ Engine.sorted st ∧ ApiEndpoint.id e = x;
  inv_first : ∀ e, e ∈ Engine.sorted st → is_first endpoints e;
  inv_nodup : NoDup (ApiEndpoint.id <$> Engine.sorted st);
  inv_order : ∀ l1 e l2, Engine.sorted st = l1 ++ e :: l2 →
                         ∀ d, depends_on endpoints e d → d ∈ l1;
  inv_disjoint : ∀ x, x ∈ Engine.visited st → x ∉ Engine.visiting st;
  inv_visiting : Engine.visiting st ⊆ id_set endpoints
}.
Arguments inv_visited {endpoints} st _.
Arguments inv_first {endpoints} st _.
Arguments inv_nodup {endpoints} st _.
Arguments inv_order {endpoints} st _.
Arguments inv_disjoint {endpoints} st _.
Arguments inv_visiting {endpoints} st _.

(** What a part of the traversal that starts in [st] may end with: a cycle
    error, or a state that extends [sorted st] by endpoints that satisfy
    [reached] and that satisfies [post]. *)
Definition traversal_ends_well (endpoints : list ApiEndpoint.t)
    (reached : ApiEndpoint.t → Prop) (post : Engine.SortState → Prop)
    (st : Engine.SortState) (r : fuelled Engine.SortState) : Prop :=
  match r with
  | OutOfFuel => False
  | Finished (Throw error) =>
      ∃ a, a ∈ endpoints ∧ on_cycle endpoints a
           ∧ error = Engine.circular (ApiEndpoint.id a)
  | Finished (Ok st') =>
      traversal_inv endpoints st'
      ∧ Engine.visiting st' = Engine.visiting st
      ∧ post st'
      ∧ ∃ more, Engine.sorted st' = Engine.sorted st ++ more ∧ ∀ a, a ∈ more → reached a
  end.

(** The visiting ids: each belongs to an endpoint from which the endpoint
    under visit is reached. *)
Definition visiting_on_stack (endpoints : list ApiEndpoint.t)
    (reaches : ApiEndpoint.t → Prop) (st : Engine.SortState) : Prop :=
  ∀ x, x ∈ Engine.visiting st →
       ∃ a, is_first endpoints a ∧ ApiEndpoint.id a = x ∧ reaches a.

(** The specification of [visit] run with [fuel]. *)
Definition visit_specification (endpoints : list ApiEndpoint.t) (fuel : nat) : Prop :=
  ∀ st e,
    traversal_inv endpoints st → e ∈ endpoints →
    is_first endpoints e ∨ ApiEndpoint.id e ∈ Engine.visited st →
    size (id_set endpoints) < fuel + size (Engine.visiting st) →
    visiting_on_stack endpoints (fun a => tc (depends_on endpoints) a e) st →
    traversal_ends_well endpoints (rtc (depends_on endpoints) e)
      (fun st' => ApiEndpoint.id e ∈ Engine.visited st') st
      (Engine.visit fuel endpoints st e).


(** * Test data *)



(** Test doubles: a runtime whose regular expressions are literal
    substrings (["("] is ill-formed), whose [JSON.parse] knows the
    documents of the examples and whose [JSON.stringify] is [stringify];
    and collaborators where the model answers [answer] and the transport
    answers status [status] with body [data]. *)
Fixpoint stringify (v : Js.JsValue) : option string :=
  match v with
  | Js.JUndefined => None
  | Js.JNull => Some "null"
  | Js.JBool b => Some (if b then "true" else "false")
  | Js.JNumber (Js.Num z) => Some (pretty z)
  | Js.JNumber _ => Some "null"
  | Js.JString s => Some (Strings.quote +:+ s +:+ Strings.quote)
  | Js.JArray elements =>
      Some ("[" +:+ Strings.join "," (map (fun e => default "null" (stringify e)) elements)
            +:+ "]")
  | Js.JObject props =>
      Some ("{" +:+ Strings.join ","
                      (omap (fun '(key, x) =>
                               (fun text => Strings.quote +:+ key +:+ Strings.quote
                                            +:+ ":" +:+ text) <$> stringify x)
                         props)
            +:+ "}")
  | Js.JNative Js.function_kind _ _ => None
  | Js.JNative Js.array_kind _ _ => Some "[]"
  | Js.JNative Js.object_kind _ _ => Some "{}"
  end.

(** The other built-in objects of the test runtime: the function [Array]
    and [Array.prototype] with its methods (ECMAScript 2023); strings,
    numbers and booleans are given the members of [Object.prototype] only.
    Its functions throw when they are called. *)
Definition Array_function : Js.JsValue := Js.native_function "Array" "Array".

Definition Array_prototype : Js.JsValue :=
  Js.JNative Js.array_kind "Array.prototype" "".

Definition array_methods : list string :=
  ["at"; "concat"; "copyWithin"; "fill"; "find"; "findIndex"; "findLast"; "findLastIndex";
   "lastIndexOf"; "pop"; "push"; "reverse"; "shift"; "unshift"; "slice"; "sort"; "splice";
   "includes"; "indexOf"; "join"; "keys"; "entries"; "values"; "forEach"; "filter"; "flat";
   "flatMap"; "map"; "every"; "some"; "reduce"; "reduceRight"; "toLocaleString"; "toString";
   "toReversed"; "toSorted"; "toSpliced"; "with"].

Definition of_Array_prototype (key : string) : option Js.JsValue :=
  if String.eqb key "constructor" then Some Array_function
  else if bool_decide (key ∈ array_methods)
  then Some (Js.native_function ("Array.prototype." +:+ key) key)
  else None.

Definition sample_builtins : Js.Builtins := {|
  Js.builtin_member := fun v key =>
    match v with
    | Js.JArray _ =>
        if String.eqb key "__proto__" then Some Array_prototype else of_Array_prototype key
    | Js.JNative Js.array_kind "Array.prototype" _ =>
        if String.eqb key "__proto__" then Some Js.Object_prototype
        else if String.eqb key "length" then Some (Js.JNumber (Js.Num 0))
        else match of_Array_prototype key with
             | Some m => Some m
             | None => Js.of_Object_prototype key
             end
    | _ => None
    end;
  Js.call := fun name this args =>
    Throw (Error (name +:+ " is not part of the test runtime"))
|}.

Definition sample_regexp : RegExpEngine :=
  fun pattern s =>
    if String.eqb pattern "(" then
      Throw (SyntaxError "Invalid regular expression: /(/: Unterminated group")
    else Ok (Strings.includes pattern s).

(** The texts [{"id":1}], [{"id":7}] and [{"limit":5}]. *)
Definition id_1_text : string :=
  "{" +:+ Strings.quote +:+ "id" +:+ Strings.quote +:+ ":1}".

Definition id_7_text : string :=
  "{" +:+ Strings.quote +:+ "id" +:+ Strings.quote +:+ ":7}".

Definition limit_5_text : string :=
  "{" +:+ Strings.quote +:+ "limit" +:+ Strings.quote +:+ ":5}".

(** The text [{"hasOwnProperty":1,"limit":5}] and the object that it
    denotes. *)
Definition own_method_text : string :=
  "{" +:+ Strings.quote +:+ "hasOwnProperty" +:+ Strings.quote +:+ ":1,"
  +:+ Strings.quote +:+ "limit" +:+ Strings.quote +:+ ":5}".

Definition own_method_answer : Js.JsValue :=
  Js.JObject [("hasOwnProperty", Js.JNumber (Js.Num 1)); ("limit", Js.JNumber (Js.Num 5))].

Definition sample_runtime : Runtime := {|
  regexp_engine := sample_regexp;
  builtins := sample_builtins;
  JSON_parse := fun text =>
    if String.eqb text id_7_text then Ok (Js.JObject [("id", Js.JNumber (Js.Num 7))])
    else if String.eqb text limit_5_text then Ok (Js.JObject [("limit", Js.JNumber (Js.Num 5))])
    else if String.eqb text own_method_text then Ok own_method_answer
    else Throw (SyntaxError ("Unexpected token in JSON: " +:+ text));
  JSON_stringify := stringify;
  StringToNumber := fun _ => Js.NaN;
  toUpperCase := fun s => s;
  toLowerCase := fun s => s;
  btoa := fun s => Ok s;
  encodeURIComponent := fun s => Ok s
|}.

Definition sample_collaborators (answer : string) (status : Z) (data : Js.JsValue)
    : Collaborators := {|
  render_prompt := fun template _ _ => Ok template;
  chat := fun _ _ => Ok answer;
  getHandler := fun _ => None;
  performHttpRequest := fun _ _ _ => Ok (HttpResponse.mk status [] data)
|}.


(** Test data for the validator. *)
Definition sample_definition : ParameterDefinition.t :=
  ParameterDefinition.mk "id" number_t true None None None
    (Some (Validation.mk (Some (Js.Num 1)) None (Some "(") None)).

(** Test data: an endpoint that expects status 200, run with response
    validation against a transport that answers 404. *)
Definition get_user : ApiEndpoint.t :=
  ApiEndpoint.mk "get-user" "Get user" GET "https://api.example.com" "/users/1" [] [] []
    None None [ResponseSchema.mk 200 None] None None [].

Definition not_found_body : Js.JsValue := Js.JObject [("message", Js.JString "Not found")].

Definition validating : ExecutionOptions.t :=
  ExecutionOptions.mk None None (Some true) None.

Definition empty_context : ExecutionContext.t := ExecutionContext.mk ∅ ∅.

(** The result that [perform] builds for [get_user] on the 404 answer. *)
Definition get_user_404 : ExecutionResult.t :=
  ExecutionResult.mk "get-user" true 404
    (RequestData.mk "https://api.example.com/users/1" GET [] [] Js.JNull)
    (ResponseData.mk [] not_found_body 23) None.

(** Test data: an endpoint without a base URL, which fails validation
    before any request is made. *)
Definition no_base_url : ApiEndpoint.t :=
  ApiEndpoint.mk "broken" "Broken" GET "" "/users" [] [] [] None None [] None None [].




(** Test data: the chain A, B, C of the specification (B depends on A, C
    on B) and the input of a two-element cycle. *)
Definition endpoint_A : ApiEndpoint.t := Engine.endpoint_on "A" [].
Definition endpoint_B : ApiEndpoint.t := Engine.endpoint_on "B" ["A"].
Definition endpoint_C : ApiEndpoint.t := Engine.endpoint_on "C" ["B"].
Definition cyclic_A : ApiEndpoint.t := Engine.endpoint_on "A" ["B"].
Definition cyclic_B : ApiEndpoint.t := Engine.endpoint_on "B" ["A"].

(** Test data: A depends on C, and B stands between them in the input. *)
Definition late_A : ApiEndpoint.t := Engine.endpoint_on "A" ["C"].
Definition late_B : ApiEndpoint.t := Engine.endpoint_on "B" [].
Definition late_C : ApiEndpoint.t := Engine.endpoint_on "C" [].


(** * Further parts of the sources *)

(** ** [models/SchemaProperty.ts]: transformation functions and properties *)

(** [TransformFunction]; the member [validate] is optional. *)
Module TransformFunction.
Record t : Type := mk {
  name : string;
  transform : Js.JsValue → outcome Js.JsValue;
  validate : option (Js.JsValue → bool)
}.
End TransformFunction.

(** The locations of a [SchemaProperty]. *)
Inductive PropertyLocation : Type :=
| in_query | in_path | in_body | in_header | in_response.

#[global] Instance PropertyLocation_eq_dec : EqDecision PropertyLocation.
Proof. solve_decision. Defined.

(** [SchemaProperty], the members that the connection builder reads.
    [jsonPath] is the member of that name of a [BodyProperty] or a
    [ResponseProperty], when it is there and a string. *)
Module SchemaProperty.
Record t : Type := mk {
  name : string;
  type : ParameterType;
  required : bool;
  location : PropertyLocation;
  jsonPath : option string;
  endpoint : ApiEndpoint.t
}.
End SchemaProperty.

(** ** [models/Transforms.ts]: the predefined transformations *)
Module Transforms.
Import Js.

Section WithRuntime.
Context `{Runtime}.

(** [input.toUpperCase()] and [input.toLowerCase()]: a method of strings
    only. *)
Definition call_string_method (method : string → string) (name : string)
    (input : JsValue) : outcome JsValue :=
  match input with
  | JString s => Ok (JString (method s))
  | JUndefined | JNull => Throw (TypeError "Cannot read properties of null or undefined")
  | _ => Throw (TypeError ("input." +:+ name +:+ " is not a function"))
  end.

Definition toString : TransformFunction.t :=
  TransformFunction.mk "string" (fun input => Ok (JString (to_String input))) None.

Definition toNumber : TransformFunction.t :=
  TransformFunction.mk "number"
    (fun input => Ok (JNumber (Engine.to_Number input)))
    (Some (fun input => negb (isNaN (Engine.to_Number input)))).

Definition addBearerPrefix : TransformFunction.t :=
  TransformFunction.mk "bearer-prefix"
    (fun token => Ok (JString ("Bearer " +:+ to_String token)))
    (Some (fun token =>
             match token with
             | JString s => bool_decide (0 < String.length s)
             | _ => false
             end)).

Definition wrapInArray : TransformFunction.t :=
  TransformFunction.mk "array-wrap" (fun input => Ok (JArray [input])) None.

Definition extractFirst : TransformFunction.t :=
  TransformFunction.mk "array-first"
    (fun array => get array "0")
    (Some (fun array =>
             match array with
             | JArray elements => bool_decide (0 < length elements)
             | _ => false
             end)).

Definition toUpperCase : TransformFunction.t :=
  TransformFunction.mk "upper" (call_string_method toUpperCase "toUpperCase") None.

Definition toLowerCase : TransformFunction.t :=
  TransformFunction.mk "lower" (call_string_method toLowerCase "toLowerCase") None.

(** The members of [Transforms]. *)
Definition all : list TransformFunction.t :=
  [toString; toNumber; addBearerPrefix; wrapInArray; extractFirst; toUpperCase; toLowerCase].

End WithRuntime.
End Transforms.

(** ** The class of [models/ConnectionBuilder.ts] *)
Module ConnectionBuilding.
Module SP := SchemaProperty.
Module C := EndpointConnection.

(** The private members of a builder. *)
Record t : Type := mk {
  source : SP.t;
  target : SP.t;
  mapping : option string;
  transformation : option TransformFunction.t
}.

(** The warning that it writes to the console is left out. *)
Definition validateCompatibility (builder : t) : outcome unit :=
  (* Type compatibility checks *)
  if negb (ConnectionBuilder.areTypesCompatible (SP.type (source builder))
             (SP.type (target builder)))
  then Throw (Error ("Incompatible types: " +:+ ParameterType_name (SP.type (source builder))
                     +:+ " -> " +:+ ParameterType_name (SP.type (target builder))))
  (* Location validation *)
  else if bool_decide (SP.location (target builder) = in_path)
          && negb (bool_decide (SP.type (source builder) = string_t))
          && negb (bool_decide (SP.type (source builder) = number_t))
  then Throw (Error ("Path parameters must be string or number type, got: "
                     +:+ ParameterType_name (SP.type (source builder))))
  else Ok ().

(** The constructor. *)
Definition new (source target : SP.t) (mapping : option string) : outcome t :=
  let builder := mk source target (Some (default "" mapping)) None in
  _ ← validateCompatibility builder;
  Ok builder.

Definition withTransform (transform : TransformFunction.t) (builder : t) : t :=
  mk (source builder) (target builder) (mapping builder) (Some transform).

Definition withMapping (mapping : string) (builder : t) : t :=
  mk (source builder) (target builder) (Some mapping) (transformation builder).

(** [now] is the value of [Date.now()]. *)
Definition generateConnectionId (now : Z) (builder : t) : string :=
  ApiEndpoint.id (SP.endpoint (source builder)) +:+ "_"
  +:+ ApiEndpoint.id (SP.endpoint (target builder)) +:+ "_" +:+ pretty now.

Definition getSourceField (builder : t) : string :=
  match SP.jsonPath (source builder) with
  | Some jsonPath => jsonPath
  | None => SP.name (source builder)
  end.

Definition generateDefaultMapping (builder : t) : string :=
  "Use " +:+ SP.name (source builder) +:+ " from "
  +:+ ApiEndpoint.name (SP.endpoint (source builder)) +:+ " as " +:+ SP.name (target builder).

(** The cast of the target's location to the locations of a connection.
    It checks nothing: when the target is a response property the object
    that [build] returns carries ['response'], which is no
    [EndpointConnection]; [None] stands for that object. *)
Definition targetLocation (location : PropertyLocation) : option TargetLocation :=
  match location with
  | in_query => Some query_loc
  | in_body => Some body_loc
  | in_header => Some header_loc
  | in_path => Some path_loc
  | in_response => None
  end.

Definition build (now : Z) (builder : t) : option C.t :=
  location ← targetLocation (SP.location (target builder));
  Some (C.mk (generateConnectionId now builder)
          (ApiEndpoint.id (SP.endpoint (source builder)))
          (ApiEndpoint.id (SP.endpoint (target builder)))
          (getSourceField builder)
          (SP.name (target builder))
          location
          (match mapping builder with
           | Some mapping => mapping
           | None => generateDefaultMapping builder
           end)
          (Some (match transformation builder with
                 | Some transform => TransformFunction.name transform
                 | None => ""
                 end))
          (* Add type information for runtime validation *)
          (Some (SP.type (source builder)))
          (Some (SP.type (target builder)))).

End ConnectionBuilding.

(** ** [models/TransformedProperty.ts] *)
Module TransformedProperty.
Module SP := SchemaProperty.

Record t : Type := mk {
  property : SP.t;
  transformer : TransformFunction.t
}.

Definition getTransformedType (this : t) : ParameterType :=
  (* Infer type from transformer if possible *)
  SP.type (property this).

Definition mapTo (this : t) (target : SP.t) (mapping : option string)
    : outcome ConnectionBuilding.t :=
  builder ← ConnectionBuilding.new
              (SP.mk (SP.name (property this)) (getTransformedType this)
                 (SP.required (property this)) (SP.location (property this))
                 (SP.jsonPath (property this)) (SP.endpoint (property this)))
              target mapping;
  Ok (ConnectionBuilding.withTransform (transformer this) builder).

End TransformedProperty.

(** ** [models/ApiEndpoint.ts]: connections and property validation *)
Module Endpoint.
Import Js.
Module E := ApiEndpoint.
Module C := EndpointConnection.
Module PD := ParameterDefinition.
Module VR := ValidationResult.

(** [this.connections = connections]; [updatedAt], which is read off the
    clock, is not part of the model. *)
Definition with_connections (endpoint : E.t) (connections : list C.t) : E.t :=
  E.mk (E.id endpoint) (E.name endpoint) (E.method endpoint) (E.baseUrl endpoint)
    (E.path endpoint) (E.queryParams endpoint) (E.pathParams endpoint) (E.headers endpoint)
    (E.body endpoint) (E.auth endpoint) (E.expectedResponse endpoint)
    (E.naturalLanguageInput endpoint) (E.aiMapping endpoint) connections.

(** [addConnection]: the endpoint after the call and the connection
    returned; [now] is the value of [Date.now()]. *)
Definition addConnection (now : Z) (endpoint : E.t) (connection : C.t) : E.t * C.t :=
  let newConnection :=
    C.mk (E.id endpoint +:+ "_" +:+ C.targetNodeId connection +:+ "_" +:+ pretty now)
      (C.sourceNodeId connection) (C.targetNodeId connection) (C.sourceField connection)
      (C.targetField connection) (C.targetLocation connection)
      (C.naturalLanguageMapping connection) (C.transform connection)
      (C.sourceType connection) (C.targetType connection) in
  (with_connections endpoint (E.connections endpoint ++ [newConnection]), newConnection).

(** [removeConnection]: the endpoint after the call and the value
    returned. *)
Definition removeConnection (endpoint : E.t) (connectionId : string) : E.t * bool :=
  let initialLength := length (E.connections endpoint) in
  let endpoint :=
    with_connections endpoint
      (filter (fun conn => C.id conn ≠ connectionId) (E.connections endpoint)) in
  if bool_decide (length (E.connections endpoint) < initialLength)
  then (endpoint, true)
  else (endpoint, false).


Section WithRuntime.
Context `{RegExpEngine}.


End WithRuntime.

(** The loop of [validateResponseProperty] from a given position: [None]
    when it leaves the function with the property-not-found result. *)
Fixpoint responseProperty `{Builtins} (parts : list string) (current : JsValue)
    : outcome (option JsValue) :=
  match parts with
  | [] => Ok (Some current)
  | part :: rest =>
      if truthy current && String.eqb (typeof current) "object" then
        present ← js_in part current;
        if present : bool then next ← get current part; responseProperty rest next
        else Ok None
      else Ok None
  end.

Definition validateResponseProperty `{Builtins} (jsonPath : string) (response : JsValue)
    : outcome VR.t :=
  found ← responseProperty (Strings.split "." jsonPath) response;
  Ok match found with
     | None => VR.mk false ["Property " +:+ jsonPath +:+ " not found in response"] []
     | Some current =>
         VR.mk true []
           (if is_undefined current
            then ["Property " +:+ jsonPath +:+ " exists but is undefined"]
            else [])
     end.

End Endpoint.

(** ** [utils/ParameterBuilder.ts] *)
Module ParameterBuilder.
Import Js.
Module PD := ParameterDefinition.

(** The object [this.definition]. Its member [validation] is an object of
    its own, which the copy that [build] returns shares with the builder:
    the member holds the address of that object in a store. *)
Module DefinitionObject.
Record t : Type := mk {
  name : string;
  type : ParameterType;
  required : bool;
  description : option string;
  defaultValue : option JsValue;
  examples : option (list JsValue);
  items : option PD.t;
  properties : option (list (string * PD.t));
  validation : option nat
}.
End DefinitionObject.
Module D := DefinitionObject.

(** The validation objects allocated so far, by address. *)
Definition store : Type := list Validation.t.

(** The constructor. *)
Definition new (name : string) (type : ParameterType) : D.t :=
  D.mk name type false None None None None None None.

(** [required(required = true)] *)
Definition required (required : option bool) (this : D.t) : D.t :=
  D.mk (D.name this) (D.type this) (default true required) (D.description this)
    (D.defaultValue this) (D.examples this) (D.items this) (D.properties this)
    (D.validation this).

Definition description (description : string) (this : D.t) : D.t :=
  D.mk (D.name this) (D.type this) (D.required this) (Some description)
    (D.defaultValue this) (D.examples this) (D.items this) (D.properties this)
    (D.validation this).

Definition defaultValue (value : JsValue) (this : D.t) : D.t :=
  D.mk (D.name this) (D.type this) (D.required this) (D.description this)
    (Some value) (D.examples this) (D.items this) (D.properties this)
    (D.validation this).

Definition examples (examples : list JsValue) (this : D.t) : D.t :=
  D.mk (D.name this) (D.type this) (D.required this) (D.description this)
    (D.defaultValue this) (Some examples) (D.items this) (D.properties this)
    (D.validation this).

(** [if (!this.definition.validation) this.definition.validation = {}],
    followed by an assignment to a member of the validation object. *)
Definition set_validation (assignment : Validation.t → Validation.t)
    (σ : store) (this : D.t) : store * D.t :=
  match D.validation this with
  | Some address => (alter assignment address σ, this)
  | None =>
      (σ ++ [assignment (Validation.mk None None None None)],
       D.mk (D.name this) (D.type this) (D.required this) (D.description this)
         (D.defaultValue this) (D.examples this) (D.items this) (D.properties this)
         (Some (length σ)))
  end.

Definition min (min : JsNumber) : store → D.t → store * D.t :=
  set_validation (fun validation =>
    Validation.mk (Some min) (Validation.max validation) (Validation.pattern validation)
      (Validation.enum validation)).

Definition max (max : JsNumber) : store → D.t → store * D.t :=
  set_validation (fun validation =>
    Validation.mk (Validation.min validation) (Some max) (Validation.pattern validation)
      (Validation.enum validation)).

Definition pattern (pattern : string) : store → D.t → store * D.t :=
  set_validation (fun validation =>
    Validation.mk (Validation.min validation) (Validation.max validation) (Some pattern)
      (Validation.enum validation)).

Definition enum (values : list JsValue) : store → D.t → store * D.t :=
  set_validation (fun validation =>
    Validation.mk (Validation.min validation) (Validation.max validation)
      (Validation.pattern validation) (Some values)).

Definition items (itemDefinition : PD.t) (this : D.t) : outcome D.t :=
  if negb (bool_decide (D.type this = array_t)) then
    Throw (Error "Items can only be defined for array type parameters")
  else
    Ok (D.mk (D.name this) (D.type this) (D.required this) (D.description this)
          (D.defaultValue this) (D.examples this) (Some itemDefinition) (D.properties this)
          (D.validation this)).

Definition properties (properties : list (string * PD.t)) (this : D.t) : outcome D.t :=
  if negb (bool_decide (D.type this = object_t)) then
    Throw (Error "Properties can only be defined for object type parameters")
  else
    Ok (D.mk (D.name this) (D.type this) (D.required this) (D.description this)
          (D.defaultValue this) (D.examples this) (D.items this) (Some properties)
          (D.validation this)).

(** [build]: [{ ...this.definition }], a copy of the members; the
    validation object is not copied. *)
Definition build (this : D.t) : D.t :=
  D.mk (D.name this) (D.type this) (D.required this) (D.description this)
    (D.defaultValue this) (D.examples this) (D.items this) (D.properties this)
    (D.validation this).

(** The [ParameterDefinition] that a definition object is when it is read
    in the store [σ]. *)
Definition read (σ : store) (definition : D.t) : PD.t :=
  PD.mk (D.name definition) (D.type definition) (D.required definition)
    (D.defaultValue definition) (D.items definition) (D.properties definition)
    (D.validation definition ≫= fun address => σ !! address).

(** A call of a method of the builder, and a chain of calls on
    [this]. *)
Inductive call : Type :=
| call_required (required : option bool)
| call_description (description : string)
| call_defaultValue (value : JsValue)
| call_examples (examples : list JsValue)
| call_min (min : JsNumber)
| call_max (max : JsNumber)
| call_pattern (pattern : string)
| call_enum (values : list JsValue)
| call_items (itemDefinition : PD.t)
| call_properties (properties : list (string * PD.t)).

Definition run (state : store * D.t) (c : call) : outcome (store * D.t) :=
  let '(σ, this) := state in
  match c with
  | call_required r => Ok (σ, required r this)
  | call_description d => Ok (σ, description d this)
  | call_defaultValue v => Ok (σ, defaultValue v this)
  | call_examples l => Ok (σ, examples l this)
  | call_min m => Ok (min m σ this)
  | call_max m => Ok (max m σ this)
  | call_pattern p => Ok (pattern p σ this)
  | call_enum l => Ok (enum l σ this)
  | call_items d => this ← items d this; Ok (σ, this)
  | call_properties ps => this ← properties ps this; Ok (σ, this)
  end.

Definition chain (calls : list call) (state : store * D.t) : outcome (store * D.t) :=
  for_each run calls state.

End ParameterBuilder.

(** ** [utils/HttpResponseUtils.ts] *)
Module HttpResponseUtils.
Import Js.

Definition max_depth_reached : JsValue := JString "[Max depth reached]".

Section WithBuiltins.
Context `{Builtins}.

(** [input.constructor?.name || 'Unknown'] in a template literal, where
    [c] is the member [constructor] of the input. *)
Definition constructor_name (c : JsValue) : string :=
  match c with
  | JUndefined | JNull => "Unknown"
  | _ =>
      let name := default JUndefined (member c "name") in
      if truthy name then to_String name else "Unknown"
  end.

(** [truncateArrays]. An object whose member [constructor] is the function
    [Object] is copied from its entries; another one is copied by the loop
    that asks [input.hasOwnProperty] for each key, and when that call
    throws the text that names the constructor is returned. A built-in
    object has no enumerable property. [maxArrayLength] is a natural
    number. *)
Fixpoint truncateArrays (input : JsValue) (maxArrayLength maxDepth currentDepth : nat)
    : JsValue :=
  (* Prevent infinite recursion *)
  if bool_decide (maxDepth ≤ currentDepth)%nat then max_depth_reached
  else
    match input with
    (* Handle null/undefined *)
    | JNull | JUndefined => input
    (* Handle primitive types (string, number, boolean) *)
    | JString _ | JNumber _ | JBool _ => input
    (* Handle arrays *)
    | JArray elements =>
        (* [input.slice(0, maxArrayLength).map(...)] *)
        let processedArray :=
          take maxArrayLength
            (map (fun item => truncateArrays item maxArrayLength maxDepth (S currentDepth))
               elements) in
        (* Add metadata if array was truncated *)
        if bool_decide (maxArrayLength < length elements) then
          JObject (Engine.assign (Engine.spread (JArray processedArray))
                     [("_truncated", JBool true);
                      ("_originalLength", JNumber (Num (Z.of_nat (length elements))));
                      ("_showing", JNumber (Num (Z.of_nat maxArrayLength)))])
        else JArray processedArray
    | JNative array_kind _ _ => JArray []
    (* Handle objects *)
    | JObject props =>
        if is_Object (default JUndefined (member input "constructor")) then
          JObject (foldl (fun processedObject kv =>
                            obj_set processedObject kv.1
                              (truncateArrays kv.2 maxArrayLength maxDepth (S currentDepth)))
                     [] props)
        else
          (* Handle other object types (classes, etc.) *)
          match for_each
                  (fun processedObject kv =>
                     owned ← hasOwnProperty "input" input kv.1;
                     Ok (if owned : bool
                         then obj_set processedObject kv.1
                                (truncateArrays kv.2 maxArrayLength maxDepth (S currentDepth))
                         else processedObject))
                  props [] with
          | Ok processedObject => JObject processedObject
          | Throw _ =>
              (* Return string representation if processing fails *)
              JString ("[Object: "
                       +:+ constructor_name (default JUndefined (member input "constructor"))
                       +:+ "]")
          end
    | JNative object_kind _ _ => JObject []
    (* Fallback for any other types *)
    | JNative function_kind _ _ => input
    end.

End WithBuiltins.

(** [truncateStrings] *)
Fixpoint truncateStrings (input : JsValue) (maxLength maxDepth currentDepth : nat)
    : JsValue :=
  if bool_decide (maxDepth ≤ currentDepth)%nat then max_depth_reached
  else
    match input with
    | JString s =>
        if bool_decide (maxLength < String.length s) then
          JString (String.substring 0 maxLength s +:+ "... [+"
                   +:+ pretty (String.length s - maxLength) +:+ " chars]")
        else input
    | JNull | JUndefined | JNumber _ | JBool _ => input
    | JArray elements =>
        JArray (map (fun item => truncateStrings item maxLength maxDepth (S currentDepth))
                  elements)
    | JNative array_kind _ _ => JArray []
    | JObject props =>
        JObject (foldl (fun processed kv =>
                          obj_set processed kv.1
                            (truncateStrings kv.2 maxLength maxDepth (S currentDepth)))
                   [] props)
    | JNative object_kind _ _ => JObject []
    | JNative function_kind _ _ => input
    end.

(** The object [info] of [getDataInfo]. *)
Record DataInfo : Type := mkDataInfo {
  type : string;
  totalItems : nat;
  totalArrays : nat;
  totalObjects : nat;
  totalSize : nat;
  depth : nat
}.

Definition getDataSize (input : JsValue) : nat :=
  match input with
  | JNull | JUndefined => 0
  | JString s => String.length s * 2 (* Rough UTF-16 estimate *)
  | JNumber _ => 8
  | JBool _ => 4
  | JArray elements => length elements * 4 (* Rough array overhead *)
  | JObject props => length props * 4 (* Rough object overhead *)
  | JNative _ _ _ => 0
  end.

Definition getDataType (input : JsValue) : string :=
  match input with
  | JNull => "null"
  | JUndefined => "undefined"
  | JArray elements => "array[" +:+ pretty (length elements) +:+ "]"
  | JNative array_kind _ _ => "array[0]"
  | JObject props => "object{" +:+ pretty (length props) +:+ "}"
  | JNative object_kind _ _ => "object{0}"
  | _ => typeof input
  end.

(** [analyzeData]; the object [info] that it updates is threaded. *)
Fixpoint analyzeData (input : JsValue) (info : DataInfo) (depth : nat) : DataInfo :=
  let info :=
    mkDataInfo (type info) (totalItems info) (totalArrays info) (totalObjects info)
      (totalSize info + getDataSize input) (Nat.max (HttpResponseUtils.depth info) depth) in
  match input with
  | JArray elements =>
      let info :=
        mkDataInfo (type info) (totalItems info + length elements) (S (totalArrays info))
          (totalObjects info) (totalSize info) (HttpResponseUtils.depth info) in
      foldl (fun info item => analyzeData item info (S depth)) info elements
  | JNative array_kind _ _ =>
      mkDataInfo (type info) (totalItems info) (S (totalArrays info)) (totalObjects info)
        (totalSize info) (HttpResponseUtils.depth info)
  | JObject props =>
      let info :=
        mkDataInfo (type info) (totalItems info) (totalArrays info) (S (totalObjects info))
          (totalSize info) (HttpResponseUtils.depth info) in
      foldl (fun info kv => analyzeData kv.2 info (S depth)) info props
  | JNative object_kind _ _ =>
      mkDataInfo (type info) (totalItems info) (totalArrays info) (S (totalObjects info))
        (totalSize info) (HttpResponseUtils.depth info)
  | _ => info
  end.

Definition getDataInfo (input : JsValue) : DataInfo :=
  analyzeData input (mkDataInfo (getDataType input) 0 0 0 0 0) 0.

(** The options of [createPreview]. *)
Record PreviewOptions : Type := mkPreviewOptions {
  maxArrayLength : option nat;
  maxStringLength : option nat;
  maxDepth : option nat;
  includeMetadata : option bool
}.

(** What [createPreview] returns: the processed data, with the metadata
    when they are asked for. *)
Record Preview : Type := mkPreview {
  data : JsValue;
  original : DataInfo;
  processed : DataInfo;
  truncated : bool
}.

Definition createPreview `{Builtins} (input : JsValue) (options : PreviewOptions)
    : JsValue + Preview :=
  let maxArrayLength := default 1 (maxArrayLength options) in
  let maxStringLength := default 100 (maxStringLength options) in
  let maxDepth := default 10 (maxDepth options) in
  let includeMetadata := default true (includeMetadata options) in
  (* Get original size info before processing *)
  let originalInfo := getDataInfo input in
  (* Truncate arrays first *)
  let processed := truncateArrays input maxArrayLength maxDepth 0 in
  (* Truncate long strings *)
  let processed := truncateStrings processed maxStringLength maxDepth 0 in
  (* Add metadata if requested *)
  if includeMetadata then
    let processedInfo := getDataInfo processed in
    inr (mkPreview processed originalInfo processedInfo
           (bool_decide (totalSize processedInfo < totalSize originalInfo)))
  else inl processed.

End HttpResponseUtils.

(** * Further notions used in the statements *)


#[global] Instance TargetLocation_eq_dec : EqDecision TargetLocation.
Proof. solve_decision. Defined.



(** The text [cleaned] of [cleanAiJsonResponse]: the answer without its
    code fences and without white space around it. *)
Definition without_fences (response : string) : string :=
  Strings.trim
    (Strings.remove_all "```" (Strings.remove_all "```json" (Strings.trim response))).

(** Every character of a string is of a class. *)
Fixpoint every_char (class : ascii → bool) (s : string) : bool :=
  match s with
  | EmptyString => true
  | String c rest => class c && every_char class rest
  end.

(** No array of a value has more than [n] elements. *)
Fixpoint arrays_within (n : nat) (v : Js.JsValue) : bool :=
  match v with
  | Js.JArray elements =>
      bool_decide (length elements ≤ n)%nat && forallb (arrays_within n) elements
  | Js.JObject props => forallb (fun kv => arrays_within n kv.2) props
  | _ => true
  end.

(** The number of levels below the root of a value: 0 for a primitive and
    for an empty array or object. *)
Fixpoint height (v : Js.JsValue) : nat :=
  match v with
  | Js.JArray elements => foldr (fun e m => Nat.max (S (height e)) m) 0%nat elements
  | Js.JObject props => foldr (fun kv m => Nat.max (S (height kv.2)) m) 0%nat props
  | _ => 0%nat
  end.

(** The options of [createPreview] when none are given. *)
Definition no_preview_options : HttpResponseUtils.PreviewOptions :=
  HttpResponseUtils.mkPreviewOptions None None None None.

(** The calls that a builder of a type throws on, and the calls that
    assign to the validation object. *)
Definition refused (type : ParameterType) (c : ParameterBuilder.call) : bool :=
  match c with
  | ParameterBuilder.call_items _ => negb (bool_decide (type = array_t))
  | ParameterBuilder.call_properties _ => negb (bool_decide (type = object_t))
  | _ => false
  end.

Definition assigns_validation (c : ParameterBuilder.call) : bool :=
  match c with
  | ParameterBuilder.call_min _ | ParameterBuilder.call_max _
  | ParameterBuilder.call_pattern _ | ParameterBuilder.call_enum _ => true
  | _ => false
  end.

(** * Further test data *)









(** Test data: the property [id] of the response of [A] and the query
    parameter [userId] of [B]. *)
Definition id_of_A : SchemaProperty.t :=
  SchemaProperty.mk "id" number_t true in_response (Some "data.user.id") endpoint_A.

Definition userId_of_B : SchemaProperty.t :=
  SchemaProperty.mk "userId" number_t true in_query None endpoint_B.


(** * Theorems *)

(** ** The type matrix *)

Lemma compatible_cases (s t : ParameterType) :
  compatible s t ↔
  s = t ∨ t = string_t ∨ (s = string_t ∧ t = number_t) ∨ (s = string_t ∧ t = boolean_t)
  ∨ ((s = array_t ∨ s = object_t) ∧ t = object_t).
Proof.
  split.
  - destruct 1; naive_solver.
  - intros [-> | [-> | [[-> ->] | [[-> ->] | [[-> | ->] ->]]]]]; constructor.
Qed.

(** C2, as stated, fails at the builder: the rule makes array to object a
    compatible pair and [ConnectionBuilder.areTypesCompatible] rejects it. *)
Lemma builder_rejects_array_to_object :
  compatible array_t object_t
  ∧ Engine.areTypesCompatibleEnhanced array_t object_t = true
  ∧ ConnectionBuilder.areTypesCompatible array_t object_t = false.
Proof. split; [constructor | split; reflexivity]. Qed.

(** C2, amended: the engine's predicate (flow-execution time) is true
    exactly on the pairs of the rule; the builder's predicate
    (connection-construction time) is true exactly on those pairs other
    than array to object. *)
Theorem type_compatibility_at_both_checkpoints (s t : ParameterType) :
  (Engine.areTypesCompatibleEnhanced s t = true ↔ compatible s t)
  ∧ (ConnectionBuilder.areTypesCompatible s t = true
     ↔ compatible s t ∧ ¬ (s = array_t ∧ t = object_t)).
Proof.
  rewrite compatible_cases.
  destruct s, t; vm_compute; intuition congruence.
Qed.

(** ** The schema validator *)
Section ValidatorFacts.
Import Js SchemaValidation.
Context `{RegExpEngine} `{Builtins}.

(** C3: on [null], [undefined] and the empty string, a required parameter
    yields the single required-field error and an optional parameter yields
    a valid result without errors; in both cases the result is returned
    whatever the type, the constraints and the nested definitions say, so
    none of these is looked at. *)
Theorem empty_value_short_circuit (value : JsValue) (definition : PD.t) :
  value = JNull ∨ value = JUndefined ∨ value = JString "" →
  validateParameter value definition =
    Ok (if PD.required definition
        then VR.mk false
               ["Required parameter '" +:+ PD.name definition +:+ "' is missing or empty"] []
        else VR.mk true [] []).
Proof.
  intros Hempty. unfold validateParameter.
  destruct definition as [name type required dv items properties validation].
  destruct Hempty as [-> | [-> | ->]]; destruct required; reflexivity.
Qed.

Lemma validateParameterNamed_isValid name value definition result :
  validateParameterNamed name value definition = Ok result →
  VR.isValid result = bool_decide (length (VR.errors result) = 0).
Proof.
  destruct definition as [name' type required dv items properties validation].
  cbn [validateParameterNamed].
  destruct (required && isEmpty value); [by intros [= <-] |].
  destruct (isEmpty value && negb required); [by intros [= <-] |].
  destruct (validateConstraints _ _ _) as [acc |]; [| done].
  cbn [mbind outcome_bind].
  match goal with |- (?m ≫= _) = _ → _ => destruct m as [[errors warnings] |] end;
    [| done].
  by intros [= <-].
Qed.

Lemma validateParameters_isValid values definitions result :
  validateParameters values definitions = Ok result →
  VR.isValid result = bool_decide (length (VR.errors result) = 0).
Proof.
  unfold validateParameters.
  destruct (for_each _ _ _) as [[allErrors allWarnings] |]; [| done].
  cbn [mbind outcome_bind].
  destruct (keys values); [| done].
  by intros [= <-].
Qed.

(** C10: every result that [validateParameter] (also when it is called on
    a nested definition, under a name of its own) and [validateParameters]
    return is valid exactly when its list of errors is empty; the warnings
    have no part in it, and a result that carries a warning for an
    unexpected parameter is valid. *)
Theorem isValid_iff_no_errors :
  (∀ name value definition result,
     validateParameterNamed name value definition = Ok result →
     (VR.isValid result = true ↔ VR.errors result = []))
  ∧ (∀ value definition result,
       validateParameter value definition = Ok result →
       (VR.isValid result = true ↔ VR.errors result = []))
  ∧ (∀ values definitions result,
       validateParameters values definitions = Ok result →
       (VR.isValid result = true ↔ VR.errors result = []))
  ∧ validateParameters (JObject [("extra", JNumber (Num 1))]) [] =
      Ok (VR.mk true [] ["Unexpected parameter 'extra' provided"]).
Proof.
  assert (Hlen : ∀ (l : list string) b, b = bool_decide (length l = 0) → b = true ↔ l = []).
  { intros l b ->. rewrite bool_decide_eq_true. by destruct l. }
  split; [| split; [| split]].
  - intros name value definition result Hr.
    eapply Hlen, validateParameterNamed_isValid, Hr.
  - intros value definition result Hr.
    eapply Hlen, validateParameterNamed_isValid, Hr.
  - intros values definitions result Hr.
    eapply Hlen, validateParameters_isValid, Hr.
  - reflexivity.
Qed.

End ValidatorFacts.

(** ** Field extraction and connection resolution *)

Section ExtractionFacts.
Import Js Engine.
Context `{Builtins}.

Lemma walk_follow parts current :
  walk parts current =
    Ok (default JUndefined (follow (filter (fun part => part ≠ "") parts) current)).
Proof.
  revert current. induction parts as [| part rest IH]; intros current; [done |].
  cbn [walk]. rewrite filter_cons.
  destruct (String.eqb_spec part "") as [-> | Hne].
  { rewrite decide_False by naive_solver. apply IH. }
  rewrite decide_True by done. cbn [follow].
  destruct current as [| | b | n | s | elements | props | kind name text]; try done.
  - cbn. by destruct b.
  - cbn. by destruct n as [| |z]; [| | destruct (bool_decide (z = 0%Z))].
  - cbn. by destruct (negb (String.eqb s "")).
  - cbn -[member]. destruct (member (JArray elements) part) as [v |] eqn:Hv.
    + rewrite bool_decide_eq_true_2 by eauto. cbn. apply IH.
    + rewrite bool_decide_eq_false_2 by (by intros [? ?]). done.
  - cbn -[member]. destruct (member (JObject props) part) as [v |] eqn:Hv.
    + rewrite bool_decide_eq_true_2 by eauto. cbn. apply IH.
    + rewrite bool_decide_eq_false_2 by (by intros [? ?]). done.
  - destruct kind; [done | |].
    + cbn -[member]. destruct (member (JNative array_kind name text) part) as [v |] eqn:Hv.
      * rewrite bool_decide_eq_true_2 by eauto. cbn. apply IH.
      * rewrite bool_decide_eq_false_2 by (by intros [? ?]). done.
    + cbn -[member]. destruct (member (JNative object_kind name text) part) as [v |] eqn:Hv.
      * rewrite bool_decide_eq_true_2 by eauto. cbn. apply IH.
      * rewrite bool_decide_eq_false_2 by (by intros [? ?]). done.
Qed.

Lemma extractValueFromResult_follow result path :
  extractValueFromResult result path =
    Ok (default JUndefined
          (follow (path_fields path)
             (ResponseData.body (ExecutionResult.responseData result)))).
Proof.
  unfold extractValueFromResult, path_fields.
  destruct (String.eqb_spec path "") as [-> | _]; [done |].
  destruct (String.eqb_spec path ".") as [-> | _]; [done |].
  apply walk_follow.
Qed.


(** A field is a member, and the member that is asked for first. *)
Lemma member_field_own current part v :
  field current part = Some v → member_field current part = Some v.
Proof.
  destruct current as [| | | | | elements | props | kind name text]; try done;
    unfold field, member_field, member; by intros ->.
Qed.

Lemma follow_own parts current v :
  lookup_path parts current = Some v → follow parts current = Some v.
Proof.
  revert current. induction parts as [| part rest IH]; intros current; [done |].
  cbn. destruct (field current part) as [next |] eqn:Hfield; [| done].
  rewrite (member_field_own _ _ _ Hfield). cbn. apply IH.
Qed.


End ExtractionFacts.

Section ResolutionFacts.
Import Js Engine.
Context `{Runtime}.


End ResolutionFacts.



(** The empty string against [sample_definition], whose pattern is
    ill-formed: the pattern is not looked at. *)
Lemma empty_value_short_circuit_witness :
  SchemaValidation.validateParameter (H := sample_regexp) (H0 := sample_builtins) (Js.JString "") sample_definition
  = Ok (ValidationResult.mk false ["Required parameter 'id' is missing or empty"] []).
Proof.
  exact (empty_value_short_circuit (H := sample_regexp) (H0 := sample_builtins) (Js.JString "") sample_definition
           (or_intror (or_intror eq_refl))).
Defined.

(** A boolean against [sample_definition]: one error, not valid. *)
Lemma isValid_iff_no_errors_witness :
  ValidationResult.isValid
    (ValidationResult.mk false
       ["Parameter 'id' expected type 'number' but got 'boolean'"] []) = true
  ↔ ValidationResult.errors
      (ValidationResult.mk false
         ["Parameter 'id' expected type 'number' but got 'boolean'"] []) = [].
Proof.
  exact (proj1 (proj2 (isValid_iff_no_errors (H := sample_regexp) (H0 := sample_builtins)))
           (Js.JBool true) sample_definition _ eq_refl).
Defined.

(** ** Per-endpoint execution *)
Section ExecutionFacts.
Import Js Engine.
Context `{Runtime} `{Collaborators} (globalAuth : option AuthConfig.t).

Lemma bind_Ok {A B} (m : outcome A) (k : A → outcome B) (b : B) :
  m ≫= k = Ok b → ∃ a, m = Ok a ∧ k a = Ok b.
Proof. destruct m as [a |]; [eauto | done]. Qed.

(** What [perform] returns is a successful result for this endpoint that
    carries the status and the body of the response. *)
Lemma perform_Ok ctx endpoint options result :
  perform globalAuth ctx endpoint options = Ok result →
  ExecutionResult.endpointId result = E.id endpoint
  ∧ ExecutionResult.success result = true
  ∧ ∃ requestConfig response,
      executeHttpRequest requestConfig options = Ok response
      ∧ ExecutionResult.statusCode result = HttpResponse.status response
      ∧ ResponseData.body (ExecutionResult.responseData result) = HttpResponse.data response.
Proof.
  unfold perform. intros Hperform.
  apply bind_Ok in Hperform as (_ & _ & Hperform).
  apply bind_Ok in Hperform as (_ & _ & Hperform).
  apply bind_Ok in Hperform as (resolvedData & _ & Hperform).
  apply bind_Ok in Hperform as ([requestConfig resolvedData'] & _ & Hperform).
  apply bind_Ok in Hperform as (requestConfig' & _ & Hperform).
  apply bind_Ok in Hperform as (response & Hresponse & Hperform).
  apply bind_Ok in Hperform as (size & _ & [= <-]).
  cbn. eauto 10.
Qed.

Lemma validateResponse_unexpected endpoint result :
  (∀ resp, resp ∈ E.expectedResponse endpoint →
           ResponseSchema.statusCode resp ≠ ExecutionResult.statusCode result) →
  validateResponse endpoint result =
    Throw (Error ("Unexpected status code: " +:+ pretty (ExecutionResult.statusCode result))).
Proof.
  intros Hnone. unfold validateResponse.
  destruct (List.find _ _) as [resp |] eqn:Hfind; [| done].
  apply List.find_some in Hfind as [Hin Heq].
  apply bool_decide_eq_true in Heq. apply list_elem_of_In in Hin.
  by destruct (Hnone resp Hin).
Qed.

(** C6: whenever the [try] block of [executeEndpoint] ends with a throw,
    at whatever step (every throw of [perform], that is of validation,
    connection and AI resolution, authentication and transport, ends the
    block), [executeEndpoint] returns the synthetic failed result (no
    success, status code 0, no headers, query parameters or body in the
    request, an empty response, the message of the error) and the context
    holds that result under the endpoint's id; [executeFlow] then goes on
    with the next endpoint or stops, as [continueOnError] says. *)
Theorem executeEndpoint_catches_every_error ctx endpoint options ctx1 error :
  attempt globalAuth ctx endpoint options = (ctx1, Throw error) →
  executeEndpoint globalAuth ctx endpoint options
    = (record ctx1 (failure endpoint error), failure endpoint error)
  ∧ ExecutionContext.results (executeEndpoint globalAuth ctx endpoint options).1
      !! E.id endpoint = Some (failure endpoint error)
  ∧ failure endpoint error =
      ExecutionResult.mk (E.id endpoint) false 0
        (RequestData.mk (E.baseUrl endpoint +:+ E.path endpoint) (E.method endpoint)
           [] [] JUndefined)
        (ResponseData.mk [] JNull 0)
        (Some (error_message error))
  ∧ (∀ error', perform globalAuth ctx endpoint options = Throw error' →
               attempt globalAuth ctx endpoint options = (ctx, Throw error'))
  ∧ (∀ rest results,
       runFlow globalAuth ctx (endpoint :: rest) options results =
         if default false (ExecutionOptions.continueOnError options)
         then runFlow globalAuth (record ctx1 (failure endpoint error)) rest options
                (results ++ [failure endpoint error])
         else (record ctx1 (failure endpoint error), results ++ [failure endpoint error])).
Proof.
  intros Hattempt.
  assert (Hexecute : executeEndpoint globalAuth ctx endpoint options
                     = (record ctx1 (failure endpoint error), failure endpoint error)).
  { unfold executeEndpoint. by rewrite Hattempt. }
  split; [done |]. split; [| split; [done | split]].
  - rewrite Hexecute. cbn. apply lookup_insert_eq.
  - intros error' Hperform. unfold attempt. by rewrite Hperform.
  - intros rest results. cbn [runFlow]. rewrite Hexecute. cbn.
    by destruct (default false (ExecutionOptions.continueOnError options)).
Qed.

(** C5, amended: with response validation opted in, when the request went
    through and its status code is none of the expected ones, the [try]
    block throws only after the successful result (with the status code
    and the body of the response) was recorded under the endpoint's id;
    [executeEndpoint] then records the synthetic failed result under the
    same id, in place of the successful one, and returns it. *)
Theorem unexpected_status_recorded_then_replaced ctx endpoint options result :
  perform globalAuth ctx endpoint options = Ok result →
  ExecutionOptions.validateResponse options = Some true →
  (∀ resp, resp ∈ E.expectedResponse endpoint →
           ResponseSchema.statusCode resp ≠ ExecutionResult.statusCode result) →
  (ExecutionResult.success result = true
   ∧ ∃ requestConfig response,
       executeHttpRequest requestConfig options = Ok response
       ∧ ExecutionResult.statusCode result = HttpResponse.status response
       ∧ ResponseData.body (ExecutionResult.responseData result) = HttpResponse.data response)
  ∧ (∃ ctx1,
       attempt globalAuth ctx endpoint options
         = (ctx1, Throw (Error ("Unexpected status code: "
                                +:+ pretty (ExecutionResult.statusCode result))))
       ∧ ExecutionContext.results ctx1 !! E.id endpoint = Some result)
  ∧ (∃ failed,
       (executeEndpoint globalAuth ctx endpoint options).2 = failed
       ∧ ExecutionContext.results (executeEndpoint globalAuth ctx endpoint options).1
           !! E.id endpoint = Some failed
       ∧ ExecutionResult.success failed = false
       ∧ ExecutionResult.statusCode failed = 0%Z
       ∧ ExecutionResult.error failed
         = Some ("Unexpected status code: " +:+ pretty (ExecutionResult.statusCode result))).
Proof.
  intros Hperform Hopt Hnone.
  destruct (perform_Ok _ _ _ _ Hperform) as (Hid & Hsuccess & Hresponse).
  pose proof (validateResponse_unexpected endpoint result Hnone) as Hthrow.
  assert (Hattempt : attempt globalAuth ctx endpoint options
            = (record ctx result,
               Throw (Error ("Unexpected status code: "
                             +:+ pretty (ExecutionResult.statusCode result))))).
  { unfold attempt. by rewrite Hperform, Hopt; cbn; rewrite Hthrow. }
  split; [done |]. split.
  - eexists. split; [exact Hattempt |]. cbn. rewrite Hid. apply lookup_insert_eq.
  - eexists. split; [reflexivity |].
    unfold executeEndpoint. rewrite Hattempt. cbn.
    split; [apply lookup_insert_eq | done].
Qed.

End ExecutionFacts.

(** C5, as stated, fails: after the failure the context holds the failed
    result under the endpoint's id, not the successful one that the [try]
    block had recorded. *)
Lemma successful_result_does_not_remain :
  ExecutionContext.results
    (Engine.attempt (H := sample_runtime) (H0 := sample_collaborators "" 404 not_found_body)
       None empty_context get_user validating).1 !! "get-user" = Some get_user_404
  ∧ ExecutionContext.results
      (Engine.executeEndpoint (H := sample_runtime)
         (H0 := sample_collaborators "" 404 not_found_body)
         None empty_context get_user validating).1 !! "get-user"
    = Some (ExecutionResult.mk "get-user" false 0
              (RequestData.mk "https://api.example.com/users/1" GET [] [] Js.JUndefined)
              (ResponseData.mk [] Js.JNull 0)
              (Some "Unexpected status code: 404")).
Proof. split; vm_compute; reflexivity. Qed.

(** [get_user] answered with 404: the result returned is the failed one. *)
Lemma unexpected_status_recorded_then_replaced_witness :
  ExecutionResult.success
    (Engine.executeEndpoint (H := sample_runtime)
       (H0 := sample_collaborators "" 404 not_found_body)
       None empty_context get_user validating).2 = false.
Proof.
  destruct (unexpected_status_recorded_then_replaced
              (H := sample_runtime) (H0 := sample_collaborators "" 404 not_found_body)
              None empty_context get_user validating get_user_404)
    as (_ & _ & failed & Hreturned & _ & Hfailed & _).
  - vm_compute. reflexivity.
  - reflexivity.
  - intros resp Hin. apply list_elem_of_singleton in Hin as ->. vm_compute. discriminate.
  - rewrite Hreturned. exact Hfailed.
Defined.

(** [no_base_url] fails validation: the failed result is recorded and
    returned. *)
Lemma executeEndpoint_catches_every_error_witness :
  Engine.executeEndpoint (H := sample_runtime)
    (H0 := sample_collaborators "" 200 Js.JNull) None empty_context no_base_url validating
  = (Engine.record empty_context
       (Engine.failure no_base_url (Error "Endpoint validation failed: Base URL is required")),
     Engine.failure no_base_url (Error "Endpoint validation failed: Base URL is required")).
Proof.
  apply (executeEndpoint_catches_every_error
           (H := sample_runtime) (H0 := sample_collaborators "" 200 Js.JNull)
           None empty_context no_base_url validating empty_context).
  vm_compute. reflexivity.
Defined.

(** ** Sanitation of the model's answer and merge of its values *)

Section PatternFacts.
Import Pattern.

Lemma exec_length atoms s texts :
  exec atoms s = Some texts → length texts = length atoms.
Proof.
  revert s texts. induction atoms as [| [class | class] rest IH]; intros s texts.
  - cbn. by destruct s; intros [= <-].
  - cbn. destruct s as [| c s']; [done |]. destruct (class c); [| done].
    destruct (exec rest s') as [texts' |] eqn:Hrest; [| done].
    intros [= <-]. cbn. f_equal. eauto.
  - cbn [exec]. revert texts. induction s as [| c s' IHs]; intros texts.
    + destruct (exec rest "") as [texts' |] eqn:Hrest; [| done].
      intros [= <-]. cbn. f_equal. eauto.
    + assert (Hstop : cons EmptyString <$> exec rest (String c s') = Some texts →
                      length texts = S (length rest)).
      { destruct (exec rest (String c s')) as [texts' |] eqn:Hrest; [| done].
        intros [= <-]. cbn. f_equal. eauto. }
      destruct (class c); [| exact Hstop].
      match goal with |- context [match ?x with Some _ => _ | None => _ end] =>
        destruct x as [[| m ms] |] eqn:Hmany end; try exact Hstop.
      intros [= <-]. apply (IHs _ eq_refl).
Qed.

Lemma exec_second_atom class0 class1 rest s texts :
  exec (Many class0 :: One class1 :: rest) s = Some texts →
  ∃ t0 c more, texts = t0 :: String c EmptyString :: more.
Proof.
  cbn [exec]. revert texts. induction s as [| c s' IHs]; intros texts.
  - cbn. done.
  - assert (Hstop : cons EmptyString <$> exec (One class1 :: rest) (String c s') = Some texts →
                    ∃ t0 c more, texts = t0 :: String c EmptyString :: more).
    { cbn. destruct (class1 c); [| done].
      destruct (exec rest s') as [texts' |]; [| done]. intros [= <-]. eauto. }
    destruct (class0 c); [| exact Hstop].
    match goal with |- context [match ?x with Some _ => _ | None => _ end] =>
      destruct x as [[| m ms] |] eqn:Hmany end; try exact Hstop.
    intros [= <-]. destruct (IHs _ eq_refl) as (t0 & c1 & more & [= -> ->]). eauto.
Qed.

(** Capture group 1 of a match of either pattern is never empty. *)
Lemma group1_nonempty atoms s texts :
  atoms = object_pattern ∨ atoms = array_pattern →
  exec atoms s = Some texts → String.eqb (group1 texts) "" = false.
Proof.
  intros Hatoms Hexec.
  assert (∃ t0 c more, texts = t0 :: String c EmptyString :: more) as (t0 & c & more & ->).
  { destruct Hatoms as [-> | ->]; eapply exec_second_atom, Hexec. }
  apply exec_length in Hexec.
  destruct more as [| b [| d more]];
    [by destruct Hatoms as [-> | ->] | by destruct Hatoms as [-> | ->] | done].
Qed.

End PatternFacts.

Section MergeFacts.
Import Js Engine.
Context `{Runtime} `{Collaborators}.


Lemma elem_of_obj_keys {A} (props : list (string * A)) key :
  key ∈ obj_keys props ↔ is_Some (obj_get props key).
Proof.
  induction props as [| [k w] rest IH]; cbn.
  - rewrite elem_of_nil. split; [done | by intros [? ?]].
  - rewrite elem_of_cons, IH. destruct (String.eqb_spec k key) as [-> | Hne].
    + split; [eauto | by left].
    + split; [by intros [-> | ?] | by right].
Qed.




(** C4: the fenced example sanitizes to the object text; but
    [cleanAiJsonResponse] never throws, it returns the cleaned text when
    neither pattern finds a structure, and the failure of [JSON.parse] on
    that text is reported by the slot resolver exactly as the failure to
    parse an extracted structure is: there is no error of its own for a
    missing structure. *)
Theorem missing_structure_is_passed_to_the_parser :
  cleanAiJsonResponse ("```json" +:+ Strings.LF +:+ id_1_text +:+ Strings.LF +:+ "```")
    = Ok id_1_text
  ∧ cleanAiJsonResponse "Sorry, I cannot help." = Ok "Sorry, I cannot help."
  ∧ (∀ response, ∃ text, cleanAiJsonResponse response = Ok text)
  ∧ (∀ response,
       Pattern.exec Pattern.object_pattern
         (Strings.trim (Strings.remove_all "```"
            (Strings.remove_all "```json" (Strings.trim response)))) = None →
       Pattern.exec Pattern.array_pattern
         (Strings.trim (Strings.remove_all "```"
            (Strings.remove_all "```json" (Strings.trim response)))) = None →
       cleanAiJsonResponse response =
         Ok (Strings.trim (Strings.remove_all "```"
               (Strings.remove_all "```json" (Strings.trim response)))))
  ∧ (∀ results endpoint data prompt response text message,
       render_prompt "query-parameters-prompt.hbs" endpoint results = Ok prompt →
       chat prompt "gpt-4.1" = Ok response →
       cleanAiJsonResponse response = Ok text →
       JSON_parse text = Throw (SyntaxError message) →
       resolveQueryParameters results endpoint data =
         Throw (Error ("AI query parameter response is not valid JSON: " +:+ message))).
Proof.
  split; [by vm_compute |]. split; [by vm_compute |]. split; [| split].
  - intros response. unfold cleanAiJsonResponse.
    destruct (Pattern.exec Pattern.object_pattern _) as [texts |] eqn:Hobject.
    { rewrite (group1_nonempty _ _ _ (or_introl eq_refl) Hobject). eauto. }
    destruct (Pattern.exec Pattern.array_pattern _) as [texts |] eqn:Harray.
    { rewrite (group1_nonempty _ _ _ (or_intror eq_refl) Harray). eauto. }
    eauto.
  - intros response Hobject Harray. unfold cleanAiJsonResponse.
    by rewrite Hobject, Harray.
  - intros results endpoint data prompt response text message Hprompt Hchat Hclean Hparse.
    unfold resolveQueryParameters, askModel.
    rewrite Hprompt. cbn. rewrite Hchat. cbn. rewrite Hclean. cbn. rewrite Hparse. done.
Qed.


End MergeFacts.



(** ** The dependency order *)

Section SortFacts.
Import Engine.
Context (endpoints : list E.t).
Implicit Types (st : SortState) (e d a : E.t) (x : string).

Abbreviation resolve := (find_endpoint endpoints).
Abbreviation dep := (depends_on endpoints).

Abbreviation first := (is_first endpoints).
Abbreviation ids := (id_set endpoints).
Abbreviation inv := (traversal_inv endpoints).
Abbreviation ends_well := (traversal_ends_well endpoints).
Abbreviation on_stack := (visiting_on_stack endpoints).
Abbreviation visit_spec := (visit_specification endpoints).

Lemma resolve_Some x e : resolve x = Some e → e ∈ endpoints ∧ E.id e = x.
Proof.
  intros Hfind. apply List.find_some in Hfind as [Hin Heq].
  split; [by apply list_elem_of_In | by apply String.eqb_eq].
Qed.

Lemma resolve_first x e : resolve x = Some e → first e.
Proof.
  intros Hfind. destruct (resolve_Some _ _ Hfind) as [_ <-]. exact Hfind.
Qed.

Lemma first_inj a b : first a → first b → E.id a = E.id b → a = b.
Proof. unfold is_first. intros Ha Hb Heq. rewrite Heq in Ha. congruence. Qed.

Lemma dep_first e d : dep e d → first d.
Proof. intros (c & _ & Hfind). by eapply resolve_first. Qed.

Lemma dep_elem_of e d : dep e d → d ∈ endpoints.
Proof. intros (c & _ & Hfind). by apply resolve_Some in Hfind as [? _]. Qed.

Lemma elem_of_ids e : e ∈ endpoints → E.id e ∈ ids.
Proof.
  intros Hin. apply elem_of_list_to_set, list_elem_of_fmap. eauto.
Qed.

Lemma find_app {A} (f : A → bool) (l1 l2 : list A) :
  List.find f (l1 ++ l2) =
    match List.find f l1 with Some y => Some y | None => List.find f l2 end.
Proof. induction l1 as [| y l1 IH]; cbn; [done |]. by destruct (f y). Qed.

(** A root of the traversal stands for itself unless an earlier root has
    its id. *)
Lemma resolve_root done r todo :
  endpoints = done ++ r :: todo →
  first r ∨ ∃ r0, r0 ∈ done ∧ E.id r0 = E.id r.
Proof.
  intros Hsplit. unfold is_first, find_endpoint. rewrite Hsplit, find_app.
  destruct (List.find _ done) as [r0 |] eqn:Hfind.
  - right. apply List.find_some in Hfind as [Hin Heq].
    exists r0. split; [by apply list_elem_of_In | by apply String.eqb_eq].
  - left. cbn. by rewrite String.eqb_refl.
Qed.

Lemma first_unique_ids e : NoDup (E.id <$> endpoints) → e ∈ endpoints → first e.
Proof.
  intros Hnodup Hin. apply list_elem_of_split in Hin as (done & todo & Hsplit).
  destruct (resolve_root _ _ _ Hsplit) as [Hfirst | (r0 & Hin0 & Heq)]; [done |].
  rewrite Hsplit, fmap_app, fmap_cons in Hnodup.
  apply NoDup_app in Hnodup as (_ & Hdisjoint & _).
  destruct (Hdisjoint (E.id r0)).
  - apply list_elem_of_fmap. eauto.
  - rewrite Heq. apply list_elem_of_here.
Qed.

Lemma size_ids : (size ids ≤ length endpoints)%nat.
Proof.
  unfold id_set. induction endpoints as [| e l IH]; cbn.
  - by rewrite size_empty.
  - rewrite size_union_alt, size_singleton.
    pose proof (subseteq_size (list_to_set (E.id <$> l) ∖ {[E.id e]})
                  (list_to_set (E.id <$> l) : gset string)) as Hle.
    specialize (Hle (subseteq_difference_l _ _ _ (reflexivity _))). lia.
Qed.

Lemma inv_sorted_elem_of st d :
  inv st → first d → E.id d ∈ visited st → d ∈ sorted st.
Proof.
  intros Hinv Hfirst Hvisited.
  apply (inv_visited _ Hinv) in Hvisited as (d' & Hin & Heq).
  by rewrite <- (first_inj d' d (inv_first _ Hinv _ Hin) Hfirst Heq).
Qed.

Lemma inv_visited_mono st more x :
  inv st → ∀ st', inv st' → sorted st' = sorted st ++ more →
  x ∈ visited st → x ∈ visited st'.
Proof.
  intros Hinv st' Hinv' Hsorted Hx.
  apply (inv_visited _ Hinv) in Hx as (e & Hin & Heq).
  apply (inv_visited _ Hinv'). exists e. rewrite Hsorted, elem_of_app. eauto.
Qed.

(** The loop over the connections of [e], given the specification of the
    nested visits. *)
Lemma visit_dependencies fuel e cs :
  visit_spec fuel → first e →
  (∀ c, c ∈ cs → c ∈ E.connections e) →
  ∀ st,
    inv st → size ids < fuel + size (visiting st) →
    on_stack (fun a => rtc dep a e) st →
    ends_well (rtc dep e)
      (fun st' => ∀ c d, c ∈ cs → resolve (C.sourceNodeId c) = Some d → E.id d ∈ visited st')
      st
      (for_each_fuelled
         (fun st connection =>
            match resolve (C.sourceNodeId connection) with
            | Some dependency => visit fuel endpoints st dependency
            | None => mret st
            end) cs st).
Proof.
  intros Hvisit Hfirst. induction cs as [| c cs IH]; intros Hcs st Hinv Hsize Hstack.
  { cbn. split; [done |]. split; [done |]. split; [by intros ? ? ?%elem_of_nil |].
    exists []. split; [by rewrite app_nil_r | by intros ? ?%elem_of_nil]. }
  cbn [for_each_fuelled].
  assert (Hstep : ends_well (rtc dep e)
            (fun st' => ∀ d, resolve (C.sourceNodeId c) = Some d → E.id d ∈ visited st') st
            (match resolve (C.sourceNodeId c) with
             | Some dependency => visit fuel endpoints st dependency
             | None => mret st
             end)).
  { destruct (resolve (C.sourceNodeId c)) as [d |] eqn:Hd.
    - assert (Hdep : dep e d) by (exists c; split; [apply Hcs, list_elem_of_here | done]).
      pose proof (Hvisit st d Hinv (dep_elem_of _ _ Hdep) (or_introl (dep_first _ _ Hdep))
                    Hsize) as Hd_visit.
      destruct (visit fuel endpoints st d) as [[st' | error] |]; cbn in *.
      + destruct Hd_visit as (Hinv' & Hvisiting & Hvisited & more & Hsorted & Hreached).
        { intros x Hx. destruct (Hstack x Hx) as (a & Ha & Hid & Hreach).
          exists a. split; [done |]. split; [done |].
          eapply tc_rtc_l; [exact Hreach | by apply tc_once]. }
        split; [done |]. split; [done |]. split; [by intros ? [= <-] |].
        exists more. split; [done |]. intros a Ha. eapply rtc_l; eauto.
      + apply Hd_visit. intros x Hx. destruct (Hstack x Hx) as (a & Ha & Hid & Hreach).
        exists a. split; [done |]. split; [done |].
        eapply tc_rtc_l; [exact Hreach | by apply tc_once].
      + apply Hd_visit. intros x Hx. destruct (Hstack x Hx) as (a & Ha & Hid & Hreach).
        exists a. split; [done |]. split; [done |].
        eapply tc_rtc_l; [exact Hreach | by apply tc_once].
    - cbn. split; [done |]. split; [done |]. split; [done |].
      exists []. split; [by rewrite app_nil_r | by intros ? ?%elem_of_nil]. }
  destruct (match resolve (C.sourceNodeId c) with
            | Some dependency => visit fuel endpoints st dependency
            | None => mret st
            end) as [[st1 | error] |]; cbn in Hstep |- *; [| done | done].
  destruct Hstep as (Hinv1 & Hvisiting1 & Hvisited1 & more1 & Hsorted1 & Hreached1).
  specialize (IH (fun c' Hc' => Hcs c' (list_elem_of_further _ _ _ Hc')) st1 Hinv1).
  rewrite Hvisiting1 in IH. specialize (IH Hsize).
  assert (Hstack1 : on_stack (fun a => rtc dep a e) st1).
  { intros x Hx. apply Hstack. by rewrite <- Hvisiting1. }
  specialize (IH Hstack1).
  destruct (for_each_fuelled _ cs st1) as [[st2 | error] |]; cbn in IH |- *; [| done | done].
  destruct IH as (Hinv2 & Hvisiting2 & Hvisited2 & more2 & Hsorted2 & Hreached2).
  split; [done |]. split; [congruence |]. split.
  - intros c' d [-> | Hc']%elem_of_cons Hd; [| by eapply Hvisited2].
    eapply (inv_visited_mono st1 more2); eauto.
  - exists (more1 ++ more2). split; [by rewrite Hsorted2, Hsorted1, app_assoc |].
    intros a [Ha | Ha]%elem_of_app; eauto.
Qed.

Lemma visit_correct fuel : visit_spec fuel.
Proof.
  induction fuel as [| fuel IH]; intros st e Hinv He Hfirst Hsize Hstack.
  { pose proof (subseteq_size _ _ (inv_visiting _ Hinv)). lia. }
  cbn [visit].
  destruct (bool_decide_reflect (E.id e ∈ visiting st)) as [Hvisiting | Hvisiting].
  { (* the endpoint is on the stack of visits *)
    cbn. destruct (Hstack _ Hvisiting) as (a & Ha & Hid & Hreach).
    assert (first e) as Hfirst_e.
    { destruct Hfirst as [? | Hvisited]; [done |].
      by destruct (inv_disjoint _ Hinv _ Hvisited). }
    rewrite (first_inj a e Ha Hfirst_e Hid) in Hreach. by exists e. }
  destruct (bool_decide_reflect (E.id e ∈ visited st)) as [Hvisited | Hvisited].
  { cbn. split; [done |]. split; [done |]. split; [done |].
    exists []. split; [by rewrite app_nil_r | by intros ? ?%elem_of_nil]. }
  assert (first e) as Hfirst_e by (by destruct Hfirst).
  set (st1 := mkSortState (sorted st) (visited st) ({[E.id e]} ∪ visiting st)).
  assert (Hinv1 : inv st1).
  { destruct Hinv as [Hv Hf Hn Ho Hd Hs]. split; cbn; try done.
    - intros x Hx. rewrite not_elem_of_union, not_elem_of_singleton.
      split; [by intros -> | by apply Hd].
    - apply union_subseteq. split; [| done].
      by apply singleton_subseteq_l, elem_of_ids. }
  assert (Hsize1 : size ids < fuel + size (visiting st1)).
  { cbn. rewrite size_union, size_singleton; [lia |].
    by intros x ->%elem_of_singleton. }
  assert (Hstack1 : on_stack (fun a => rtc dep a e) st1).
  { intros x [->%elem_of_singleton | Hx]%elem_of_union.
    - by exists e.
    - destruct (Hstack x Hx) as (a & Ha & Hid & Hreach).
      exists a. split; [done |]. split; [done |]. by apply tc_rtc. }
  pose proof (visit_dependencies fuel e (E.connections e) IH Hfirst_e (fun c Hc => Hc)
                st1 Hinv1 Hsize1 Hstack1) as Hloop.
  destruct (for_each_fuelled _ (E.connections e) st1) as [[st2 | error] |];
    cbn in Hloop |- *; [| done | done].
  destruct Hloop as (Hinv2 & Hvisiting2 & Hdeps & more & Hsorted2 & Hreached).
  cbn in Hvisiting2, Hsorted2.
  assert (Hfresh : E.id e ∉ visited st2).
  { intros Hin. apply (inv_disjoint _ Hinv2 _ Hin). rewrite Hvisiting2.
    apply elem_of_union. left. by apply elem_of_singleton. }
  split; [| split; [| split]].
  - destruct Hinv2 as [Hv Hf Hn Ho Hd Hs]. split; cbn.
    + intros x. rewrite elem_of_union, elem_of_singleton, Hv. split.
      * intros [-> | (e' & Hin & Hid)].
        -- exists e. split; [apply elem_of_app; right; apply list_elem_of_here | done].
        -- exists e'. split; [apply elem_of_app; by left | done].
      * intros (e' & [Hin | ->%list_elem_of_singleton]%elem_of_app & Hid); eauto.
    + intros e' [Hin | ->%list_elem_of_singleton]%elem_of_app; eauto.
    + rewrite fmap_app. apply NoDup_app. split; [done |]. split; [| apply NoDup_singleton].
      intros x Hx ->%list_elem_of_singleton. apply Hfresh, Hv.
      apply list_elem_of_fmap in Hx as (e' & Hid & Hin). eauto.
    + intros l1 e' l2 Hsplit d Hdep.
      destruct l2 as [| y l2 _] using rev_ind.
      * apply app_inj_tail in Hsplit as [<- <-].
        destruct Hdep as (c & Hc & Hd_resolve).
        eapply inv_sorted_elem_of; [by split | by eapply resolve_first | by eapply Hdeps].
      * rewrite app_comm_cons, app_assoc in Hsplit.
        apply app_inj_tail in Hsplit as [Hsplit _]. eauto.
    + intros x [->%elem_of_singleton | Hx]%elem_of_union.
      * intros [_ Hne]%elem_of_difference. by apply Hne, elem_of_singleton.
      * intros [Hin _]%elem_of_difference. by apply (Hd x).
    + etrans; [apply subseteq_difference_l; reflexivity | done].
  - cbn. rewrite Hvisiting2. apply set_eq. intros x.
    rewrite elem_of_difference, elem_of_union, elem_of_singleton.
    split; [by intros [[-> | ?] ?] |]. intros Hx. split; [by right | by intros ->].
  - cbn. apply elem_of_union. left. by apply elem_of_singleton.
  - cbn. exists (more ++ [e]). split; [by rewrite Hsorted2, app_assoc |].
    intros a [Ha | ->%list_elem_of_singleton]%elem_of_app; [eauto | apply rtc_refl].
Qed.

(** The loop over the roots: [todo] is the part of the input that is
    traversed, [done] the part before it. *)
Lemma visit_roots fuel (todo done rest : list E.t) st :
  endpoints = done ++ todo ++ rest →
  length endpoints < fuel →
  inv st → visiting st = ∅ →
  (∀ r, r ∈ done → E.id r ∈ visited st) →
  ends_well (fun a => ∃ r, r ∈ todo ∧ rtc dep r a)
    (fun st' => ∀ r, r ∈ done ++ todo → E.id r ∈ visited st')
    st (for_each_fuelled (visit fuel endpoints) todo st).
Proof.
  intros Hsplit Hfuel. revert done st Hsplit.
  induction todo as [| r todo IH]; intros done st Hsplit Hinv Hvisiting Hdone.
  { cbn. split; [done |]. split; [done |].
    split; [by intros r; rewrite app_nil_r; apply Hdone |].
    exists []. split; [by rewrite app_nil_r | by intros ? ?%elem_of_nil]. }
  cbn [for_each_fuelled].
  assert (Hr : r ∈ endpoints).
  { rewrite Hsplit, elem_of_app, elem_of_app, elem_of_cons. auto. }
  assert (Hroot : first r ∨ E.id r ∈ visited st).
  { destruct (resolve_root done r (todo ++ rest) Hsplit) as [? | (r0 & Hin & <-)];
      [by left | right; by apply Hdone]. }
  pose proof (visit_correct fuel st r Hinv Hr Hroot) as Hvisit.
  assert (Hsize : size ids < fuel + size (visiting st)) by (pose proof size_ids; lia).
  assert (Hstack : on_stack (fun a => tc dep a r) st).
  { intros x Hx. rewrite Hvisiting in Hx. by apply elem_of_empty in Hx. }
  specialize (Hvisit Hsize Hstack).
  destruct (visit fuel endpoints st r) as [[st1 | error] |]; cbn in Hvisit |- *;
    [| done | done].
  destruct Hvisit as (Hinv1 & Hvisiting1 & Hvisited1 & more1 & Hsorted1 & Hreached1).
  specialize (IH (done ++ [r]) st1).
  rewrite <- app_assoc in IH. specialize (IH Hsplit Hinv1).
  rewrite Hvisiting1 in IH. specialize (IH Hvisiting).
  assert (Hdone1 : ∀ r', r' ∈ done ++ [r] → E.id r' ∈ visited st1).
  { intros r' [Hr' | ->%list_elem_of_singleton]%elem_of_app; [| done].
    eapply (inv_visited_mono st more1); eauto. }
  specialize (IH Hdone1).
  destruct (for_each_fuelled _ todo st1) as [[st2 | error] |]; cbn in IH |- *;
    [| done | done].
  destruct IH as (Hinv2 & Hvisiting2 & Hvisited2 & more2 & Hsorted2 & Hreached2).
  split; [done |]. split; [congruence |]. split.
  - intros r' Hr'. apply Hvisited2. by rewrite <- app_assoc.
  - exists (more1 ++ more2). split; [by rewrite Hsorted2, Hsorted1, app_assoc |].
    intros a [Ha | Ha]%elem_of_app.
    + exists r. split; [apply list_elem_of_here | eauto].
    + destruct (Hreached2 a Ha) as (r' & Hr' & Hreach).
      exists r'. split; [by apply list_elem_of_further | done].
Qed.

Lemma inv_initial : inv (mkSortState [] ∅ ∅).
Proof.
  split; cbn.
  - intros x. split; [by intros ?%elem_of_empty | by intros (? & ?%elem_of_nil & _)].
  - by intros e ?%elem_of_nil.
  - apply NoDup_nil_2.
  - by intros [] ? ?.
  - by intros x ?%elem_of_empty.
  - apply empty_subseteq.
Qed.

(** In a state that satisfies the invariant and has visited every id of
    the input, the order is complete and there is no cycle. *)
Lemma inv_complete st :
  inv st → (∀ r, r ∈ endpoints → E.id r ∈ visited st) →
  (∀ e, e ∈ sorted st ↔ e ∈ endpoints ∧ first e)
  ∧ (∀ e d, e ∈ sorted st → dep e d → before (sorted st) d e)
  ∧ (∀ e, ¬ on_cycle endpoints e).
Proof.
  intros Hinv Hall.
  assert (Hmem : ∀ e, e ∈ sorted st ↔ e ∈ endpoints ∧ first e).
  { intros e. split.
    - intros Hin. pose proof (inv_first _ Hinv _ Hin) as Hfirst.
      split; [| done]. by apply resolve_Some in Hfirst as [? _].
    - intros [Hin Hfirst]. eapply inv_sorted_elem_of; eauto. }
  assert (Hbefore : ∀ e d, e ∈ sorted st → dep e d → before (sorted st) d e).
  { intros e d Hin Hdep. apply list_elem_of_split in Hin as (l1 & l2 & Hsplit).
    exists l1, l2. split; [done |]. by eapply (inv_order _ Hinv). }
  split; [done |]. split; [done |].
  (* along a chain of dependencies the position in [sorted st] decreases *)
  assert (Hchain : ∀ e d, tc dep e d → e ∈ sorted st →
            ∃ i j, sorted st !! i = Some d ∧ sorted st !! j = Some e ∧ i < j).
  { intros e d Htc. induction Htc as [e d Hdep | e d d' Hdep Htc IH]; intros Hin.
    - destruct (Hbefore e d Hin Hdep) as (l1 & l2 & Hsplit & Hd).
      apply list_elem_of_lookup in Hd as [i Hi].
      exists i, (length l1). rewrite Hsplit.
      split; [by apply lookup_app_l_Some |].
      split; [by rewrite list_lookup_middle | by eapply lookup_lt_Some].
    - destruct (Hbefore e d Hin Hdep) as (l1 & l2 & Hsplit & Hd).
      assert (Hd_in : d ∈ sorted st) by (rewrite Hsplit, elem_of_app; by left).
      destruct (IH Hd_in) as (i & j & Hi & Hj & Hlt).
      apply list_elem_of_lookup in Hd as [k Hk].
      assert (Hk' : sorted st !! k = Some d) by (rewrite Hsplit; by apply lookup_app_l_Some).
      assert (j = k) as ->.
      { eapply NoDup_lookup; [eapply NoDup_fmap_1, inv_nodup, Hinv | done | done]. }
      exists i, (length l1). split; [done |].
      split; [by rewrite Hsplit, list_lookup_middle |].
      apply lookup_lt_Some in Hk. lia. }
  intros e Hcycle.
  assert (Htarget : ∀ a b, tc dep a b → b ∈ endpoints ∧ first b).
  { intros a b Htc. induction Htc as [a b Hdep | a b b' Hdep Htc IH]; [| done].
    split; [by eapply dep_elem_of | by eapply dep_first]. }
  assert (He : e ∈ sorted st) by (by eapply Hmem, Htarget).
  destruct (Hchain e e Hcycle He) as (i & j & Hi & Hj & Hlt).
  assert (i = j); [| lia].
  eapply NoDup_lookup; [eapply NoDup_fmap_1, inv_nodup, Hinv | done | done].
Qed.

Lemma for_each_fuelled_app {S A} (body : S → A → fuelled S) (l1 l2 : list A) (s : S) :
  for_each_fuelled body (l1 ++ l2) s = for_each_fuelled body l1 s ≫= for_each_fuelled body l2.
Proof.
  revert s. induction l1 as [| y l1 IH]; intros s; cbn; [done |].
  destruct (body s y) as [[s' | error] |]; cbn; [apply IH | done | done].
Qed.

(** The traversal of the whole input. *)
Lemma sort_roots :
  ends_well (fun a => True) (fun st' => ∀ r, r ∈ endpoints → E.id r ∈ visited st')
    (mkSortState [] ∅ ∅)
    (for_each_fuelled (visit (S (length endpoints)) endpoints) endpoints (mkSortState [] ∅ ∅)).
Proof.
  pose proof (visit_roots (S (length endpoints)) endpoints [] [] (mkSortState [] ∅ ∅)) as Hroots.
  rewrite app_nil_r in Hroots.
  specialize (Hroots eq_refl (Nat.lt_succ_diag_r _) inv_initial eq_refl).
  destruct (for_each_fuelled _ endpoints _) as [[st' | error] |]; cbn in Hroots |- *.
  - destruct Hroots as (Hinv & Hvisiting & Hvisited & more & Hsorted & _);
      [by intros r ?%elem_of_nil |]. eauto 10.
  - apply Hroots. by intros r ?%elem_of_nil.
  - apply Hroots. by intros r ?%elem_of_nil.
Qed.

Lemma sortEndpointsByDependencies_spec :
  match sortEndpointsByDependencies endpoints with
  | OutOfFuel => False
  | Finished (Throw error) =>
      ∃ a, a ∈ endpoints ∧ on_cycle endpoints a ∧ error = circular (E.id a)
  | Finished (Ok sorted) =>
      (∀ e, e ∈ sorted ↔ e ∈ endpoints ∧ first e)
      ∧ NoDup sorted
      ∧ (∀ e d, e ∈ sorted → dep e d → before sorted d e)
      ∧ (∀ e, ¬ on_cycle endpoints e)
  end.
Proof.
  unfold sortEndpointsByDependencies. pose proof sort_roots as Hroots.
  destruct (for_each_fuelled _ endpoints _) as [[st' | error] |]; cbn in Hroots |- *;
    [| done | done].
  destruct Hroots as (Hinv & _ & Hvisited & _).
  destruct (inv_complete st' Hinv Hvisited) as (Hmem & Hbefore & Hacyclic).
  split; [done |]. split; [| done].
  eapply NoDup_fmap_1, inv_nodup, Hinv.
Qed.

End SortFacts.

(** C1: the resolver always returns or throws (the bound on the depth of
    the recursion is never reached). On an input without a dependency
    cycle it returns a list of the input's endpoints (each id once: the
    endpoint that the id stands for; a permutation of the input when its
    ids are distinct) in which every endpoint comes after the endpoints
    that its connections name as sources; sources that are not in the
    input impose nothing. On an input with a cycle it throws the error
    that names an endpoint on a cycle. The chain of the specification and
    a two-element cycle are the examples. *)
Theorem dependency_order_or_cycle_error :
  (∀ endpoints, ∃ r, Engine.sortEndpointsByDependencies endpoints = Finished r)
  ∧ (∀ endpoints,
     (∀ e, ¬ on_cycle endpoints e) →
     ∃ sorted,
       Engine.sortEndpointsByDependencies endpoints = Finished (Ok sorted)
       ∧ (∀ e, e ∈ sorted ↔ e ∈ endpoints ∧ is_first endpoints e)
       ∧ NoDup sorted
       ∧ (∀ e d, e ∈ sorted → depends_on endpoints e d → before sorted d e)
       ∧ (NoDup (ApiEndpoint.id <$> endpoints) →
          sorted ≡ₚ endpoints
          ∧ ∀ e c d, e ∈ endpoints → c ∈ ApiEndpoint.connections e → d ∈ endpoints →
                     ApiEndpoint.id d = EndpointConnection.sourceNodeId c →
                     before sorted d e))
  ∧ (∀ endpoints e,
       on_cycle endpoints e →
       ∃ a, a ∈ endpoints ∧ on_cycle endpoints a
            ∧ Engine.sortEndpointsByDependencies endpoints
              = Finished (Throw (Engine.circular (ApiEndpoint.id a))))
  ∧ Engine.sortEndpointsByDependencies [endpoint_C; endpoint_A; endpoint_B]
    = Finished (Ok [endpoint_A; endpoint_B; endpoint_C])
  ∧ Engine.sortEndpointsByDependencies [cyclic_A; cyclic_B]
    = Finished (Throw (Error "Circular dependency detected involving endpoint: A")).
Proof.
  split; [| split; [| split; [| split; by vm_compute]]].
  - intros endpoints.
    pose proof (sortEndpointsByDependencies_spec endpoints) as Hspec.
    destruct (Engine.sortEndpointsByDependencies endpoints) as [r |]; [eauto | done].
  - intros endpoints Hacyclic.
    pose proof (sortEndpointsByDependencies_spec endpoints) as Hspec.
    destruct (Engine.sortEndpointsByDependencies endpoints) as [[sorted | error] |];
      [| by destruct Hspec as (a & _ & Hcycle & _); destruct (Hacyclic a) | done].
    destruct Hspec as (Hmem & Hnodup & Hbefore & _).
    exists sorted. split; [done |]. split; [done |]. split; [done |]. split; [done |].
    intros Hids.
    assert (Hall : ∀ e, e ∈ endpoints → e ∈ sorted).
    { intros e He. apply Hmem. split; [done | by apply first_unique_ids]. }
    split.
    + apply NoDup_Permutation; [done | by eapply NoDup_fmap_1 |].
      intros e. split; [by intros [? _]%Hmem | apply Hall].
    + intros e c d He Hc Hd Hid. apply Hbefore; [by apply Hall |].
      exists c. split; [done |]. rewrite <- Hid. by apply first_unique_ids.
  - intros endpoints e Hcycle.
    pose proof (sortEndpointsByDependencies_spec endpoints) as Hspec.
    destruct (Engine.sortEndpointsByDependencies endpoints) as [[sorted | error] |];
      [by destruct Hspec as (_ & _ & _ & Hacyclic); destruct (Hacyclic e) | | done].
    destruct Hspec as (a & Ha & Hcycle_a & ->). eauto.
Qed.

(** The cycle between [cyclic_A] and [cyclic_B] is reported. *)
Lemma dependency_order_or_cycle_error_witness :
  ∃ a, a ∈ [cyclic_A; cyclic_B] ∧ on_cycle [cyclic_A; cyclic_B] a
       ∧ Engine.sortEndpointsByDependencies [cyclic_A; cyclic_B]
         = Finished (Throw (Engine.circular (ApiEndpoint.id a))).
Proof.
  apply (proj1 (proj2 (proj2 dependency_order_or_cycle_error)) [cyclic_A; cyclic_B] cyclic_A).
  apply (tc_l _ cyclic_A cyclic_B cyclic_A).
  - exists (Engine.connection_from "B" "A"). split; [apply list_elem_of_here | reflexivity].
  - apply tc_once.
    exists (Engine.connection_from "A" "B"). split; [apply list_elem_of_here | reflexivity].
Defined.

(** C9, as stated, fails: B and C are not reachable from one another, B
    precedes C in the input, and C precedes B in the order returned,
    because A, which depends on C, is visited first. *)
Lemma unconstrained_pair_is_reordered :
  Engine.sortEndpointsByDependencies [late_A; late_B; late_C]
    = Finished (Ok [late_C; late_A; late_B])
  ∧ (∀ d, ¬ depends_on [late_A; late_B; late_C] late_B d)
  ∧ (∀ d, ¬ depends_on [late_A; late_B; late_C] late_C d)
  ∧ before [late_A; late_B; late_C] late_B late_C
  ∧ before [late_C; late_A; late_B] late_C late_B.
Proof.
  split; [by vm_compute |].
  split; [by intros d (c & ?%elem_of_nil & _) |].
  split; [by intros d (c & ?%elem_of_nil & _) |].
  split.
  - exists [late_A; late_B], []. split; [done |]. apply list_elem_of_further, list_elem_of_here.
  - exists [late_C; late_A], []. split; [done |]. apply list_elem_of_here.
Qed.

(** C9, amended: when the ids of the input are distinct and [a] precedes
    [b] in the input, [a] precedes [b] in the order returned provided that
    [b] is reachable through connection edges neither from [a] nor from an
    endpoint that precedes [a] in the input. *)
Theorem input_order_kept_unless_reached_earlier endpoints sorted before_a a after_a b :
  NoDup (ApiEndpoint.id <$> endpoints) →
  endpoints = before_a ++ a :: after_a →
  b ∈ after_a →
  (∀ r, r ∈ before_a ++ [a] → ¬ rtc (depends_on endpoints) r b) →
  Engine.sortEndpointsByDependencies endpoints = Finished (Ok sorted) →
  before sorted a b.
Proof.
  intros Hids Hsplit Hb Hunreached Hsort.
  unfold Engine.sortEndpointsByDependencies in Hsort.
  assert (Hsplit' : endpoints = (before_a ++ [a]) ++ after_a) by (by rewrite <- app_assoc).
  rewrite Hsplit' in Hsort at 3. rewrite for_each_fuelled_app in Hsort.
  pose proof (visit_roots endpoints (S (length endpoints)) (before_a ++ [a]) [] after_a
                (Engine.mkSortState [] ∅ ∅) Hsplit' (Nat.lt_succ_diag_r _)
                (inv_initial endpoints) eq_refl) as Hphase1.
  destruct (Engine.for_each_fuelled _ (before_a ++ [a]) _) as [[stA | error] |];
    cbn in Hsort, Hphase1; [| done | done].
  destruct Hphase1 as (HinvA & HvisitingA & HvisitedA & more1 & HsortedA & Hreached1);
    [by intros r ?%elem_of_nil |].
  cbn in HvisitingA, HsortedA, HvisitedA.
  pose proof (visit_roots endpoints (S (length endpoints)) after_a (before_a ++ [a]) []
                stA) as Hphase2.
  rewrite app_nil_r in Hphase2.
  specialize (Hphase2 Hsplit' (Nat.lt_succ_diag_r _) HinvA HvisitingA HvisitedA).
  destruct (Engine.for_each_fuelled _ after_a stA) as [[stF | error] |];
    cbn in Hsort, Hphase2; [| done | done].
  injection Hsort as <-.
  destruct Hphase2 as (HinvF & _ & HvisitedF & more2 & HsortedF & _).
  assert (Ha_in : a ∈ endpoints) by (rewrite Hsplit, elem_of_app, elem_of_cons; auto).
  assert (Hb_in : b ∈ endpoints) by (rewrite Hsplit, elem_of_app, elem_of_cons; auto).
  assert (Ha_sorted : a ∈ Engine.sorted stA).
  { eapply inv_sorted_elem_of; [done | by apply first_unique_ids |].
    apply HvisitedA, elem_of_app. right. apply list_elem_of_here. }
  assert (Hb_sorted : b ∈ Engine.sorted stF).
  { eapply inv_sorted_elem_of; [done | by apply first_unique_ids |].
    apply HvisitedF. by rewrite <- Hsplit'. }
  rewrite HsortedF in Hb_sorted. apply elem_of_app in Hb_sorted as [Hb_early | Hb_late].
  - rewrite HsortedA in Hb_early. destruct (Hreached1 b Hb_early) as (r & Hr & Hreach).
    by destruct (Hunreached r Hr).
  - apply list_elem_of_split in Hb_late as (m1 & m2 & ->).
    exists (Engine.sorted stA ++ m1), m2.
    split; [by rewrite HsortedF, app_assoc |]. apply elem_of_app. by left.
Qed.

(** In [late_A; late_B; late_C], [late_B] is reached from nothing before
    it: [late_A] stays ahead of [late_B]. *)
Lemma input_order_kept_unless_reached_earlier_witness :
  before [late_C; late_A; late_B] late_A late_B.
Proof.
  apply (input_order_kept_unless_reached_earlier
           [late_A; late_B; late_C] [late_C; late_A; late_B] [] late_A [late_B; late_C] late_B).
  - apply (bool_decide_unpack _). by vm_compute.
  - reflexivity.
  - apply list_elem_of_here.
  - intros r ->%list_elem_of_singleton Hreach.
    apply rtc_tc in Hreach as [[=] | Hreach].
    assert (Htargets : ∀ x y, tc (depends_on [late_A; late_B; late_C]) x y →
                              x = late_A → y = late_C).
    { intros x y Htc. induction Htc as [x y Hdep | x y z Hdep Htc IH]; intros ->.
      - destruct Hdep as (c & ->%list_elem_of_singleton & [= <-]). done.
      - destruct Hdep as (c & ->%list_elem_of_singleton & [= <-]).
        apply tc_rtc, rtc_inv in Htc as [-> | (d & (c & ?%elem_of_nil & _) & _)]; done. }
    by specialize (Htargets _ _ Hreach eq_refl).
  - vm_compute. reflexivity.
Defined.

Local Open Scope nat_scope.

(** * Further properties of the engine *)

(** ** Execution of an endpoint and of a flow *)
Section FlowFacts.
Import Js Engine.
Context `{Runtime} `{Collaborators} (globalAuth : option AuthConfig.t).

(** How the [try] block of [executeEndpoint] ends. *)
Lemma attempt_cases ctx endpoint options :
  (∃ error, perform globalAuth ctx endpoint options = Throw error
            ∧ attempt globalAuth ctx endpoint options = (ctx, Throw error))
  ∨ (∃ result, perform globalAuth ctx endpoint options = Ok result
               ∧ (attempt globalAuth ctx endpoint options = (record ctx result, Ok result)
                  ∨ ∃ error, attempt globalAuth ctx endpoint options
                             = (record ctx result, Throw error))).
Proof.
  unfold attempt. destruct (perform globalAuth ctx endpoint options) as [result | error].
  - right. exists result. split; [done |].
    destruct (default false (ExecutionOptions.validateResponse options)); [| by left].
    destruct (validateResponse endpoint result) as [[] | error]; [by left | right; eauto].
  - left. eauto.
Qed.

Lemma perform_error ctx endpoint options result :
  perform globalAuth ctx endpoint options = Ok result → ExecutionResult.error result = None.
Proof.
  unfold perform. intros Hperform.
  apply bind_Ok in Hperform as (_ & _ & Hperform).
  apply bind_Ok in Hperform as (_ & _ & Hperform).
  apply bind_Ok in Hperform as (resolvedData & _ & Hperform).
  apply bind_Ok in Hperform as ([requestConfig resolvedData'] & _ & Hperform).
  apply bind_Ok in Hperform as (requestConfig' & _ & Hperform).
  apply bind_Ok in Hperform as (response & Hresponse & Hperform).
  by apply bind_Ok in Hperform as (size & _ & [= <-]).
Qed.

(** X1: [executeEndpoint] writes one entry of the context, the one of the
    endpoint's id, and what it writes there is the result that it
    returns; the variables are left as they are. The result carries the
    endpoint's id; it is successful exactly when the [try] block ended
    without a throw, and it then is the result that the block built;
    otherwise it is the failed result of the error thrown. *)
Theorem executeEndpoint_writes_its_own_entry ctx endpoint options :
  ExecutionContext.results (executeEndpoint globalAuth ctx endpoint options).1
    = <[E.id endpoint := (executeEndpoint globalAuth ctx endpoint options).2]>
        (ExecutionContext.results ctx)
  ∧ ExecutionContext.variables (executeEndpoint globalAuth ctx endpoint options).1
    = ExecutionContext.variables ctx
  ∧ ExecutionResult.endpointId (executeEndpoint globalAuth ctx endpoint options).2
    = E.id endpoint
  ∧ match (attempt globalAuth ctx endpoint options).2 with
    | Ok result =>
        (executeEndpoint globalAuth ctx endpoint options).2 = result
        ∧ ExecutionResult.success result = true
        ∧ ExecutionResult.error result = None
    | Throw error =>
        (executeEndpoint globalAuth ctx endpoint options).2 = failure endpoint error
        ∧ ExecutionResult.success (failure endpoint error) = false
    end.
Proof.
  unfold executeEndpoint.
  destruct (attempt_cases ctx endpoint options)
    as [(error & Hperform & ->) | (result & Hperform & [-> | (error & ->)])]; cbn.
  - done.
  - pose proof (perform_error ctx endpoint options result Hperform) as Herror.
    apply perform_Ok in Hperform as (Hid & Hsuccess & _).
    by rewrite Hid.
  - apply perform_Ok in Hperform as (Hid & _). rewrite Hid.
    by rewrite insert_insert_eq.
Qed.

Lemma executeEndpoint_frame ctx endpoint options :
  ExecutionContext.results (executeEndpoint globalAuth ctx endpoint options).1
    = <[ExecutionResult.endpointId (executeEndpoint globalAuth ctx endpoint options).2
        := (executeEndpoint globalAuth ctx endpoint options).2]>
        (ExecutionContext.results ctx)
  ∧ ExecutionContext.variables (executeEndpoint globalAuth ctx endpoint options).1
    = ExecutionContext.variables ctx
  ∧ ExecutionResult.endpointId (executeEndpoint globalAuth ctx endpoint options).2
    = E.id endpoint.
Proof.
  unfold executeEndpoint.
  destruct (attempt_cases ctx endpoint options)
    as [(error & Hperform & ->) | (result & Hperform & [-> | (error & ->)])]; cbn.
  - done.
  - by apply perform_Ok in Hperform as (-> & _).
  - apply perform_Ok in Hperform as (Hid & _). rewrite Hid.
    by rewrite insert_insert_eq.
Qed.

(** The loop of [executeFlow]: what it appends to the results and what it
    leaves in the context. *)
Lemma runFlow_results ctx sortedEndpoints options acc :
  ∃ results,
    (runFlow globalAuth ctx sortedEndpoints options acc).2 = acc ++ results
    ∧ ExecutionResult.endpointId <$> results
      = E.id <$> take (length results) sortedEndpoints
    ∧ length results ≤ length sortedEndpoints
    ∧ (default false (ExecutionOptions.continueOnError options) = true →
       length results = length sortedEndpoints)
    ∧ (default false (ExecutionOptions.continueOnError options) = false →
       ∀ i r, results !! i = Some r → ExecutionResult.success r = false →
              S i = length results)
    ∧ (length results < length sortedEndpoints →
       ∃ r, last results = Some r ∧ ExecutionResult.success r = false)
    ∧ ExecutionContext.results (runFlow globalAuth ctx sortedEndpoints options acc).1
      = foldl (fun m r => <[ExecutionResult.endpointId r := r]> m)
          (ExecutionContext.results ctx) results
    ∧ ExecutionContext.variables (runFlow globalAuth ctx sortedEndpoints options acc).1
      = ExecutionContext.variables ctx.
Proof.
  revert ctx acc. induction sortedEndpoints as [| endpoint rest IH]; intros ctx acc.
  { exists []. cbn. rewrite app_nil_r. repeat split; try done; lia. }
  cbn [runFlow].
  destruct (executeEndpoint_frame ctx endpoint options) as (Hresults & Hvariables & Hid).
  destruct (executeEndpoint globalAuth ctx endpoint options) as [ctx1 result] eqn:Hexecute.
  cbn in Hresults, Hvariables, Hid.
  destruct (ExecutionResult.success result) eqn:Hsuccess;
    destruct (default false (ExecutionOptions.continueOnError options)) eqn:Hcontinue; cbn.
  1-3: destruct (IH ctx1 (acc ++ [result]))
         as (results & Hacc & Hids & Hlen & Hall & Hlast & Hstop & Hctx & Hvars);
       exists (result :: results);
       (split; [by rewrite Hacc, <- app_assoc |]);
       (split; [cbn; by rewrite Hid, Hids |]);
       (split; [cbn; lia |]);
       (split; [intros Hc; cbn; by rewrite Hall |]);
       (split;
        [intros Hc [| i] r Hr Hfailed; cbn in Hr;
         [injection Hr as <-; congruence | cbn; f_equal; eauto] |]);
       (split;
        [intros Hshort; cbn in Hshort; destruct Hstop as (r & Hr & Hfailed); [lia |];
         exists r; split; [| done];
         destruct results as [| r0 results]; [done | by rewrite last_cons_cons] |]);
       (split; [by rewrite Hctx, Hresults | by rewrite Hvars]).
  exists [result]. cbn.
  split; [done |]. split; [by rewrite Hid |]. split; [lia |]. split; [done |].
  split; [by intros _ [| [| i]] r Hr |].
  split; [intros _; by exists result | done].
Qed.

(** X2: [executeFlow] orders the endpoints first; when the order cannot be
    found (a dependency cycle) it throws the resolver's error and no
    endpoint is run. Otherwise it runs the endpoints in that order, one
    result each: all of them when [continueOnError] is set; when it is not
    set, up to the first failed result, which is then the last one. Each
    endpoint that was run comes after the endpoints that it depends on,
    which were run too; and the context ends with every result recorded
    under its endpoint's id. *)
Theorem flow_runs_in_order_and_stops_at_failure ctx endpoints options :
  match sortEndpointsByDependencies endpoints with
  | Finished (Ok sorted) =>
      ∃ ctx' results,
        executeFlow globalAuth ctx endpoints options = Finished (Ok (ctx', results))
        ∧ ExecutionResult.endpointId <$> results = E.id <$> take (length results) sorted
        ∧ (ExecutionOptions.continueOnError options = Some true →
           length results = length sorted)
        ∧ (ExecutionOptions.continueOnError options ≠ Some true →
           ∀ i r, results !! i = Some r → ExecutionResult.success r = false →
                  S i = length results)
        ∧ (length results < length sorted →
           ∃ r, last results = Some r ∧ ExecutionResult.success r = false)
        ∧ (∀ i e d, sorted !! i = Some e → i < length results →
                    depends_on endpoints e d →
                    ∃ j r, j < i ∧ results !! j = Some r
                           ∧ ExecutionResult.endpointId r = E.id d)
        ∧ ExecutionContext.results ctx'
          = foldl (fun m r => <[ExecutionResult.endpointId r := r]> m)
              (ExecutionContext.results ctx) results
        ∧ ExecutionContext.variables ctx' = ExecutionContext.variables ctx
  | Finished (Throw error) =>
      executeFlow globalAuth ctx endpoints options = Finished (Throw error)
  | OutOfFuel => False
  end.
Proof.
  pose proof (sortEndpointsByDependencies_spec endpoints) as Hsort.
  unfold executeFlow.
  destruct (sortEndpointsByDependencies endpoints) as [[sorted | error] |]; [| done | done].
  destruct Hsort as (_ & Hnodup & Hbefore & _). cbn.
  destruct (runFlow_results ctx sorted options [])
    as (results & Hacc & Hids & Hlen & Hall & Hlast & Hstop & Hctx & Hvars).
  destruct (runFlow globalAuth ctx sorted options []) as [ctx' results'].
  cbn in Hacc, Hctx, Hvars. subst results'.
  exists ctx', results. split; [done |]. split; [done |].
  split; [intros Hc; apply Hall; by rewrite Hc |].
  split.
  { intros Hc. apply Hlast.
    destruct (ExecutionOptions.continueOnError options) as [[|] |]; done. }
  split; [done |]. split; [| done].
  intros i e d He Hi Hdep.
  destruct (Hbefore e d) as (l1 & l2 & Hsplit & Hd);
    [by eapply list_elem_of_lookup_2 | done |].
  assert (Hpos : i = length l1).
  { apply (NoDup_lookup sorted i (length l1) e Hnodup He).
    rewrite Hsplit. by apply list_lookup_middle. }
  apply list_elem_of_lookup_1 in Hd as (j & Hj).
  assert (Hjlt : j < i) by (rewrite Hpos; by eapply lookup_lt_Some).
  assert (Hsorted_j : sorted !! j = Some d).
  { rewrite Hsplit. by apply lookup_app_l_Some. }
  destruct (lookup_lt_is_Some_2 results j) as (r & Hr); [lia |].
  exists j, r. split; [done |]. split; [done |].
  assert (Hidj : (ExecutionResult.endpointId <$> results) !! j = Some (E.id d)).
  { rewrite Hids, list_lookup_fmap, lookup_take_lt by lia. by rewrite Hsorted_j. }
  rewrite list_lookup_fmap, Hr in Hidj. by injection Hidj.
Qed.

End FlowFacts.

(** ** Retries of the request *)
Section RetryFacts.
Import Engine.
Context `{Collaborators}.

Lemma attempts_first_success remaining attempt config timeout k response :
  k ≤ remaining →
  (∀ j, j < k → ∃ error, performHttpRequest (attempt + j) config timeout = Throw error) →
  performHttpRequest (attempt + k) config timeout = Ok response →
  attempts remaining attempt config timeout = Ok response.
Proof.
  revert attempt k. induction remaining as [| remaining IH]; intros attempt k Hk Hfail Hok.
  - assert (k = 0) as -> by lia. rewrite Nat.add_0_r in Hok. cbn. by rewrite Hok.
  - cbn. destruct k as [| k].
    + rewrite Nat.add_0_r in Hok. by rewrite Hok.
    + destruct (Hfail 0) as (error & Herror); [lia |].
      rewrite Nat.add_0_r in Herror. rewrite Herror.
      apply (IH (S attempt) k); [lia | |].
      * intros j Hj. destruct (Hfail (S j)) as (e & He); [lia |].
        exists e. by rewrite <- He, Nat.add_succ_r.
      * by rewrite <- Hok, Nat.add_succ_r.
Qed.

Lemma attempts_all_fail remaining attempt config timeout :
  (∀ j, j ≤ remaining → ∃ error, performHttpRequest (attempt + j) config timeout = Throw error) →
  attempts remaining attempt config timeout
  = performHttpRequest (attempt + remaining) config timeout.
Proof.
  revert attempt. induction remaining as [| remaining IH]; intros attempt Hfail.
  - destruct (Hfail 0) as (error & Herror); [lia |]. cbn.
    rewrite Nat.add_0_r in Herror |- *. by rewrite Herror.
  - destruct (Hfail 0) as (error & Herror); [lia |]. cbn.
    rewrite Nat.add_0_r in Herror. rewrite Herror.
    rewrite IH; [by rewrite Nat.add_succ_r |].
    intros j Hj. destruct (Hfail (S j)) as (e & He); [lia |].
    exists e. by rewrite <- He, Nat.add_succ_r.
Qed.

Lemma attempts_Ok remaining attempt config timeout response :
  attempts remaining attempt config timeout = Ok response →
  ∃ k, k ≤ remaining
       ∧ performHttpRequest (attempt + k) config timeout = Ok response
       ∧ ∀ j, j < k → ∃ error, performHttpRequest (attempt + j) config timeout = Throw error.
Proof.
  revert attempt. induction remaining as [| remaining IH]; intros attempt; cbn.
  - destruct (performHttpRequest attempt config timeout) as [r | error] eqn:Hfirst; [| done].
    intros [= <-]. exists 0. rewrite Nat.add_0_r. split; [done |]. split; [done |]. lia.
  - destruct (performHttpRequest attempt config timeout) as [r | error] eqn:Hfirst.
    + intros [= <-]. exists 0. rewrite Nat.add_0_r. split; [lia |]. split; [done |]. lia.
    + intros (k & Hk & Hok & Hfail)%IH. exists (S k). split; [lia |].
      split; [by rewrite Nat.add_succ_r |].
      intros [| j] Hj; [rewrite Nat.add_0_r; eauto |].
      rewrite Nat.add_succ_r. apply Hfail. lia.
Qed.

(** X3: [executeHttpRequest] sends the request until an attempt succeeds,
    at most [retries] times more than once ([retries] counts as 0 when it
    is not given), each time with the timeout of the options, 30000 when
    none is given. It returns the response of the first attempt that
    succeeds; when none does it throws the error of the last attempt, and
    the errors of the attempts before are lost. *)
Theorem request_is_retried_up_to_the_limit config options :
  let maxRetries := default 0 (ExecutionOptions.retries options) in
  let timeout := default 30000%Z (ExecutionOptions.timeout options) in
  (∀ k response,
     k ≤ maxRetries →
     (∀ j, j < k → ∃ error, performHttpRequest j config timeout = Throw error) →
     performHttpRequest k config timeout = Ok response →
     executeHttpRequest config options = Ok response)
  ∧ ((∀ j, j ≤ maxRetries → ∃ error, performHttpRequest j config timeout = Throw error) →
     executeHttpRequest config options = performHttpRequest maxRetries config timeout)
  ∧ (∀ response,
       executeHttpRequest config options = Ok response →
       ∃ k, k ≤ maxRetries
            ∧ performHttpRequest k config timeout = Ok response
            ∧ ∀ j, j < k → ∃ error, performHttpRequest j config timeout = Throw error).
Proof.
  intros maxRetries timeout. unfold executeHttpRequest. fold maxRetries timeout.
  split; [| split].
  - intros k response Hk Hfail Hok. by apply (attempts_first_success _ 0 _ _ k).
  - intros Hfail. by apply (attempts_all_fail _ 0).
  - intros response Hresponse. by apply (attempts_Ok _ 0) in Hresponse.
Qed.

End RetryFacts.

(** ** Typed connections and their transformations *)
Section TypedConnectionFacts.
Import Js Engine.


Lemma for_each_unit {A} (body : unit → A → outcome unit) (l : list A) :
  for_each body l () = Ok () ↔ ∀ x, x ∈ l → body () x = Ok ().
Proof.
  induction l as [| y l IH]; cbn.
  - split; [by intros _ x ?%elem_of_nil | done].
  - destruct (body () y) as [[] | error] eqn:Hy; cbn.
    + rewrite IH. split.
      * intros Hl x [-> | Hx]%elem_of_cons; eauto.
      * intros Hl x Hx. apply Hl. by right.
    + split; [done |]. intros Hl.
      specialize (Hl y (list_elem_of_here _ _)). congruence.
Qed.

(** X4: [validateTypedConnections] accepts an endpoint exactly when each
    of its connections that declares both of its types has compatible
    types and, if it names a transformation, one that the table allows
    for these types. A connection that leaves out one of the types is not
    checked. *)
Theorem typed_connections_pass_iff_checked endpoint :
  validateTypedConnections endpoint = Ok () ↔
  ∀ c s t,
    c ∈ E.connections endpoint → C.sourceType c = Some s → C.targetType c = Some t →
    areTypesCompatibleEnhanced s t = true
    ∧ ∀ transform, C.transform c = Some transform → transform ≠ "" →
                   isValidTransformation transform s t = true.
Proof.
  unfold validateTypedConnections. rewrite for_each_unit.
  split.
  - intros Hall c s t Hc Hs Ht. specialize (Hall c Hc). rewrite Hs, Ht in Hall.
    destruct (areTypesCompatibleEnhanced s t); [| done]. split; [done |].
    intros transform Htransform Hne. rewrite Htransform in Hall. cbn in Hall.
    destruct (String.eqb_spec transform ""); [done |]. cbn in Hall.
    by destruct (isValidTransformation transform s t).
  - intros Hall c Hc.
    destruct (C.sourceType c) as [s |] eqn:Hs; [| done].
    destruct (C.targetType c) as [t |] eqn:Ht; [| done].
    destruct (Hall c s t Hc Hs Ht) as [-> Htransform]. cbn.
    destruct (C.transform c) as [transform |]; [| done].
    destruct (String.eqb_spec transform "") as [-> | Hne]; [done |].
    by rewrite Htransform.
Qed.

Lemma isValidTransformation_known transform s t :
  isValidTransformation transform s t = true →
  transform ∈ obj_keys validTransformations.
Proof.
  unfold isValidTransformation. intros Hvalid. apply elem_of_obj_keys.
  by destruct (obj_get validTransformations transform).
Qed.

(** X5: of the transformations that [applyTransformation] implements,
    eight can be named by a connection that declares its types: for each
    of them there are types that [validateTypedConnections] accepts, and
    for no other name there are. In particular [array-wrap], which is in
    the table, and [basic-auth], [json-stringify] and [url-encode], which
    are not, make [validateTypedConnections] throw on every endpoint that
    has a typed connection naming one of them. *)
Theorem transformations_open_to_typed_connections :
  (∀ transform,
     (∃ s t, areTypesCompatibleEnhanced s t = true
             ∧ isValidTransformation transform s t = true)
     ↔ transform ∈ ["string"; "number"; "boolean"; "bearer-prefix"; "array-first";
                    "upper"; "lower"; "trim"])
  ∧ (∀ endpoint c s t transform,
       c ∈ E.connections endpoint →
       C.sourceType c = Some s → C.targetType c = Some t →
       C.transform c = Some transform →
       transform ∈ ["array-wrap"; "basic-auth"; "json-stringify"; "url-encode"] →
       ∃ error, validateTypedConnections endpoint = Throw error).
Proof.
  assert (Hopen : ∀ transform s t,
            areTypesCompatibleEnhanced s t = true →
            isValidTransformation transform s t = true →
            transform ∈ ["string"; "number"; "boolean"; "bearer-prefix"; "array-first";
                         "upper"; "lower"; "trim"]).
  { intros transform s t Hcompatible Hvalid.
    pose proof (isValidTransformation_known _ _ _ Hvalid) as Hknown.
    cbn in Hknown. rewrite !elem_of_cons, elem_of_nil in Hknown.
    rewrite !elem_of_cons.
    destruct Hknown as [-> | [-> | [-> | [-> | [-> | [-> | [-> | [-> | [-> | []]]]]]]]]];
      try tauto.
    exfalso. by destruct s, t. }
  split.
  - intros transform. split; [intros (s & t & Hc & Hv); eauto |].
    rewrite !elem_of_cons, elem_of_nil.
    intros [-> | [-> | [-> | [-> | [-> | [-> | [-> | [-> | []]]]]]]]].
    + by exists number_t, string_t.
    + by exists string_t, number_t.
    + by exists string_t, boolean_t.
    + by exists string_t, string_t.
    + by exists array_t, string_t.
    + by exists string_t, string_t.
    + by exists string_t, string_t.
    + by exists string_t, string_t.
  - intros endpoint c s t transform Hc Hs Ht Htransform Hclosed.
    destruct (validateTypedConnections endpoint) as [[] |] eqn:Hvalidate; [| eauto].
    exfalso. unfold validateTypedConnections in Hvalidate.
    rewrite for_each_unit in Hvalidate. specialize (Hvalidate c Hc).
    rewrite Hs, Ht, Htransform in Hvalidate.
    destruct (areTypesCompatibleEnhanced s t) eqn:Hcompatible; [| done].
    cbn in Hvalidate.
    assert (Hne : String.eqb transform "" = false).
    { rewrite !elem_of_cons, elem_of_nil in Hclosed.
      by destruct Hclosed as [-> | [-> | [-> | [-> | []]]]]. }
    rewrite Hne in Hvalidate. cbn in Hvalidate.
    destruct (isValidTransformation transform s t) eqn:Hvalid; [| done].
    specialize (Hopen _ _ _ Hcompatible Hvalid).
    rewrite !elem_of_cons in Hclosed. rewrite !elem_of_cons in Hopen.
    rewrite elem_of_nil in Hclosed. rewrite elem_of_nil in Hopen.
    destruct Hclosed as [-> | [-> | [-> | [-> | []]]]];
      destruct Hopen as [? | [? | [? | [? | [? | [? | [? | [? | []]]]]]]]]; done.
Qed.

End TypedConnectionFacts.

(** ** Resolution of the connections *)
Section ConnectionFacts.
Import Js Engine.
Context `{Runtime}.





End ConnectionFacts.

(** ** Errors of the slot resolvers *)
Section SlotErrorFacts.
Import Js Engine.
Context `{Runtime} `{Collaborators}.

(** X7: how the resolver of the query parameters reports a failure. A
    schema validation that fails is reported by the error of
    [validateParameterSchema], as it is; a [SyntaxError] that the
    validation itself throws (an ill-formed pattern in the endpoint's
    schema) is reported as an answer that is not valid JSON; any other
    error of the completion or of the validation, whose message does not
    hold the words of a validation failure, is wrapped as a failed
    resolution. An error of the template is thrown as it is. *)
Theorem query_resolver_error_reports results endpoint data :
  (∀ prompt ai result,
     render_prompt "query-parameters-prompt.hbs" endpoint results = Ok prompt →
     askModel prompt = Ok ai →
     SchemaValidation.validateParameters ai (E.queryParams endpoint) = Ok result →
     ValidationResult.isValid result = false →
     ∃ details,
       validateParameterSchema ai (E.queryParams endpoint) "query"
         = Throw (Error ("AI query response validation failed:" +:+ details))
       ∧ resolveQueryParameters results endpoint data
         = Throw (Error ("AI query response validation failed:" +:+ details)))
  ∧ (∀ prompt ai message,
       render_prompt "query-parameters-prompt.hbs" endpoint results = Ok prompt →
       askModel prompt = Ok ai →
       SchemaValidation.validateParameters ai (E.queryParams endpoint)
         = Throw (SyntaxError message) →
       resolveQueryParameters results endpoint data
         = Throw (Error ("AI query parameter response is not valid JSON: " +:+ message)))
  ∧ (∀ prompt ai error,
       render_prompt "query-parameters-prompt.hbs" endpoint results = Ok prompt →
       (askModel prompt = Throw error
        ∨ askModel prompt = Ok ai
          ∧ SchemaValidation.validateParameters ai (E.queryParams endpoint) = Throw error) →
       (∀ message, error ≠ SyntaxError message) →
       Strings.includes "AI query response" (error_message error) = false →
       resolveQueryParameters results endpoint data
         = Throw (Error ("AI query parameter resolution failed: " +:+ error_message error)))
  ∧ (∀ error,
       render_prompt "query-parameters-prompt.hbs" endpoint results = Throw error →
       resolveQueryParameters results endpoint data = Throw error).
Proof.
  unfold resolveQueryParameters, validateParameterSchema.
  split; [| split; [| split]].
  - intros prompt ai result -> Hai Hresult Hinvalid. cbn. rewrite Hai. cbn.
    rewrite Hresult. cbn. rewrite Hinvalid. cbn. eexists. split; reflexivity.
  - intros prompt ai message -> Hai Hresult. cbn. rewrite Hai. cbn.
    by rewrite Hresult.
  - intros prompt ai error -> Hfailed Hkind Hwords. cbn -[Strings.includes].
    destruct Hfailed as [-> | [-> Hresult]]; cbn -[Strings.includes];
      [| rewrite Hresult; cbn -[Strings.includes]].
    + destruct error as [message | message | message]; cbn -[Strings.includes] in Hwords |- *;
        [| by destruct (Hkind message) |];
        change ("AI " +:+ "query" +:+ " response") with "AI query response";
        by rewrite Hwords.
    + destruct error as [message | message | message]; cbn -[Strings.includes] in Hwords |- *;
        [| by destruct (Hkind message) |];
        change ("AI " +:+ "query" +:+ " response") with "AI query response";
        by rewrite Hwords.
  - by intros error ->.
Qed.

End SlotErrorFacts.

(** ** Validation of the endpoint *)
Section EndpointValidationFacts.
Import Js Engine.
Context `{Builtins}.



End EndpointValidationFacts.

Section FalsyDefaultFacts.
Import Js Engine.
Context `{Runtime} `{Collaborators} (globalAuth : option AuthConfig.t).




End FalsyDefaultFacts.

(** ** Sanitation of the model's answer: what is extracted *)
Section SanitationFacts.
Import Pattern.

Lemma string_app_cons c (a b : string) : String c a +:+ b = String c (a +:+ b).
Proof. reflexivity. Qed.

Lemma string_app_nil_l (b : string) : "" +:+ b = b.
Proof. reflexivity. Qed.

Lemma string_app_assoc (a b c : string) : (a +:+ b) +:+ c = a +:+ b +:+ c.
Proof.
  induction a as [| x a IH]; [done |]. by rewrite !string_app_cons, IH.
Qed.

Lemma string_app_nil_r (a : string) : a +:+ "" = a.
Proof.
  induction a as [| x a IH]; [done |]. by rewrite string_app_cons, IH.
Qed.

Lemma every_char_app class a b :
  every_char class (a +:+ b) = every_char class a && every_char class b.
Proof.
  induction a as [| c a IH]; [done |].
  rewrite string_app_cons. cbn [every_char]. rewrite IH. by destruct (class c).
Qed.

Lemma every_char_any s : every_char any s = true.
Proof. by induction s as [| c s IH]. Qed.

(** A string that does not include the one-character string of [x] has no
    character [x]. *)
Lemma includes_char x s :
  Strings.includes (String x EmptyString) s = false → every_char (except x) s = true.
Proof.
  induction s as [| c s IH]; [done |]. cbn. unfold except.
  rewrite (Ascii.eqb_sym c x).
  destruct (Ascii.eqb x c); [done |]. exact IH.
Qed.

(** What a star matched and where the rest of the pattern went on. *)
Lemma exec_many_sound class rest s m ms :
  exec (Many class :: rest) s = Some (m :: ms) →
  ∃ s1, s = m +:+ s1 ∧ every_char class m = true ∧ exec rest s1 = Some ms.
Proof.
  cbn [exec]. revert m ms. induction s as [| c s' IHs]; intros m ms.
  - destruct (exec rest "") as [texts |] eqn:Hrest; [| done].
    intros [= <- <-]. by exists "".
  - assert (Hstop : cons EmptyString <$> exec rest (String c s') = Some (m :: ms) →
                    ∃ s1, String c s' = m +:+ s1 ∧ every_char class m = true
                          ∧ exec rest s1 = Some ms).
    { destruct (exec rest (String c s')) as [texts |] eqn:Hrest; [| done].
      intros [= <- <-]. by exists (String c s'). }
    destruct (class c) eqn:Hc; [| exact Hstop].
    match goal with |- context [match ?x with Some _ => _ | None => _ end] =>
      destruct x as [[| m' ms'] |] eqn:Hmany end; try exact Hstop.
    intros [= <- <-]. destruct (IHs _ _ eq_refl) as (s1 & -> & Hclass & Hrest).
    exists s1. rewrite string_app_cons. cbn [every_char]. by rewrite Hc, Hclass.
Qed.

(** A star takes the longest text after which the rest of the pattern
    matches. *)
Lemma exec_many_greedy class rest t s0 ts :
  every_char class t = true →
  exec rest s0 = Some ts →
  (∀ u s1, s0 = u +:+ s1 → u ≠ "" → every_char class u = true → exec rest s1 = None) →
  exec (Many class :: rest) (t +:+ s0) = Some (t :: ts).
Proof.
  intros Ht Hrest Hlongest. induction t as [| c t IH].
  - rewrite string_app_nil_l.
    destruct (exec (Many class :: rest) s0) as [[| m ms] |] eqn:Hexec.
    + by apply exec_length in Hexec.
    + apply exec_many_sound in Hexec as Hsound. destruct Hsound as (s1 & Hs0 & Hm & Hms).
      destruct m as [| c m].
      * rewrite string_app_nil_l in Hs0. subst s1. congruence.
      * by rewrite (Hlongest (String c m) s1 Hs0) in Hms.
    + exfalso. cbn [exec] in Hexec. destruct s0 as [| c s0'].
      * by rewrite Hrest in Hexec.
      * rewrite Hrest in Hexec. cbn in Hexec. destruct (class c); [| done].
        match type of Hexec with match ?x with Some _ => _ | None => _ end = _ =>
          by destruct x as [[| m ms] |] end.
  - cbn [every_char] in Ht. apply andb_true_iff in Ht as [Hc Ht]. specialize (IH Ht).
    rewrite string_app_cons.
    cbn [exec] in IH |- *. rewrite Hc. by rewrite IH.
Qed.

(** A pattern that asks for a character [x] after a star finds no match
    in a string without [x]. *)
Lemma exec_needs_char class x rest s :
  every_char (except x) s = true →
  exec (Many class :: One (only x) :: rest) s = None.
Proof.
  intros Hs.
  destruct (exec (Many class :: One (only x) :: rest) s) as [[| m ms] |] eqn:Hexec;
    [by apply exec_length in Hexec | | done].
  apply exec_many_sound in Hexec as (s1 & -> & _ & Hrest).
  rewrite every_char_app in Hs. apply andb_true_iff in Hs as [_ Hs1].
  destruct s1 as [| c s1]; [done |]. cbn in Hrest, Hs1. unfold only in Hrest.
  unfold except in Hs1. by destruct (Ascii.eqb c x).
Qed.

Lemma exec_one x rest s :
  exec (One (only x) :: rest) (String x s) = cons (String x EmptyString) <$> exec rest s.
Proof. cbn [exec]. unfold only. by rewrite Ascii.eqb_refl. Qed.

Lemma exec_object prefix body suffix :
  every_char (except "{") prefix = true →
  every_char (except "}") suffix = true →
  exec object_pattern (prefix +:+ "{" +:+ body +:+ "}" +:+ suffix)
  = Some [prefix; "{"; body; "}"; suffix].
Proof.
  intros Hprefix Hsuffix. unfold object_pattern.
  assert (Htail : exec [Many (except "}")] suffix = Some [suffix]).
  { rewrite <- (string_app_nil_r suffix) at 1.
    apply exec_many_greedy; [done | done |].
    intros [| c u] s1 Heq Hne; [done | done]. }
  assert (Hclose : ∀ s1, every_char (except "}") s1 = true →
                         exec [One (only "}"); Many (except "}")] s1 = None).
  { intros [| c s1]; [done |]. cbn. unfold only, except. by destruct (Ascii.eqb c "}"). }
  apply exec_many_greedy; [done | |].
  - rewrite string_app_cons, string_app_nil_l, exec_one.
    rewrite (exec_many_greedy any [One (only "}"); Many (except "}")] body ("}" +:+ suffix)
               ["}"; suffix]); [done | apply every_char_any | |].
    + by rewrite string_app_cons, string_app_nil_l, exec_one, Htail.
    + intros [| c u] s1 Heq Hne _; [done |].
      rewrite !string_app_cons, string_app_nil_l in Heq. injection Heq as _ ->.
      apply Hclose. rewrite every_char_app in Hsuffix.
      by apply andb_true_iff in Hsuffix as [_ ?].
  - intros [| c u] s1 Heq Hne Hu; [done |].
    rewrite !string_app_cons, string_app_nil_l in Heq. injection Heq as <- _.
    done.
Qed.

(** X10: when the cleaned answer holds an opening brace that a closing
    brace follows, [cleanAiJsonResponse] returns the text from the first
    opening brace to the last closing brace, whatever stands around it:
    the words around an object are dropped, and so are the brackets of an
    array of objects. *)
Theorem object_is_cut_from_first_to_last_brace response prefix body suffix :
  without_fences response = prefix +:+ "{" +:+ body +:+ "}" +:+ suffix →
  Strings.includes "{" prefix = false →
  Strings.includes "}" suffix = false →
  Engine.cleanAiJsonResponse response = Ok ("{" +:+ body +:+ "}").
Proof.
  intros Hcleaned Hprefix%includes_char Hsuffix%includes_char.
  unfold Engine.cleanAiJsonResponse. fold (without_fences response).
  rewrite Hcleaned, (exec_object _ _ _ Hprefix Hsuffix).
  unfold group1. by rewrite string_app_cons, string_app_nil_l.
Qed.

Lemma exec_array_nested prefix body :
  every_char (except "[") prefix = true →
  exec array_pattern (prefix +:+ "[" +:+ body +:+ "]]")
  = Some [prefix; "["; body; "]"; "]"; ""].
Proof.
  intros Hprefix. unfold array_pattern.
  apply exec_many_greedy; [done | |].
  - rewrite string_app_cons, string_app_nil_l, exec_one.
    rewrite (exec_many_greedy any [One (only "]"); One any; Many (only "]")] body "]]"
               ["]"; "]"; ""]); [done | apply every_char_any | done |].
    intros [| c [| d [| e u]]] s1 Heq Hne _; [done | | |].
    + rewrite string_app_cons, string_app_nil_l in Heq. by injection Heq as _ <-.
    + rewrite !string_app_cons, string_app_nil_l in Heq. by injection Heq as _ _ <-.
    + rewrite !string_app_cons in Heq. injection Heq as _ _ Heq. done.
  - intros [| c u] s1 Heq Hne Hu; [done |].
    rewrite !string_app_cons, string_app_nil_l in Heq. injection Heq as <- _.
    done.
Qed.

Lemma exec_array_flat body :
  every_char (except "]") body = true →
  exec array_pattern ("[" +:+ body +:+ "]") = None.
Proof.
  intros Hbody. unfold array_pattern.
  destruct (exec _ _) as [[| m ms] |] eqn:Hexec; [by apply exec_length in Hexec | | done].
  exfalso.
  apply exec_many_sound in Hexec as (s1 & Hsplit & Hm & Hrest).
  rewrite string_app_cons, string_app_nil_l in Hsplit.
  destruct m as [| c m];
    [| rewrite string_app_cons in Hsplit; injection Hsplit as <- _; by cbn in Hm].
  rewrite string_app_nil_l in Hsplit. subst s1. rewrite exec_one in Hrest.
  destruct (exec (Many any :: _) _) as [[| m ms'] |] eqn:Hexec;
    [by apply exec_length in Hexec | | done].
  apply exec_many_sound in Hexec as (s1 & Hsplit & _ & Hclose).
  clear Hrest. revert m Hsplit. induction body as [| c body IH]; intros m Hsplit.
  - rewrite string_app_nil_l in Hsplit. destruct m as [| c [| d m]].
    + rewrite string_app_nil_l in Hsplit. by subst s1.
    + rewrite string_app_cons, string_app_nil_l in Hsplit. by injection Hsplit as <- <-.
    + rewrite !string_app_cons in Hsplit. by injection Hsplit as _ Hsplit.
  - cbn [every_char] in Hbody. apply andb_true_iff in Hbody as [Hc Hbody].
    rewrite string_app_cons in Hsplit. destruct m as [| d m].
    + rewrite string_app_nil_l in Hsplit. subst s1. cbn in Hclose.
      unfold except in Hc. unfold only in Hclose. by destruct (Ascii.eqb c "]").
    + rewrite string_app_cons in Hsplit. injection Hsplit as _ Hsplit.
      by apply (IH Hbody m).
Qed.

(** X11: the pattern for arrays asks for one more character after the
    closing bracket that it captures. An answer that is an array whose
    last element is an array (it ends with two closing brackets, and holds
    no brace) is returned without its last bracket; an answer that is a
    flat array is not matched and is returned whole as the text in which
    no structure was found. *)
Theorem array_answer_loses_a_bracket response :
  (∀ prefix body,
     without_fences response = prefix +:+ "[" +:+ body +:+ "]]" →
     Strings.includes "{" (without_fences response) = false →
     Strings.includes "[" prefix = false →
     Engine.cleanAiJsonResponse response = Ok ("[" +:+ body +:+ "]"))
  ∧ (∀ body,
       without_fences response = "[" +:+ body +:+ "]" →
       Strings.includes "{" body = false →
       Strings.includes "]" body = false →
       exec array_pattern (without_fences response) = None
       ∧ Engine.cleanAiJsonResponse response = Ok ("[" +:+ body +:+ "]")).
Proof.
  split.
  - intros prefix body Hcleaned Hbraces%includes_char Hprefix%includes_char.
    unfold Engine.cleanAiJsonResponse. fold (without_fences response).
    unfold object_pattern. rewrite (exec_needs_char _ _ _ _ Hbraces).
    rewrite Hcleaned, (exec_array_nested _ _ Hprefix).
    unfold group1. by rewrite string_app_cons, string_app_nil_l.
  - intros body Hcleaned Hbraces%includes_char Hbody%includes_char.
    assert (Hnone : every_char (except "{") (without_fences response) = true).
    { rewrite Hcleaned, string_app_cons, string_app_nil_l. cbn [every_char].
      by rewrite every_char_app, Hbraces. }
    unfold Engine.cleanAiJsonResponse. fold (without_fences response).
    unfold object_pattern. rewrite (exec_needs_char _ _ _ _ Hnone).
    by rewrite Hcleaned, (exec_array_flat _ Hbody).
Qed.

End SanitationFacts.

(** * Further properties of the validators *)
Section ValidatorBounds.
Import Js SchemaValidation.
Context `{RegExpEngine} `{Builtins}.

(** X12: a number whose value is an integer is valid for a number
    parameter whose only constraints are bounds with integer values
    exactly when it lies within the bounds, which are inclusive; a bound
    that is not given does not constrain. This holds for required and
    optional parameters alike: no number is empty, [0] included. [NaN] and
    the infinities are not valid, whatever the bounds. (Numbers with a
    fractional part are not part of the model; the comparison of two
    numbers with integer values is the comparison of these values.) *)
Theorem number_is_valid_iff_within_bounds name required dv (min max : option Z) :
  let definition :=
    PD.mk name number_t required dv None None
      (Some (Validation.mk (Num <$> min) (Num <$> max) None None)) in
  (∀ z, ∃ result,
     validateParameter (JNumber (Num z)) definition = Ok result
     ∧ (VR.isValid result = true ↔
        (∀ a, min = Some a → (a ≤ z)%Z) ∧ (∀ b, max = Some b → (z ≤ b)%Z)))
  ∧ (∀ n, isFinite n = false →
          ∃ result, validateParameter (JNumber n) definition = Ok result
                    ∧ VR.isValid result = false).
Proof.
  intros definition. split.
  - intros z. unfold validateParameter, definition. cbn.
    rewrite andb_false_r. cbn.
    destruct min as [a |], max as [b |]; cbn;
      repeat match goal with
             | |- context [bool_decide (?x < ?y)%Z] => destruct (bool_decide_reflect (x < y)%Z)
             end; cbn;
      eexists; (split; [reflexivity |]); cbn;
      (split;
       [intros Hvalid; first [discriminate Hvalid | split; intros ? [= <-]; lia]
       |intros [Ha Hb];
        first [reflexivity
              | exfalso; try (specialize (Ha _ eq_refl)); try (specialize (Hb _ eq_refl));
                lia]]).
  - intros n Hn. unfold validateParameter, definition. cbn.
    rewrite andb_false_r. cbn.
    destruct n as [| negative | z]; [| | done].
    + cbn. destruct min, max; cbn; eauto.
    + destruct negative, min, max; cbn;
        repeat match goal with
               | |- context [if ?b then _ else _] => destruct b
               end; eauto.
Qed.





End ValidatorBounds.

(** * Further properties of the endpoint *)
Section EndpointFacts.
Import Js Endpoint.


Lemma filter_keeps_all {A} (P : A → Prop) `{∀ x, Decision (P x)} (l : list A) :
  (∀ x, x ∈ l → P x) → filter P l = l.
Proof.
  induction l as [| x l IH]; [done |]. intros Hall.
  rewrite filter_cons, decide_True by (apply Hall; by left).
  f_equal. apply IH. intros y Hy. apply Hall. by right.
Qed.

Lemma responseProperty_follow `{Builtins} parts current :
  responseProperty parts current = Ok (follow parts current).
Proof.
  revert current. induction parts as [| part rest IH]; intros current; [done |].
  cbn [responseProperty follow].
  destruct current as [| | b | n | s | elements | props | kind name text]; try done.
  - cbn. by destruct b.
  - cbn. by destruct n as [| |z]; [| | destruct (bool_decide (z = 0%Z))].
  - cbn. by destruct (negb (String.eqb s "")).
  - cbn -[member]. destruct (member (JArray elements) part) as [v |] eqn:Hv.
    + rewrite bool_decide_eq_true_2 by eauto. cbn. apply IH.
    + rewrite bool_decide_eq_false_2 by (by intros [? ?]). done.
  - cbn -[member]. destruct (member (JObject props) part) as [v |] eqn:Hv.
    + rewrite bool_decide_eq_true_2 by eauto. cbn. apply IH.
    + rewrite bool_decide_eq_false_2 by (by intros [? ?]). done.
  - destruct kind; [done | |].
    + cbn -[member]. destruct (member (JNative array_kind name text) part) as [v |] eqn:Hv.
      * rewrite bool_decide_eq_true_2 by eauto. cbn. apply IH.
      * rewrite bool_decide_eq_false_2 by (by intros [? ?]). done.
    + cbn -[member]. destruct (member (JNative object_kind name text) part) as [v |] eqn:Hv.
      * rewrite bool_decide_eq_true_2 by eauto. cbn. apply IH.
      * rewrite bool_decide_eq_false_2 by (by intros [? ?]). done.
Qed.

(** X15: [validateResponseProperty] never throws; it finds a property
    valid exactly when following all the names of the path, empty ones
    included, leads to a value, at each step through an own property or
    else through a member that the value inherits. So a path of fields of
    the response is valid, and so is a path that ends in the name of an
    inherited member, as [data.toString] does on every response with an
    object [data]. On a path without an empty name it agrees with the
    extraction of the engine: the value extracted is then the one found,
    with a warning exactly when it is [undefined]. They differ on the
    empty path, which names the whole body for the engine and a member
    that no object has here. *)
Theorem response_property_agrees_with_extraction `{Builtins} jsonPath result :
  let body := ResponseData.body (ExecutionResult.responseData result) in
  validateResponseProperty jsonPath body
  = Ok match follow (Strings.split "." jsonPath) body with
       | None => VR.mk false ["Property " +:+ jsonPath +:+ " not found in response"] []
       | Some current =>
           VR.mk true []
             (if is_undefined current
              then ["Property " +:+ jsonPath +:+ " exists but is undefined"]
              else [])
       end
  ∧ (∀ value,
       lookup_path (Strings.split "." jsonPath) body = Some value →
       validateResponseProperty jsonPath body
       = Ok (VR.mk true []
               (if is_undefined value
                then ["Property " +:+ jsonPath +:+ " exists but is undefined"]
                else [])))
  ∧ (∀ props,
       obj_get props "toString" = None →
       validateResponseProperty "data.toString" (JObject [("data", JObject props)])
       = Ok (VR.mk true [] []))
  ∧ ("" ∉ Strings.split "." jsonPath →
     ∀ validation,
       validateResponseProperty jsonPath body = Ok validation →
       VR.isValid validation = true →
       ∃ value,
         follow (path_fields jsonPath) body = Some value
         ∧ Engine.extractValueFromResult result jsonPath = Ok value
         ∧ (VR.warnings validation = [] ↔ value ≠ JUndefined))
  ∧ (body = JObject [] →
     validateResponseProperty "" body
     = Ok (VR.mk false ["Property  not found in response"] [])
     ∧ Engine.extractValueFromResult result "" = Ok body).
Proof.
  intros body.
  assert (Hshape : ∀ path response,
    validateResponseProperty path response
    = Ok match follow (Strings.split "." path) response with
         | None => VR.mk false ["Property " +:+ path +:+ " not found in response"] []
         | Some current =>
             VR.mk true []
               (if is_undefined current
                then ["Property " +:+ path +:+ " exists but is undefined"]
                else [])
         end).
  { intros path response. unfold validateResponseProperty.
    by rewrite responseProperty_follow. }
  split; [done |]. split; [| split; [| split]].
  - intros value Hvalue. by rewrite Hshape, (follow_own _ _ _ Hvalue).
  - intros props Hown. rewrite Hshape.
    change (Strings.split "." "data.toString") with ["data"; "toString"].
    cbn [follow member_field mbind option_bind]. unfold member at 1. cbn [own_property obj_get].
    cbn [String.eqb Ascii.eqb Bool.eqb]. cbn [mbind option_bind follow member_field].
    unfold member. cbn [own_property]. by rewrite Hown.
  - intros Hfields validation. rewrite Hshape.
    assert (Hsame : path_fields jsonPath = Strings.split "." jsonPath).
    { unfold path_fields. apply filter_keeps_all. by intros part Hpart ->. }
    rewrite extractValueFromResult_follow, Hsame. fold body.
    destruct (follow (Strings.split "." jsonPath) body) as [value |];
      intros [= <-]; [| done].
    intros _. exists value. split; [done |]. split; [done |]. cbn.
    by destruct value.
  - intros Hbody. unfold validateResponseProperty, Engine.extractValueFromResult.
    fold body. by rewrite Hbody.
Qed.

Lemma removeConnection_connections endpoint connectionId :
  E.connections (removeConnection endpoint connectionId).1
  = filter (fun conn => C.id conn ≠ connectionId) (E.connections endpoint).
Proof. unfold removeConnection. by destruct (bool_decide _). Qed.

Lemma removeConnection_returns endpoint connectionId :
  (removeConnection endpoint connectionId).2
  = bool_decide (length (filter (fun conn => C.id conn ≠ connectionId)
                           (E.connections endpoint))
                 < length (E.connections endpoint)).
Proof. unfold removeConnection. cbn. by destruct (bool_decide _). Qed.

Lemma filter_shorter_iff connectionId (l : list C.t) :
  length (filter (fun conn => C.id conn ≠ connectionId) l) < length l
  ↔ ∃ conn, conn ∈ l ∧ C.id conn = connectionId.
Proof.
  induction l as [| conn l IH].
  - cbn. split; [lia | by intros (conn & ?%elem_of_nil & _)].
  - rewrite filter_cons. pose proof (length_filter (fun conn => C.id conn ≠ connectionId) l).
    destruct (decide (C.id conn ≠ connectionId)) as [Hne | Heq]; cbn [length].
    + rewrite <- Nat.succ_lt_mono, IH. split.
      * intros (c & Hc & Hid). exists c. split; [by right | done].
      * intros (c & [-> | Hc]%elem_of_cons & Hid); [done | eauto].
    + apply dec_stable in Heq. split; [| lia].
      intros _. exists conn. split; [by left | done].
Qed.

(** X16: [removeConnection] removes every connection that carries the id,
    keeps the other ones in their order and returns [true] exactly when
    there was one to remove; a second call with the same id changes
    nothing and returns [false]. *)
Theorem removeConnection_removes_every_match endpoint connectionId :
  E.connections (removeConnection endpoint connectionId).1
  = filter (fun conn => C.id conn ≠ connectionId) (E.connections endpoint)
  ∧ ((removeConnection endpoint connectionId).2 = true ↔
     ∃ conn, conn ∈ E.connections endpoint ∧ C.id conn = connectionId)
  ∧ (∀ conn, conn ∈ E.connections (removeConnection endpoint connectionId).1 ↔
             conn ∈ E.connections endpoint ∧ C.id conn ≠ connectionId)
  ∧ removeConnection (removeConnection endpoint connectionId).1 connectionId
    = ((removeConnection endpoint connectionId).1, false).
Proof.
  pose proof (removeConnection_connections endpoint connectionId) as Hkept.
  split; [done |]. split; [| split].
  - by rewrite removeConnection_returns, bool_decide_eq_true, filter_shorter_iff.
  - intros conn. rewrite Hkept, list_elem_of_filter. tauto.
  - apply injective_projections.
    + unfold removeConnection at 1. cbn [fst snd]. rewrite Hkept.
      rewrite list_filter_filter_l by done.
      destruct (bool_decide _); cbn [fst]; unfold removeConnection;
        by destruct (bool_decide _).
    + cbn [snd]. rewrite removeConnection_returns, Hkept, list_filter_filter_l by done.
      apply bool_decide_eq_false_2. lia.
Qed.

(** X17: [removeConnection] with the id that [addConnection] returned
    takes the added connection away again and restores the endpoint,
    provided that no other connection of the endpoint carries that id.
    The id is made of the endpoint's id, the target's id and the
    clock: two connections to the same target that are added within
    the same millisecond get the same id, and removing one of them
    removes both. *)
Theorem addConnection_then_removeConnection now endpoint connection :
  let added := addConnection now endpoint connection in
  (C.id added.2
   = E.id endpoint +:+ "_" +:+ C.targetNodeId connection +:+ "_" +:+ pretty now)
  ∧ E.connections added.1 = E.connections endpoint ++ [added.2]
  ∧ ((∀ conn, conn ∈ E.connections endpoint → C.id conn ≠ C.id added.2) →
     removeConnection added.1 (C.id added.2) = (endpoint, true))
  ∧ (∀ other,
       C.targetNodeId other = C.targetNodeId connection →
       let again := addConnection now added.1 other in
       C.id again.2 = C.id added.2
       ∧ (removeConnection again.1 (C.id again.2)).2 = true
       ∧ ∀ conn, conn ∈ E.connections (removeConnection again.1 (C.id again.2)).1 →
                 conn ∈ E.connections endpoint ∧ conn ≠ added.2 ∧ conn ≠ again.2).
Proof.
  intros added. split; [done |]. split; [done |]. split.
  - intros Hfresh. apply injective_projections.
    + unfold removeConnection. cbn.
      rewrite filter_app, filter_cons, decide_False by (by intros []). cbn.
      rewrite filter_keeps_all by done. rewrite app_nil_r.
      destruct (bool_decide _); by destruct endpoint.
    + rewrite removeConnection_returns, bool_decide_eq_true, filter_shorter_iff.
      exists added.2. split; [| done]. cbn. apply elem_of_app. right. apply list_elem_of_here.
  - intros other Htarget again.
    assert (Hid : C.id again.2 = C.id added.2) by (cbn; by rewrite Htarget).
    split; [done |]. split.
    + rewrite removeConnection_returns, bool_decide_eq_true, filter_shorter_iff.
      exists again.2. split; [| done]. cbn. apply elem_of_app. right. apply list_elem_of_here.
    + intros conn. rewrite removeConnection_connections, list_elem_of_filter.
      intros [Hne Hconn]. cbn [again added addConnection fst E.connections with_connections]
        in Hconn.
      rewrite !elem_of_app, !list_elem_of_singleton in Hconn.
      destruct Hconn as [[Hconn | ->] | ->]; [| by rewrite Hid in Hne | done].
      split; [done |]. split; intros ->; [by rewrite Hid in Hne | done].
Qed.

End EndpointFacts.

(** * The connection builder and the predefined transformations *)
Section BuilderFacts.
Import Js Engine.

(** The transformations that a typed connection with compatible types can
    name. *)
Lemma open_transformations transform s t :
  areTypesCompatibleEnhanced s t = true →
  isValidTransformation transform s t = true →
  transform ∈ ["string"; "number"; "boolean"; "bearer-prefix"; "array-first";
               "upper"; "lower"; "trim"].
Proof.
  intros Hcompatible Hvalid.
  pose proof (isValidTransformation_known _ _ _ Hvalid) as Hknown.
  cbn in Hknown. rewrite !elem_of_cons, elem_of_nil in Hknown.
  rewrite !elem_of_cons.
  destruct Hknown as [-> | [-> | [-> | [-> | [-> | [-> | [-> | [-> | [-> | []]]]]]]]]];
    try tauto.
  exfalso. by destruct s, t.
Qed.

(** X18: the constructor of [ConnectionBuilder] succeeds exactly when the
    types of the two properties are compatible for the builder and, if
    the target is a path parameter, the source is a string or a number.
    The transformation has no part in it: [TransformedProperty.mapTo]
    builds the builder from the property with its own type and adds the
    transformation afterwards, so that it succeeds exactly when the
    constructor does on the property itself, and no transformation makes
    an incompatible pair connectable. Without a mapping the builder
    holds the empty string, so that [build] never writes the default
    mapping. *)
Theorem transformer_has_no_part_in_the_type_check source target mapping :
  ((∃ builder, ConnectionBuilding.new source target mapping = Ok builder) ↔
   ConnectionBuilder.areTypesCompatible (SchemaProperty.type source) (SchemaProperty.type target) = true
   ∧ (SchemaProperty.location target = in_path →
      SchemaProperty.type source = string_t ∨ SchemaProperty.type source = number_t))
  ∧ (∀ builder, ConnectionBuilding.new source target mapping = Ok builder →
                builder = ConnectionBuilding.mk source target (Some (default "" mapping)) None)
  ∧ (∀ transformer,
       TransformedProperty.mapTo (TransformedProperty.mk source transformer) target mapping
       = builder ← ConnectionBuilding.new source target mapping;
         Ok (ConnectionBuilding.withTransform transformer builder))
  ∧ (∀ transformer,
       ConnectionBuilder.areTypesCompatible (SchemaProperty.type source) (SchemaProperty.type target) = false →
       TransformedProperty.mapTo (TransformedProperty.mk source transformer) target mapping
       = Throw (Error ("Incompatible types: " +:+ ParameterType_name (SchemaProperty.type source)
                       +:+ " -> " +:+ ParameterType_name (SchemaProperty.type target))))
  ∧ (∀ builder now c transforms,
       ConnectionBuilding.new source target mapping = Ok builder →
       ConnectionBuilding.build now (foldr ConnectionBuilding.withTransform builder transforms) = Some c →
       C.naturalLanguageMapping c = default "" mapping).
Proof.
  assert (Hnew : ConnectionBuilding.new source target mapping
                 = _ ← ConnectionBuilding.validateCompatibility
                         (ConnectionBuilding.mk source target (Some (default "" mapping)) None);
                   Ok (ConnectionBuilding.mk source target (Some (default "" mapping)) None)) by done.
  assert (HmapTo : ∀ transformer,
            TransformedProperty.mapTo (TransformedProperty.mk source transformer) target mapping
            = builder ← ConnectionBuilding.new source target mapping;
              Ok (ConnectionBuilding.withTransform transformer builder)).
  { intros transformer. unfold TransformedProperty.mapTo,
      TransformedProperty.getTransformedType. cbn. by destruct source. }
  split; [| split; [| split; [done | split]]].
  - rewrite Hnew. unfold ConnectionBuilding.validateCompatibility. cbn.
    destruct (ConnectionBuilder.areTypesCompatible _ _); cbn.
    + destruct (decide (SchemaProperty.location target = in_path)) as [Hpath | Hpath].
      * rewrite (bool_decide_eq_true_2 _ Hpath).
        destruct (SchemaProperty.type source); cbn; split;
          try (by intros [? [=]]); try (intros _; split; [done |]; tauto);
          try (intros [_ Htype]; destruct (Htype Hpath); done); eauto.
      * rewrite (bool_decide_eq_false_2 _ Hpath). cbn. split; [| eauto].
        intros _. split; [done |]. by intros ?.
    + split; [by intros [? [=]] | by intros [[=] _]].
  - rewrite Hnew. intros builder (_ & _ & [= <-])%bind_Ok. done.
  - intros transformer Hincompatible. rewrite HmapTo, Hnew.
    unfold ConnectionBuilding.validateCompatibility. cbn. by rewrite Hincompatible.
  - rewrite Hnew. intros builder now c transforms (_ & _ & [= <-])%bind_Ok.
    assert (Hshape : ∃ transformation,
              foldr ConnectionBuilding.withTransform
                (ConnectionBuilding.mk source target (Some (default "" mapping)) None) transforms
              = ConnectionBuilding.mk source target (Some (default "" mapping)) transformation).
    { induction transforms as [| transform transforms IH]; [eauto |].
      destruct IH as (transformation & IH). cbn. rewrite IH. eauto. }
    destruct Hshape as (transformation & ->). unfold ConnectionBuilding.build. cbn.
    destruct (ConnectionBuilding.targetLocation (SchemaProperty.location target)); [| done].
    by intros [= <-].
Qed.

(** X19: a connection that the builder built without a transformation
    passes the type check of the engine, with which
    [validateTypedConnections] begins. One that was built with a
    transformation passes exactly when the name of the transformation is
    empty or the table of the engine allows it for the two types; the
    predefined transformation [wrapInArray] is never allowed: every
    connection built with it makes [validateTypedConnections] throw. *)
Theorem built_connection_and_the_engine source target mapping builder now :
  ConnectionBuilding.new source target mapping = Ok builder →
  (∀ c endpoint,
     ConnectionBuilding.build now builder = Some c → E.connections endpoint = [c] →
     validateTypedConnections endpoint = Ok ())
  ∧ (∀ transform c endpoint,
       ConnectionBuilding.build now (ConnectionBuilding.withTransform transform builder) = Some c →
       E.connections endpoint = [c] →
       (validateTypedConnections endpoint = Ok () ↔
        TransformFunction.name transform = ""
        ∨ isValidTransformation (TransformFunction.name transform) (SchemaProperty.type source) (SchemaProperty.type target) = true))
  ∧ (∀ `{Runtime} c endpoint,
       ConnectionBuilding.build now (ConnectionBuilding.withTransform Transforms.wrapInArray builder) = Some c →
       E.connections endpoint = [c] →
       ∃ error, validateTypedConnections endpoint = Throw error).
Proof.
  intros Hnew.
  assert (Hcompatible : areTypesCompatibleEnhanced (SchemaProperty.type source) (SchemaProperty.type target) = true).
  { unfold ConnectionBuilding.new in Hnew. apply bind_Ok in Hnew as ([] & Hcheck & _).
    unfold ConnectionBuilding.validateCompatibility in Hcheck. cbn in Hcheck.
    destruct (ConnectionBuilder.areTypesCompatible _ _) eqn:Hbuilder; [| done].
    by destruct (SchemaProperty.type source), (SchemaProperty.type target). }
  assert (Hbuilder : builder = ConnectionBuilding.mk source target (Some (default "" mapping)) None).
  { unfold ConnectionBuilding.new in Hnew. by apply bind_Ok in Hnew as (_ & _ & [= <-]). }
  subst builder.
  assert (Htransformed : ∀ transform c endpoint,
            ConnectionBuilding.build now (ConnectionBuilding.withTransform transform
                            (ConnectionBuilding.mk source target (Some (default "" mapping)) None)) = Some c →
            E.connections endpoint = [c] →
            (validateTypedConnections endpoint = Ok () ↔
             TransformFunction.name transform = ""
             ∨ isValidTransformation (TransformFunction.name transform) (SchemaProperty.type source) (SchemaProperty.type target)
               = true)).
  { intros transform c endpoint Hbuild Hconnections.
    unfold validateTypedConnections. rewrite Hconnections. cbn [for_each].
    unfold ConnectionBuilding.build in Hbuild. cbn in Hbuild.
    destruct (ConnectionBuilding.targetLocation (SchemaProperty.location target)); [| done].
    injection Hbuild as <-. cbn. rewrite Hcompatible. cbn.
    destruct (String.eqb_spec (TransformFunction.name transform) "") as [-> | Hne]; cbn; [by split; eauto |].
    destruct (isValidTransformation _ _ _); cbn; split; try done; eauto.
    by intros [? | ?]. }
  split; [| split; [done |]].
  - intros c endpoint Hbuild Hconnections.
    unfold validateTypedConnections. rewrite Hconnections. cbn [for_each].
    unfold ConnectionBuilding.build in Hbuild. cbn in Hbuild.
    destruct (ConnectionBuilding.targetLocation (SchemaProperty.location target)); [| done].
    injection Hbuild as <-. cbn. by rewrite Hcompatible.
  - intros R c endpoint Hbuild Hconnections.
    destruct (validateTypedConnections endpoint) as [[] |] eqn:Hvalidate; [| eauto].
    apply (Htransformed _ _ _ Hbuild Hconnections) in Hvalidate as [Hname | Hvalid];
      [done |].
    pose proof (open_transformations _ _ _ Hcompatible Hvalid) as Hopen.
    cbn in Hopen. rewrite !elem_of_cons, elem_of_nil in Hopen.
    by destruct Hopen as [? | [? | [? | [? | [? | [? | [? | [? | []]]]]]]]].
Qed.

(** X20: the engine never runs the transformation of a connection, it
    runs its own transformation of the same name. For [toString],
    [toNumber] and [addBearerPrefix] the two give the same value on every
    input; for [toUpperCase] and [toLowerCase] on every string; for
    [extractFirst] on every array; for [wrapInArray] on every value that
    is not an array, while an array is wrapped by the predefined
    transformation and left as it is by the engine. The name of each
    predefined transformation is in the engine's table. *)
Theorem predefined_transforms_and_the_engine `{Runtime} :
  (∀ input,
     TransformFunction.transform Transforms.toString input
     = applyTransformation input (TransformFunction.name Transforms.toString))
  ∧ (∀ input,
       TransformFunction.transform Transforms.toNumber input
       = applyTransformation input (TransformFunction.name Transforms.toNumber))
  ∧ (∀ input,
       TransformFunction.transform Transforms.addBearerPrefix input
       = applyTransformation input (TransformFunction.name Transforms.addBearerPrefix))
  ∧ (∀ s,
       TransformFunction.transform Transforms.toUpperCase (JString s)
       = applyTransformation (JString s) (TransformFunction.name Transforms.toUpperCase)
       ∧ TransformFunction.transform Transforms.toLowerCase (JString s)
         = applyTransformation (JString s) (TransformFunction.name Transforms.toLowerCase))
  ∧ (∀ elements,
       TransformFunction.transform Transforms.extractFirst (JArray elements)
       = applyTransformation (JArray elements) (TransformFunction.name Transforms.extractFirst))
  ∧ (∀ input,
       isArray input = false →
       TransformFunction.transform Transforms.wrapInArray input
       = applyTransformation input (TransformFunction.name Transforms.wrapInArray))
  ∧ (∀ elements,
       TransformFunction.transform Transforms.wrapInArray (JArray elements) = Ok (JArray [JArray elements])
       ∧ applyTransformation (JArray elements) (TransformFunction.name Transforms.wrapInArray)
         = Ok (JArray elements))
  ∧ (∀ transform, transform ∈ Transforms.all →
                  TransformFunction.name transform ∈ obj_keys validTransformations).
Proof.
  split; [done |]. split; [done |]. split; [done |]. split; [done |].
  split; [| split; [| split; [done |]]].
  - intros elements. cbn. unfold member. cbn. by destruct elements.
  - intros input Harray. cbn. unfold applyTransformation. cbn. by rewrite Harray.
  - intros transform. unfold Transforms.all. rewrite !elem_of_cons, elem_of_nil.
    intros [-> | [-> | [-> | [-> | [-> | [-> | [-> | []]]]]]]]; cbn;
      rewrite !elem_of_cons; tauto.
Qed.

End BuilderFacts.

(** * The parameter builder *)
Section BuilderChainFacts.
Import Js ParameterBuilder.

(** What an assignment to a member of the validation object leaves as it
    is, and what it keeps true. *)
Lemma set_validation_keeps assignment σ this :
  let σ' := (set_validation assignment σ this).1 in
  let this' := (set_validation assignment σ this).2 in
  D.name this' = D.name this
  ∧ D.type this' = D.type this
  ∧ D.items this' = D.items this
  ∧ D.properties this' = D.properties this
  ∧ length σ ≤ length σ'
  ∧ ((∀ address, D.validation this = Some address → address < length σ) →
     ∀ address, D.validation this' = Some address → address < length σ').
Proof.
  unfold set_validation.
  destruct (D.validation this) as [address |] eqn:Hvalidation; cbn [fst snd].
  - unfold store. rewrite length_alter, Hvalidation. repeat split; done.
  - rewrite length_app. cbn. repeat split; try done; [lia |].
    intros _ address [= <-]. lia.
Qed.

(** What a call of a method leaves as it is, and what it keeps true. *)
Lemma run_keeps σ this c σ' this' :
  run (σ, this) c = Ok (σ', this') →
  D.name this' = D.name this
  ∧ D.type this' = D.type this
  ∧ length σ ≤ length σ'
  ∧ ((∀ address, D.validation this = Some address → address < length σ) →
     ∀ address, D.validation this' = Some address → address < length σ')
  ∧ ((is_Some (D.items this) → D.type this = array_t) →
     is_Some (D.items this') → D.type this' = array_t)
  ∧ ((is_Some (D.properties this) → D.type this = object_t) →
     is_Some (D.properties this') → D.type this' = object_t).
Proof.
  assert (Hset : ∀ assignment,
            set_validation assignment σ this = (σ', this') →
            D.name this' = D.name this
            ∧ D.type this' = D.type this
            ∧ length σ ≤ length σ'
            ∧ ((∀ address, D.validation this = Some address → address < length σ) →
               ∀ address, D.validation this' = Some address → address < length σ')
            ∧ ((is_Some (D.items this) → D.type this = array_t) →
               is_Some (D.items this') → D.type this' = array_t)
            ∧ ((is_Some (D.properties this) → D.type this = object_t) →
               is_Some (D.properties this') → D.type this' = object_t)).
  { intros assignment Hassign.
    pose proof (set_validation_keeps assignment σ this) as Hkeeps.
    rewrite Hassign in Hkeeps. cbn in Hkeeps.
    destruct Hkeeps as (Hname & Htype & Hitems & Hproperties & Hlength & Hstore).
    rewrite Hname, Htype, Hitems, Hproperties. repeat split; done. }
  destruct c; cbn.
  1-4: intros [= <- <-]; cbn; repeat split; done.
  1-4: intros [= Hassign]; by eapply Hset.
  - unfold items. destruct (bool_decide_reflect (D.type this = array_t)); cbn; [| done].
    intros [= <- <-]. cbn. repeat split; done.
  - unfold properties. destruct (bool_decide_reflect (D.type this = object_t)); cbn; [| done].
    intros [= <- <-]. cbn. repeat split; done.
Qed.

Lemma chain_keeps calls σ this σ' this' :
  chain calls (σ, this) = Ok (σ', this') →
  D.name this' = D.name this
  ∧ D.type this' = D.type this
  ∧ ((∀ address, D.validation this = Some address → address < length σ) →
     ∀ address, D.validation this' = Some address → address < length σ')
  ∧ ((is_Some (D.items this) → D.type this = array_t) →
     is_Some (D.items this') → D.type this' = array_t)
  ∧ ((is_Some (D.properties this) → D.type this = object_t) →
     is_Some (D.properties this') → D.type this' = object_t).
Proof.
  unfold chain. revert σ this.
  induction calls as [| c calls IH]; intros σ this; cbn [for_each].
  - intros [= <- <-]. done.
  - intros ([σ1 this1] & Hrun & Hrest)%bind_Ok.
    apply run_keeps in Hrun as (Hname & Htype & _ & Hstore & Hitems & Hproperties).
    apply IH in Hrest as (Hname' & Htype' & Hstore' & Hitems' & Hproperties').
    split; [congruence |]. split; [congruence |]. auto.
Qed.

Lemma run_succeeds σ this c :
  (∃ state, run (σ, this) c = Ok state) ↔ refused (D.type this) c = false.
Proof.
  destruct c; cbn; try (split; [done | eauto]).
  - unfold items. destruct (bool_decide (D.type this = array_t)); cbn.
    + split; [done | eauto].
    + split; [by intros [? [=]] | done].
  - unfold properties. destruct (bool_decide (D.type this = object_t)); cbn.
    + split; [done | eauto].
    + split; [by intros [? [=]] | done].
Qed.

Lemma chain_succeeds calls σ this :
  (∃ state, chain calls (σ, this) = Ok state)
  ↔ ∀ c, c ∈ calls → refused (D.type this) c = false.
Proof.
  unfold chain. revert σ this.
  induction calls as [| c calls IH]; intros σ this; cbn [for_each].
  - split; [by intros _ c ?%elem_of_nil | eauto].
  - split.
    + intros (state & ([σ1 this1] & Hrun & Hrest)%bind_Ok) c' Hc'.
      pose proof (run_keeps _ _ _ _ _ Hrun) as (_ & Htype & _).
      apply elem_of_cons in Hc' as [-> | Hc'].
      * apply (run_succeeds σ). eauto.
      * rewrite <- Htype. apply (IH σ1 this1); eauto.
    + intros Hcalls.
      destruct (proj2 (run_succeeds σ this c)) as ([σ1 this1] & Hrun);
        [apply Hcalls; by left |].
      pose proof (run_keeps _ _ _ _ _ Hrun) as (_ & Htype & _).
      destruct (proj2 (IH σ1 this1)) as (state & Hrest).
      { intros c' Hc'. rewrite Htype. apply Hcalls. by right. }
      exists state. rewrite Hrun. exact Hrest.
Qed.

(** X21: a chain of calls on a new builder goes through exactly when it
    holds no call of [items] on a builder whose type is not [array] and no
    call of [properties] on one whose type is not [object]. The builder
    keeps the name and the type that it was made with, so that the
    definition that it builds has items only when its type is [array] and
    properties only when its type is [object], and never both. *)
Theorem chain_goes_through_iff_the_type_fits name type calls :
  ((∃ σ this, chain calls ([], new name type) = Ok (σ, this))
   ↔ ∀ c, c ∈ calls → refused type c = false)
  ∧ (∀ σ this,
       chain calls ([], new name type) = Ok (σ, this) →
       PD.name (read σ (build this)) = name
       ∧ PD.type (read σ (build this)) = type
       ∧ (is_Some (PD.items (read σ (build this))) → type = array_t)
       ∧ (is_Some (PD.properties (read σ (build this))) → type = object_t)
       ∧ ¬ (is_Some (PD.items (read σ (build this)))
            ∧ is_Some (PD.properties (read σ (build this))))).
Proof.
  split.
  - rewrite <- (chain_succeeds calls [] (new name type)). split.
    + intros (σ & this & Hchain). eauto.
    + intros ([σ this] & Hchain). eauto.
  - intros σ this Hchain.
    apply chain_keeps in Hchain as (Hname & Htype & _ & Hitems & Hproperties).
    cbn in Hname, Htype, Hitems, Hproperties |- *.
    rewrite Htype in Hitems, Hproperties.
    assert (Hi : is_Some (D.items this) → type = array_t).
    { apply Hitems. by intros [? [=]]. }
    assert (Hp : is_Some (D.properties this) → type = object_t).
    { apply Hproperties. by intros [? [=]]. }
    split; [done |]. split; [done |]. split; [done |]. split; [done |].
    intros [Hi'%Hi Hp'%Hp]. congruence.
Qed.

(** X22: the definition that [build] returns is a copy of the members of
    the builder's definition, but the validation object is shared. A call
    made on the builder after [build] that is not one of [min], [max],
    [pattern] and [enum] does not change the definition that was built,
    and neither does any call when the builder had no validation object
    yet. When it had one, each of these four calls changes the built
    definition too: its validation stays the one of the builder. *)
Theorem built_definition_shares_its_validation name type calls σ this :
  chain calls ([], new name type) = Ok (σ, this) →
  read σ (build this) = read σ this
  ∧ (∀ c σ' this',
       run (σ, this) c = Ok (σ', this') →
       assigns_validation c = false ∨ D.validation this = None →
       read σ' (build this) = read σ (build this))
  ∧ (∀ c σ' this',
       run (σ, this) c = Ok (σ', this') →
       is_Some (D.validation this) →
       PD.validation (read σ' (build this)) = PD.validation (read σ' this'))
  ∧ (is_Some (D.validation this) →
     (∀ m, ∃ v, PD.validation (read (min m σ this).1 (build this)) = Some v
                ∧ Validation.min v = Some m)
     ∧ (∀ m, ∃ v, PD.validation (read (max m σ this).1 (build this)) = Some v
                  ∧ Validation.max v = Some m)
     ∧ (∀ p, ∃ v, PD.validation (read (pattern p σ this).1 (build this)) = Some v
                  ∧ Validation.pattern v = Some p)
     ∧ (∀ l, ∃ v, PD.validation (read (enum l σ this).1 (build this)) = Some v
                  ∧ Validation.enum v = Some l)).
Proof.
  intros Hchain.
  apply chain_keeps in Hchain as (_ & _ & Hstore & _).
  assert (Hbound : ∀ address, D.validation this = Some address → address < length σ).
  { apply Hstore. intros address. cbn. done. }
  clear Hstore.
  assert (Hset : ∀ assignment σ' this',
            set_validation assignment σ this = (σ', this') →
            (D.validation this = None → read σ' (build this) = read σ (build this))
            ∧ (is_Some (D.validation this) →
               PD.validation (read σ' (build this)) = PD.validation (read σ' this'))).
  { intros assignment σ' this'. unfold set_validation.
    destruct (D.validation this) as [address |] eqn:Hvalidation;
      intros [= <- <-]; unfold read, build; cbn; rewrite ?Hvalidation; cbn.
    - split; [done |]. by rewrite ?Hvalidation.
    - split; [done |]. by intros [? [=]]. }
  assert (Hassigned : ∀ assignment,
            is_Some (D.validation this) →
            ∃ v0, PD.validation (read (set_validation assignment σ this).1 (build this))
                  = Some (assignment v0)).
  { intros assignment [address Hvalidation]. unfold set_validation, read, build.
    rewrite ?Hvalidation. cbn. rewrite ?Hvalidation. cbn.
    destruct (lookup_lt_is_Some_2 σ address (Hbound _ Hvalidation)) as (v0 & Hv0).
    exists v0. unfold store in *. by rewrite list_lookup_alter_eq, Hv0. }
  split; [done |]. split; [| split].
  - intros c σ' this' Hrun Hcase. destruct c; cbn in Hrun;
      try (injection Hrun as <- <-; done).
    1-4: destruct Hcase as [[=] | Hnone]; injection Hrun as Hrun;
         by apply Hset in Hrun as [Hrun _]; apply Hrun.
    + unfold items in Hrun. destruct (bool_decide _); cbn in Hrun; [| done].
      by injection Hrun as <- <-.
    + unfold properties in Hrun. destruct (bool_decide _); cbn in Hrun; [| done].
      by injection Hrun as <- <-.
  - intros c σ' this' Hrun Hsome. destruct c; cbn in Hrun;
      try (injection Hrun as <- <-; done).
    1-4: injection Hrun as Hrun; by apply Hset in Hrun as [_ Hrun]; apply Hrun.
    + unfold items in Hrun. destruct (bool_decide _); cbn in Hrun; [| done].
      by injection Hrun as <- <-.
    + unfold properties in Hrun. destruct (bool_decide _); cbn in Hrun; [| done].
      by injection Hrun as <- <-.
  - intros Hsome. split; [| split; [| split]].
    + intros m. destruct (Hassigned (fun validation =>
        Validation.mk (Some m) (Validation.max validation) (Validation.pattern validation)
          (Validation.enum validation)) Hsome) as (v0 & Hv0). eauto.
    + intros m. destruct (Hassigned (fun validation =>
        Validation.mk (Validation.min validation) (Some m) (Validation.pattern validation)
          (Validation.enum validation)) Hsome) as (v0 & Hv0). eauto.
    + intros p. destruct (Hassigned (fun validation =>
        Validation.mk (Validation.min validation) (Validation.max validation) (Some p)
          (Validation.enum validation)) Hsome) as (v0 & Hv0). eauto.
    + intros l. destruct (Hassigned (fun validation =>
        Validation.mk (Validation.min validation) (Validation.max validation)
          (Validation.pattern validation) (Some l)) Hsome) as (v0 & Hv0). eauto.
Qed.

End BuilderChainFacts.

(** * Previews of response data *)
Section PreviewFacts.
Import Js HttpResponseUtils.
Context `{Builtins}.

(** Induction on a value, with the property at hand for the elements of an
    array and for the members of an object. *)
Lemma JsValue_nested_ind (P : JsValue → Prop) :
  P JUndefined → P JNull → (∀ b, P (JBool b)) → (∀ n, P (JNumber n)) →
  (∀ s, P (JString s)) →
  (∀ elements, Forall P elements → P (JArray elements)) →
  (∀ props, Forall (fun kv => P kv.2) props → P (JObject props)) →
  (∀ kind name text, P (JNative kind name text)) →
  ∀ v, P v.
Proof.
  intros Hundefined Hnull Hbool Hnumber Hstring Harray Hobject Hnative.
  fix IH 1.
  intros [| | b | n | s | elements | props | kind name text];
    [exact Hundefined | exact Hnull | apply Hbool | apply Hnumber | apply Hstring | |
    | apply Hnative].
  - apply Harray. revert elements. fix IHelements 1.
    intros [| e elements]; constructor; [apply IH | apply IHelements].
  - apply Hobject. revert props. fix IHprops 1.
    intros [| [k v] props]; constructor; [apply IH | apply IHprops].
Qed.

Lemma forallb_Forall {A} (f : A → bool) l :
  Forall (fun x => f x = true) l → forallb f l = true.
Proof.
  induction 1 as [| x l Hx Hl IH]; cbn; [done |]. by rewrite Hx, IH.
Qed.

Lemma Forall_obj_set {A} (Q : A → Prop) props key v :
  Forall (fun kv => Q kv.2) props → Q v →
  Forall (fun kv : string * A => Q kv.2) (obj_set props key v).
Proof.
  intros Hprops Hv. induction Hprops as [| [k w] props Hw Hprops IH]; cbn.
  - by constructor.
  - destruct (String.eqb k key); constructor; done.
Qed.

Lemma Forall_copy {A} (Q : A → Prop) (f : A → A) props acc :
  Forall (fun kv => Q kv.2) acc →
  Forall (fun kv => Q (f kv.2)) props →
  Forall (fun kv : string * A => Q kv.2)
    (foldl (fun acc kv => obj_set acc kv.1 (f kv.2)) acc props).
Proof.
  intros Hacc Hprops. revert acc Hacc.
  induction Hprops as [| kv props Hkv Hprops IH]; intros acc Hacc; cbn; [done |].
  apply IH. by apply Forall_obj_set.
Qed.

(** The loop over the keys of an object that copies the members that
    [own] finds. *)
Lemma Forall_owned_copy {A} (Q : A → Prop) (f : A → A) (own : string → outcome bool)
    props acc processedObject :
  Forall (fun kv => Q kv.2) acc →
  Forall (fun kv => Q (f kv.2)) props →
  for_each (fun processedObject kv =>
              owned ← own kv.1;
              Ok (if owned : bool then obj_set processedObject kv.1 (f kv.2)
                  else processedObject))
    props acc = Ok processedObject →
  Forall (fun kv : string * A => Q kv.2) processedObject.
Proof.
  intros Hacc Hprops. revert acc Hacc.
  induction Hprops as [| kv props Hkv Hprops IH]; intros acc Hacc; cbn [for_each].
  - by intros [= <-].
  - intros (acc' & (owned & _ & [= <-])%bind_Ok & Hrest)%bind_Ok.
    apply (IH _) in Hrest; [done |].
    destruct owned; [by apply Forall_obj_set | done].
Qed.

Lemma Forall_spread_array (Q : JsValue → Prop) elements :
  Forall Q elements →
  Forall (fun kv => Q kv.2) (Engine.spread (JArray elements)).
Proof.
  intros Helements. cbn [Engine.spread]. apply Forall_forall.
  intros kv (i & e & -> & He)%elem_of_lookup_imap. cbn.
  by eapply (proj1 (Forall_forall _ _) Helements), list_elem_of_lookup_2.
Qed.

Lemma truncateArrays_unfold input maxArrayLength maxDepth currentDepth :
  truncateArrays input maxArrayLength maxDepth currentDepth
  = if bool_decide (maxDepth ≤ currentDepth) then max_depth_reached
    else
      match input with
      | JNull | JUndefined | JString _ | JNumber _ | JBool _ => input
      | JArray elements =>
          let processedArray :=
            take maxArrayLength
              (map (fun item => truncateArrays item maxArrayLength maxDepth (S currentDepth))
                 elements) in
          if bool_decide (maxArrayLength < length elements) then
            JObject (Engine.assign (Engine.spread (JArray processedArray))
                       [("_truncated", JBool true);
                        ("_originalLength", JNumber (Num (Z.of_nat (length elements))));
                        ("_showing", JNumber (Num (Z.of_nat maxArrayLength)))])
          else JArray processedArray
      | JNative array_kind _ _ => JArray []
      | JObject props =>
          if is_Object (default JUndefined (member input "constructor")) then
            JObject (foldl (fun processedObject kv =>
                              obj_set processedObject kv.1
                                (truncateArrays kv.2 maxArrayLength maxDepth (S currentDepth)))
                       [] props)
          else
            match for_each
                    (fun processedObject kv =>
                       owned ← hasOwnProperty "input" input kv.1;
                       Ok (if owned : bool
                           then obj_set processedObject kv.1
                                  (truncateArrays kv.2 maxArrayLength maxDepth
                                     (S currentDepth))
                           else processedObject))
                    props [] with
            | Ok processedObject => JObject processedObject
            | Throw _ =>
                JString ("[Object: "
                         +:+ constructor_name (default JUndefined (member input "constructor"))
                         +:+ "]")
            end
      | JNative object_kind _ _ => JObject []
      | JNative function_kind _ _ => input
      end.
Proof. by destruct input as [| | | | | | | []]. Qed.

(** X23: whatever the input and the depths are, no array of the value that
    [truncateArrays] returns has more than [maxArrayLength] elements. *)
Theorem truncateArrays_bounds_every_array input maxArrayLength maxDepth currentDepth :
  arrays_within maxArrayLength
    (truncateArrays input maxArrayLength maxDepth currentDepth) = true.
Proof.
  revert currentDepth.
  induction input as [| | b | n | s | elements IH | props IH | kind name text]
    using JsValue_nested_ind;
    intros currentDepth; rewrite truncateArrays_unfold;
    destruct (bool_decide (maxDepth ≤ currentDepth)); try done.
  - assert (Hprocessed : Forall (fun v => arrays_within maxArrayLength v = true)
              (take maxArrayLength
                 (map (fun item => truncateArrays item maxArrayLength maxDepth
                                     (S currentDepth)) elements))).
    { apply Forall_take, Forall_fmap. eapply Forall_impl; [exact IH |].
      intros item Hitem. apply Hitem. }
    cbn zeta. destruct (bool_decide (maxArrayLength < length elements)).
    + cbn [arrays_within]. apply forallb_Forall.
      unfold Engine.assign. cbn [foldl fst snd].
      repeat (apply (Forall_obj_set (fun v => arrays_within maxArrayLength v = true));
              [| done]).
      by apply (Forall_spread_array (fun v => arrays_within maxArrayLength v = true)).
    + cbn [arrays_within]. apply andb_true_intro. split.
      * apply bool_decide_eq_true_2. rewrite length_take. lia.
      * by apply forallb_Forall.
  - cbn zeta.
    assert (Hprocessed : Forall (fun kv => arrays_within maxArrayLength kv.2 = true)
              (foldl (fun processedObject kv =>
                        obj_set processedObject kv.1
                          (truncateArrays kv.2 maxArrayLength maxDepth (S currentDepth)))
                 [] props)).
    { apply (Forall_copy (fun v => arrays_within maxArrayLength v = true)
               (fun v => truncateArrays v maxArrayLength maxDepth (S currentDepth)));
        [done |].
      eapply Forall_impl; [exact IH |]. intros kv Hkv. apply Hkv. }
    destruct (is_Object _).
    { cbn [arrays_within]. by apply forallb_Forall. }
    destruct (for_each _ props []) as [processedObject |] eqn:Hloop; [| done].
    cbn [arrays_within]. apply forallb_Forall.
    apply (Forall_owned_copy (fun v => arrays_within maxArrayLength v = true)
             (fun v => truncateArrays v maxArrayLength maxDepth (S currentDepth))
             (hasOwnProperty "input" (JObject props)) props [] processedObject);
      [done | | exact Hloop].
    eapply Forall_impl; [exact IH |]. intros kv Hkv. apply Hkv.
  - by destruct kind.
Qed.

Lemma truncateStrings_unfold input maxLength maxDepth currentDepth :
  truncateStrings input maxLength maxDepth currentDepth
  = if bool_decide (maxDepth ≤ currentDepth) then max_depth_reached
    else
      match input with
      | JString s =>
          if bool_decide (maxLength < String.length s) then
            JString (String.substring 0 maxLength s +:+ "... [+"
                     +:+ pretty (String.length s - maxLength) +:+ " chars]")
          else input
      | JNull | JUndefined | JNumber _ | JBool _ => input
      | JArray elements =>
          JArray (map (fun item => truncateStrings item maxLength maxDepth (S currentDepth))
                    elements)
      | JObject props =>
          JObject (foldl (fun processed kv =>
                            obj_set processed kv.1
                              (truncateStrings kv.2 maxLength maxDepth (S currentDepth)))
                     [] props)
      | JNative array_kind _ _ => JArray []
      | JNative object_kind _ _ => JObject []
      | JNative function_kind _ _ => input
      end.
Proof. by destruct input as [| | | | | | | []]. Qed.

(** The deepest level that [analyzeData] records. *)
Lemma levels_from k {A} (h : A → nat) (l : list A) :
  Nat.max k (foldr (fun x m => Nat.max (S k + h x) m) 0 l)
  = k + foldr (fun x m => Nat.max (S (h x)) m) 0 l.
Proof. induction l as [| x l IH]; cbn [foldr]; lia. Qed.

Lemma analyzeData_members {A} (g : A → JsValue) (l : list A) k :
  Forall (fun x => ∀ info k, depth (analyzeData (g x) info k)
                             = Nat.max (depth info) (k + height (g x))) l →
  ∀ info,
    depth (foldl (fun info x => analyzeData (g x) info (S k)) info l)
    = Nat.max (depth info) (foldr (fun x m => Nat.max (S k + height (g x)) m) 0 l).
Proof.
  induction 1 as [| x l Hx Hl IH]; intros info; cbn [foldl foldr]; [lia |].
  rewrite IH, Hx. lia.
Qed.

Lemma analyzeData_depth v :
  ∀ info k, depth (analyzeData v info k) = Nat.max (depth info) (k + height v).
Proof.
  induction v as [| | b | n | s | elements IH | props IH | kind name text]
    using JsValue_nested_ind;
    intros info k; try (cbn; lia); [| | destruct kind; cbn; lia].
  - cbn [analyzeData height].
    rewrite (analyzeData_members (fun e => e) elements k IH). cbn [depth].
    rewrite <- (levels_from k height elements). lia.
  - cbn [analyzeData height].
    rewrite (analyzeData_members (fun kv : string * JsValue => kv.2) props k IH).
    cbn [depth].
    rewrite <- (levels_from k (fun kv : string * JsValue => height kv.2) props). lia.
Qed.

Lemma getDataInfo_depth v : depth (getDataInfo v) = height v.
Proof. unfold getDataInfo. rewrite analyzeData_depth. cbn. lia. Qed.

Lemma height_members {A} (g : A → JsValue) (l : list A) m :
  Forall (fun x => S (height (g x)) ≤ m) l →
  foldr (fun x acc => Nat.max (S (height (g x))) acc) 0 l ≤ m.
Proof. induction 1 as [| x l Hx Hl IH]; cbn [foldr]; lia. Qed.

Lemma truncateArrays_height input maxArrayLength maxDepth :
  ∀ currentDepth,
    currentDepth ≤ maxDepth →
    currentDepth + height (truncateArrays input maxArrayLength maxDepth currentDepth)
    ≤ maxDepth.
Proof.
  induction input as [| | b | n | s | elements IH | props IH | kind name text]
    using JsValue_nested_ind;
    intros currentDepth Hdepth; rewrite truncateArrays_unfold;
    destruct (bool_decide_reflect (maxDepth ≤ currentDepth)) as [Hmax | Hmax];
    try (cbn; lia); [| | destruct kind; cbn; lia].
  - assert (Hprocessed : Forall (fun v => S (height v) ≤ maxDepth - currentDepth)
              (take maxArrayLength
                 (map (fun item => truncateArrays item maxArrayLength maxDepth
                                     (S currentDepth)) elements))).
    { apply Forall_take, Forall_fmap. eapply Forall_impl; [exact IH |].
      intros item Hitem. cbn. specialize (Hitem (S currentDepth)). lia. }
    cbn zeta. destruct (bool_decide (maxArrayLength < length elements)).
    + cbn [height].
      pose proof (height_members (fun kv : string * JsValue => kv.2)
                    (Engine.assign
                       (Engine.spread
                          (JArray (take maxArrayLength
                             (map (fun item => truncateArrays item maxArrayLength maxDepth
                                                 (S currentDepth)) elements))))
                       [("_truncated", JBool true);
                        ("_originalLength", JNumber (Num (Z.of_nat (length elements))));
                        ("_showing", JNumber (Num (Z.of_nat maxArrayLength)))])
                    (maxDepth - currentDepth)) as Hheight.
      cbn beta in Hheight. enough (Hmembers : _) by (specialize (Hheight Hmembers); lia).
      unfold Engine.assign. cbn [foldl fst snd].
      repeat (apply (Forall_obj_set (fun v => S (height v) ≤ maxDepth - currentDepth));
              [| cbn; lia]).
      by apply (Forall_spread_array (fun v => S (height v) ≤ maxDepth - currentDepth)).
    + cbn [height].
      pose proof (height_members (fun v : JsValue => v) _ _ Hprocessed) as Hheight.
      cbn beta in Hheight. lia.
  - cbn zeta.
    assert (Hprocessed : Forall (fun kv => S (height kv.2) ≤ maxDepth - currentDepth)
              (foldl (fun processedObject kv =>
                        obj_set processedObject kv.1
                          (truncateArrays kv.2 maxArrayLength maxDepth (S currentDepth)))
                 [] props)).
    { apply (Forall_copy (fun v => S (height v) ≤ maxDepth - currentDepth)
               (fun v => truncateArrays v maxArrayLength maxDepth (S currentDepth)));
        [done |].
      eapply Forall_impl; [exact IH |]. intros kv Hkv. cbn.
      specialize (Hkv (S currentDepth)). lia. }
    pose proof (height_members (fun kv : string * JsValue => kv.2) _ _ Hprocessed)
      as Hheight.
    cbn beta in Hheight.
    destruct (is_Object _); [cbn [height]; lia |].
    destruct (for_each _ props []) as [processedObject |] eqn:Hloop; [| cbn; lia].
    assert (Hcopied : Forall (fun kv => S (height kv.2) ≤ maxDepth - currentDepth)
              processedObject).
    { apply (Forall_owned_copy (fun v => S (height v) ≤ maxDepth - currentDepth)
               (fun v => truncateArrays v maxArrayLength maxDepth (S currentDepth))
               (hasOwnProperty "input" (JObject props)) props [] processedObject);
        [done | | exact Hloop].
      eapply Forall_impl; [exact IH |]. intros kv Hkv. cbn.
      specialize (Hkv (S currentDepth)). lia. }
    pose proof (height_members (fun kv : string * JsValue => kv.2) _ _ Hcopied)
      as Hheight'.
    cbn beta in Hheight'. cbn [height]. lia.
Qed.

Lemma truncateStrings_height input maxLength maxDepth :
  ∀ currentDepth,
    currentDepth ≤ maxDepth →
    currentDepth + height (truncateStrings input maxLength maxDepth currentDepth)
    ≤ maxDepth.
Proof.
  induction input as [| | b | n | s | elements IH | props IH | kind name text]
    using JsValue_nested_ind;
    intros currentDepth Hdepth; rewrite truncateStrings_unfold;
    destruct (bool_decide_reflect (maxDepth ≤ currentDepth)) as [Hmax | Hmax];
    try (cbn; lia); [| | | destruct kind; cbn; lia].
  - destruct (bool_decide (maxLength < String.length s)); cbn; lia.
  - cbn [height].
    assert (Hprocessed : Forall (fun v => S (height v) ≤ maxDepth - currentDepth)
              (map (fun item => truncateStrings item maxLength maxDepth (S currentDepth))
                 elements)).
    { apply Forall_fmap. eapply Forall_impl; [exact IH |].
      intros item Hitem. cbn. specialize (Hitem (S currentDepth)). lia. }
    pose proof (height_members (fun v : JsValue => v) _ _ Hprocessed) as Hheight.
    cbn beta in Hheight. lia.
  - cbn [height].
    assert (Hprocessed : Forall (fun kv => S (height kv.2) ≤ maxDepth - currentDepth)
              (foldl (fun processed kv =>
                        obj_set processed kv.1
                          (truncateStrings kv.2 maxLength maxDepth (S currentDepth)))
                 [] props)).
    { apply (Forall_copy (fun v => S (height v) ≤ maxDepth - currentDepth)
               (fun v => truncateStrings v maxLength maxDepth (S currentDepth)));
        [done |].
      eapply Forall_impl; [exact IH |]. intros kv Hkv. cbn.
      specialize (Hkv (S currentDepth)). lia. }
    pose proof (height_members (fun kv : string * JsValue => kv.2) _ _ Hprocessed)
      as Hheight.
    cbn beta in Hheight. lia.
Qed.

(** X24: the values that [truncateArrays] and [truncateStrings] return
    when they are called from the root are at most [maxDepth] levels deep,
    as [getDataInfo] measures the depth; so the data of a preview are never
    deeper than the [maxDepth] of the options, 10 when none is given, and
    the depth that the metadata report for them is within that bound. *)
Theorem preview_is_never_deeper_than_maxDepth input :
  (∀ maxArrayLength maxDepth,
     depth (getDataInfo (truncateArrays input maxArrayLength maxDepth 0)) ≤ maxDepth)
  ∧ (∀ maxLength maxDepth,
       depth (getDataInfo (truncateStrings input maxLength maxDepth 0)) ≤ maxDepth)
  ∧ (∀ options,
       match createPreview input options with
       | inl processed =>
           depth (getDataInfo processed) ≤ default 10 (maxDepth options)
       | inr preview =>
           depth (getDataInfo (data preview)) ≤ default 10 (maxDepth options)
           ∧ depth (HttpResponseUtils.processed preview) ≤ default 10 (maxDepth options)
           ∧ original preview = getDataInfo input
       end).
Proof.
  split; [| split].
  - intros maxArrayLength maxDepth. rewrite getDataInfo_depth.
    pose proof (truncateArrays_height input maxArrayLength maxDepth 0). lia.
  - intros maxLength maxDepth. rewrite getDataInfo_depth.
    pose proof (truncateStrings_height input maxLength maxDepth 0). lia.
  - intros options. unfold createPreview.
    pose proof (truncateStrings_height
                  (truncateArrays input (default 1 (maxArrayLength options))
                     (default 10 (maxDepth options)) 0)
                  (default 100 (maxStringLength options))
                  (default 10 (maxDepth options)) 0) as Hheight.
    destruct (default true (includeMetadata options)); cbn [data processed original];
      rewrite !getDataInfo_depth; repeat split; lia.
Qed.

Lemma analyzeData_numbers numbers depth info :
  totalSize (foldl (fun info item => analyzeData item info depth) info
               (JNumber <$> numbers))
  = totalSize info + 8 * length numbers.
Proof.
  revert info. induction numbers as [| n numbers IH]; intros info; cbn [fmap list_fmap foldl].
  - cbn. lia.
  - rewrite IH. cbn. lia.
Qed.

(** X25: the flag [truncated] of a preview compares the estimated sizes of
    the data before and after, and the object that replaces a truncated
    array is larger than a short array. With the default options an array
    of two or more numbers is cut to its first element, and the preview
    reports it as truncated only when it had four or more. *)
Theorem truncated_flag_misses_short_arrays first second rest :
  let numbers := first :: second :: rest in
  ∃ preview,
    createPreview (JArray (JNumber <$> numbers)) no_preview_options = inr preview
    ∧ data preview
      = JObject [("0", JNumber first); ("_truncated", JBool true);
                 ("_originalLength", JNumber (Num (Z.of_nat (length numbers))));
                 ("_showing", JNumber (Num 1))]
    ∧ totalSize (original preview) = 12 * length numbers
    ∧ totalSize (processed preview) = 44
    ∧ (truncated preview = true ↔ 4 ≤ length numbers).
Proof.
  intros numbers.
  assert (Hdata : truncateStrings
                    (truncateArrays (JArray (JNumber <$> numbers)) 1 10 0) 100 10 0
                  = JObject [("0", JNumber first); ("_truncated", JBool true);
                             ("_originalLength", JNumber (Num (Z.of_nat (length numbers))));
                             ("_showing", JNumber (Num 1))]).
  { subst numbers. cbn [fmap list_fmap]. rewrite truncateArrays_unfold.
    rewrite bool_decide_eq_false_2 by lia. cbn zeta.
    rewrite bool_decide_eq_true_2 by (cbn; lia).
    cbn [map take]. rewrite truncateArrays_unfold.
    rewrite bool_decide_eq_false_2 by lia.
    rewrite !length_cons, length_fmap. reflexivity. }
  assert (Horiginal : totalSize (getDataInfo (JArray (JNumber <$> numbers)))
                      = 12 * length numbers).
  { unfold getDataInfo. cbn [analyzeData]. rewrite analyzeData_numbers.
    cbn [totalSize getDataSize]. rewrite length_fmap. lia. }
  eexists. unfold createPreview, no_preview_options.
  cbn [maxArrayLength maxStringLength maxDepth includeMetadata default].
  split; [reflexivity |]. cbn [data original processed truncated].
  rewrite Hdata, Horiginal.
  split; [done |]. split; [done |]. split; [done |].
  rewrite bool_decide_eq_true. change (totalSize (getDataInfo _)) with 44.
  subst numbers. cbn [length]. lia.
Qed.

End PreviewFacts.

(** * Worked examples *)



(** The words around an object are dropped. *)
Lemma object_is_cut_from_first_to_last_brace_witness :
  Engine.cleanAiJsonResponse "Sure: {a} ok" = Ok "{a}".
Proof.
  apply (object_is_cut_from_first_to_last_brace "Sure: {a} ok" "Sure: " "a" " ok").
  - vm_compute. reflexivity.
  - vm_compute. reflexivity.
  - vm_compute. reflexivity.
Defined.



(** A connection from [id_of_A] to [userId_of_B], built at the time 0. *)
Lemma built_connection_and_the_engine_witness :
  (∀ c endpoint,
     ConnectionBuilding.build 0
       (ConnectionBuilding.mk id_of_A userId_of_B (Some "") None) = Some c →
     ApiEndpoint.connections endpoint = [c] →
     Engine.validateTypedConnections endpoint = Ok ())
  ∧ (∀ transform c endpoint,
       ConnectionBuilding.build 0
         (ConnectionBuilding.withTransform transform
            (ConnectionBuilding.mk id_of_A userId_of_B (Some "") None)) = Some c →
       ApiEndpoint.connections endpoint = [c] →
       (Engine.validateTypedConnections endpoint = Ok () ↔
        TransformFunction.name transform = ""
        ∨ Engine.isValidTransformation (TransformFunction.name transform) number_t number_t
          = true))
  ∧ (∀ `{Runtime} c endpoint,
       ConnectionBuilding.build 0
         (ConnectionBuilding.withTransform Transforms.wrapInArray
            (ConnectionBuilding.mk id_of_A userId_of_B (Some "") None)) = Some c →
       ApiEndpoint.connections endpoint = [c] →
       ∃ error, Engine.validateTypedConnections endpoint = Throw error).
Proof.
  apply (built_connection_and_the_engine id_of_A userId_of_B None
           (ConnectionBuilding.mk id_of_A userId_of_B (Some "") None) 0%Z).
  vm_compute. reflexivity.
Defined.

(** A builder on which [min(1)] was called before [build]: a later
    [max(9)] is seen in the definition that was built. *)
Lemma built_definition_shares_its_validation_witness :
  ParameterBuilder.chain [ParameterBuilder.call_min (Js.Num 1)]
    ([], ParameterBuilder.new "limit" number_t)
  = Ok ([Validation.mk (Some (Js.Num 1)) None None None],
        ParameterBuilder.D.mk "limit" number_t false None None None None None (Some 0))
  ∧ ∃ v, ParameterDefinition.validation
           (ParameterBuilder.read
              (ParameterBuilder.max (Js.Num 9)
                 [Validation.mk (Some (Js.Num 1)) None None None]
                 (ParameterBuilder.D.mk "limit" number_t false None None None None None
                    (Some 0))).1
              (ParameterBuilder.build
                 (ParameterBuilder.D.mk "limit" number_t false None None None None None
                    (Some 0)))) = Some v
         ∧ Validation.max v = Some (Js.Num 9).
Proof.
  split; [vm_compute; reflexivity |].
  apply (built_definition_shares_its_validation "limit" number_t
           [ParameterBuilder.call_min (Js.Num 1)]
           [Validation.mk (Some (Js.Num 1)) None None None]
           (ParameterBuilder.D.mk "limit" number_t false None None None None None (Some 0))).
  - vm_compute. reflexivity.
  - cbn. eauto.
Defined.
